(** * OpenOCDProgrammer: option-byte reconciliation over a debug probe

    A shallow embedding of [scripts/flipper/utils/programmer_openocd.py].

    The Python methods talk to two collaborators that live outside this
    file's source: the [OpenOCD] command channel and the [STM32WB55]
    register map.  Every call that reaches one of them is a [request];
    the answer comes from a [probe], a function of the history of the
    session so far.  A method is a computation that reads the history
    and yields the events it adds to it, together with its result or the
    exception that ended it.  Python integers are [Z], [bytes] are lists
    of [byte], [str] is [string], holding the UTF-8 encoding of the
    text. *)

From Stdlib Require Import ZArith NArith List String Ascii Bool Lia Arith.
From Stdlib Require Import Strings.Byte.
Import ListNotations.

Local Open Scope string_scope.
Local Open Scope list_scope.
Local Open Scope Z_scope.

(** ** Python values used by the programmer *)

Definition bytes := list byte.

Definition byte_to_Z (b : byte) : Z := Z.of_N (Byte.to_N b).

Inductive exn :=
| ProbeError          (* raised inside an OpenOCD or STM32WB55 call *)
| DataError           (* raised by OptionBytesData(...).gen_values().export() *)
| UnmappedRegister    (* raised by STM32WB55.option_bytes_id_to_address *)
| IndexError
| OverflowError
| ValueError
| TypeError
| AttributeError
| Exception (msg : string).

Inductive result (A : Type) :=
| Ok (a : A)
| Err (e : exn).
Arguments Ok {A} a.
Arguments Err {A} e.

Definition bindR {A B} (r : result A) (f : A -> result B) : result B :=
  match r with
  | Ok a => f a
  | Err e => Err e
  end.

(** [for i in l: s = body(i, s)] for a body that may raise but touches
    nothing outside [s]. *)
Fixpoint for_each_r {S : Type} (l : list nat) (body : nat -> S -> result S)
    (s : S) : result S :=
  match l with
  | [] => Ok s
  | i :: l' => bindR (body i s) (for_each_r l' body)
  end.

(** [data[a:b]] for non-negative [a], [b]: out-of-range bounds are clamped. *)
Definition slice {A : Type} (data : list A) (a b : nat) : list A :=
  firstn (b - a) (skipn a data).

(** [data[i]] for a non-negative [i]. *)
Definition index {A : Type} (data : list A) (i : nat) : result A :=
  match nth_error data i with
  | Some x => Ok x
  | None => Err IndexError
  end.

(** [bytes([x])]. *)
Definition bytes1 (x : Z) : result bytes :=
  if (0 <=? x) && (x <? 256)
  then match Byte.of_N (Z.to_N x) with
       | Some b => Ok [b]
       | None => Err ValueError
       end
  else Err ValueError.

(** [int.from_bytes(data, "little")]. *)
Fixpoint from_bytes_little (data : bytes) : Z :=
  match data with
  | [] => 0
  | b :: rest => byte_to_Z b + 256 * from_bytes_little rest
  end.

(** The [n] low base-256 digits of [v], least significant first. *)
Fixpoint little_digits (n : nat) (v : Z) : bytes :=
  match n with
  | O => []
  | S n' =>
      match Byte.of_N (Z.to_N (v mod 256)) with
      | Some b => b :: little_digits n' (v / 256)
      | None => little_digits n' (v / 256)
      end
  end.

(** [v.to_bytes(n, "little")]: unsigned, raises OverflowError when [v] is
    negative or does not fit. *)
Definition to_bytes_little (v : Z) (n : nat) : result bytes :=
  if (0 <=? v) && (v <? 256 ^ Z.of_nat n)
  then Ok (little_digits n v)
  else Err OverflowError.

Fixpoint bytes_eqb (a b : bytes) : bool :=
  match a, b with
  | [], [] => true
  | x :: a', y :: b' => Byte.eqb x y && bytes_eqb a' b'
  | _, _ => false
  end.

(** ** Text: hex dumps, number formatting, padding *)

Definition hex_digit (upper : bool) (n : N) : ascii :=
  let lower := list_ascii_of_string "0123456789abcdef" in
  let caps := list_ascii_of_string "0123456789ABCDEF" in
  nth (N.to_nat n) (if upper then caps else lower) "?"%char.

Definition hex_hi (b : byte) : ascii := hex_digit false (Byte.to_N b / 16).
Definition hex_lo (b : byte) : ascii := hex_digit false (Byte.to_N b mod 16).

Definition hex_byte (b : byte) : string :=
  String (hex_hi b) (String (hex_lo b) EmptyString).

(** [data.hex()]: two lowercase digits per byte. *)
Fixpoint hex (data : bytes) : string :=
  match data with
  | [] => EmptyString
  | b :: rest => (hex_byte b ++ hex rest)%string
  end.

(** [s[a:b]] on text. *)
Definition str_slice (s : string) (a b : nat) : string :=
  string_of_list_ascii (slice (list_ascii_of_string s) a b).

Fixpoint repeat_char (c : ascii) (n : nat) : string :=
  match n with
  | O => EmptyString
  | S n' => String c (repeat_char c n')
  end.

(** [f"{s: <w}"]: left-aligned, padded with spaces up to width [w]. *)
Definition ljust (s : string) (w : nat) : string :=
  (s ++ repeat_char " "%char (w - String.length s))%string.

(** Digits of a positive number in base [base], most significant first;
    [fuel] bounds the number of digits. *)
Fixpoint digits_of (fuel : nat) (base : N) (upper : bool) (n : N)
    (acc : string) : string :=
  match fuel with
  | O => acc
  | S fuel' =>
      let acc' := String (hex_digit upper (n mod base)) acc in
      if (n / base =? 0)%N then acc' else digits_of fuel' base upper (n / base) acc'
  end.

Definition natural_str (base : N) (upper : bool) (n : N) : string :=
  digits_of (S (N.to_nat (N.log2 n))) base upper n EmptyString.

(** [f"{v}"] for an int. *)
Definition str_int (v : Z) : string :=
  if v <? 0 then ("-" ++ natural_str 10 false (Z.to_N (- v)))%string
  else natural_str 10 false (Z.to_N v).

(** Hex digits of an int, zero-filled to eight columns, the sign counting
    as a column. *)
Definition str_08 (upper : bool) (v : Z) : string :=
  if v <? 0
  then let d := natural_str 16 upper (Z.to_N (- v)) in
       ("-" ++ repeat_char "0"%char (7 - String.length d) ++ d)%string
  else let d := natural_str 16 upper (Z.to_N v) in
       (repeat_char "0"%char (8 - String.length d) ++ d)%string.

(** [f"{v:08X}"] and [f"{v:08x}"] for an int. *)
Definition str_08X (v : Z) : string := str_08 true v.
Definition str_08x (v : Z) : string := str_08 false v.

(** The characters [str.strip()] removes, by the length of their
    encoding.  One byte: U+0009 to U+000D and U+001C to U+0020. *)
Definition is_space (c : ascii) : bool :=
  let n := nat_of_ascii c in
  ((9 <=? n) && (n <=? 13) || (28 <=? n) && (n <=? 32))%nat.

(** Two bytes: U+0085 and U+00A0. *)
Definition is_space2 (c1 c2 : ascii) : bool :=
  let n1 := nat_of_ascii c1 in
  let n2 := nat_of_ascii c2 in
  ((n1 =? 0xC2) && ((n2 =? 0x85) || (n2 =? 0xA0)))%nat.

(** Three bytes: U+1680, U+2000 to U+200A, U+2028, U+2029, U+202F, U+205F
    and U+3000. *)
Definition is_space3 (c1 c2 c3 : ascii) : bool :=
  let n1 := nat_of_ascii c1 in
  let n2 := nat_of_ascii c2 in
  let n3 := nat_of_ascii c3 in
  ((n1 =? 0xE1) && (n2 =? 0x9A) && (n3 =? 0x80)
   || (n1 =? 0xE2) && (n2 =? 0x80)
      && ((0x80 <=? n3) && (n3 <=? 0x8A) || (n3 =? 0xA8) || (n3 =? 0xA9)
          || (n3 =? 0xAF))
   || (n1 =? 0xE2) && (n2 =? 0x81) && (n3 =? 0x9F)
   || (n1 =? 0xE3) && (n2 =? 0x80) && (n3 =? 0x80))%nat.

(** Drop the leading characters recognised by [sp1], [sp2] and [sp3]. *)
Fixpoint lstrip_by (sp1 : ascii -> bool) (sp2 : ascii -> ascii -> bool)
    (sp3 : ascii -> ascii -> ascii -> bool) (s : list ascii) : list ascii :=
  match s with
  | c1 :: s1 =>
      if sp1 c1 then lstrip_by sp1 sp2 sp3 s1
      else match s1 with
           | c2 :: s2 =>
               if sp2 c1 c2 then lstrip_by sp1 sp2 sp3 s2
               else match s2 with
                    | c3 :: s3 =>
                        if sp3 c1 c2 c3 then lstrip_by sp1 sp2 sp3 s3 else s
                    | [] => s
                    end
           | [] => s
           end
  | [] => []
  end.

(** [s.lstrip()] on the bytes of [s]. *)
Definition lstrip (s : list ascii) : list ascii :=
  lstrip_by is_space is_space2 is_space3 s.

(** [s.rstrip()] on the bytes of [s] in reverse order: the last byte of a
    character comes first. *)
Definition rstrip_rev (s : list ascii) : list ascii :=
  lstrip_by is_space (fun c2 c1 => is_space2 c1 c2)
            (fun c3 c2 c1 => is_space3 c1 c2 c3) s.

(** [s.strip()]. *)
Definition strip (s : string) : string :=
  string_of_list_ascii
    (rev (rstrip_rev (rev (lstrip (list_ascii_of_string s))))).

(** ** The probe session and the register map *)

Module STM32WB55.
(** [STM32WB55.RunMode]. *)
Inductive RunMode := Init | Run.

(** The static data of the class that the programmer consults. *)
Record t := {
  OPTION_BYTE_BASE : Z;
  (** [None]: the method raises for this dword index. *)
  option_bytes_id_to_address : nat -> option Z
}.
End STM32WB55.

Module Programmer.
(** [Programmer.RunMode]; [Unknown] stands for any other value passed
    as a mode. *)
Inductive RunMode := Run | Stop | Unknown.
End Programmer.

(** What a call hands back: Python is dynamically typed. *)
Inductive pyvalue :=
| PyNone
| PyInt (z : Z)
| PyStr (s : string).

(** The calls made on [self.openocd] and on the [STM32WB55] helper. *)
Inductive request :=
| RqStart
| RqStop
| RqSendTcl (cmd : string)
| RqRead32 (addr : Z)
| RqWrite32 (addr value : Z)
| RqReset (mode : STM32WB55.RunMode)
| RqClearFlashErrors
| RqFlashUnlock
| RqOptionBytesUnlock
| RqOptionBytesApply
| RqOptionBytesLoad
| RqWriteFlash (addr word_1 word_2 : Z).

Inductive reply :=
| Raises
| Returns (v : pyvalue).

Inductive level := LInfo | LError.

Inductive event :=
| Call (rq : request) (rp : reply)
| Log (lvl : level) (msg : string).

Definition trace := list event.

(** The device and its channel: the answer to a request, given everything
    that happened in the session before it. *)
Definition probe := trace -> request -> reply.

(** [OptionBytesData(file_path).gen_values().export()]. *)
Record OptionBytesValues := {
  reference : bytes;
  compare_mask : bytes;
  write_mask : bytes
}.

(** A computation reads the history and yields the events it adds and its
    outcome. *)
Definition M (A : Type) := trace -> trace * result A.

Definition ret {A} (a : A) : M A := fun _ => ([], Ok a).

Definition raise {A} (e : exn) : M A := fun _ => ([], Err e).

Definition lift {A} (r : result A) : M A := fun _ => ([], r).

Definition bind {A B} (m : M A) (f : A -> M B) : M B :=
  fun h =>
    let (d1, r) := m h in
    match r with
    | Ok a => let (d2, r2) := f a (h ++ d1) in (d1 ++ d2, r2)
    | Err e => (d1, Err e)
    end.

Declare Scope prog_scope.
Delimit Scope prog_scope with prog.
Notation "x <- m ;; k" := (bind m (fun x => k))
  (at level 61, m at next level, right associativity) : prog_scope.
Notation "m ;; k" := (bind m (fun _ => k))
  (at level 61, right associativity) : prog_scope.
Local Open Scope prog_scope.

(** [for i in l: s = body(i, s)]. *)
Fixpoint for_each {S : Type} (l : list nat) (body : nat -> S -> M S) (s : S)
    : M S :=
  match l with
  | [] => ret s
  | i :: l' => s' <- body i s ;; for_each l' body s'
  end.

(** [range(start, stop, step)] for [start <= stop] and a positive step. *)
Definition range_step (start stop step : nat) : list nat :=
  map (fun k => (start + k * step)%nat)
      (seq 0 ((stop - start + step - 1) / step)%nat).

Definition log (lvl : level) (msg : string) : M unit :=
  fun _ => ([Log lvl msg], Ok tt).

(** An [int] as the left operand of [&]: [value & mask] raises a TypeError
    on anything else. *)
Definition as_int (v : pyvalue) : result Z :=
  match v with
  | PyInt z => Ok z
  | _ => Err TypeError
  end.

(** [value.to_bytes(n, "little")]: the method of an [int]; [None] and text
    have no such attribute. *)
Definition to_bytes (value : pyvalue) (n : nat) : result bytes :=
  match value with
  | PyInt z => to_bytes_little z n
  | _ => Err AttributeError
  end.

(** A [str] where one is needed: [.strip()] raises on anything else. *)
Definition as_str (v : pyvalue) : result string :=
  match v with
  | PyStr s => Ok s
  | _ => Err AttributeError
  end.

(** The two f-strings logged for a patch. *)
Definition msg_need_to_patch (device_addr ob_value_masked ob_value_ref : Z)
    (i : nat) : string :=
  ("Need to patch: " ++ str_08X device_addr ++ ": " ++ str_08X ob_value_masked
   ++ " != " ++ str_08X ob_value_ref ++ ", REG[" ++ str_int (Z.of_nat i) ++ "]")%string.

Definition msg_writing (ob_value device_reg_addr : Z) : string :=
  ("Writing " ++ str_08X ob_value ++ " to " ++ str_08X device_reg_addr)%string.

Section OpenOCDProgrammer.

(** [self.openocd], together with the target behind it. *)
Variable openocd : probe.
(** [stm32 = STM32WB55()]. *)
Variable stm32 : STM32WB55.t.
(** The option-byte image producer; [None]: it raises (file absent or
    not parsable). *)
Variable OptionBytesData : string -> option OptionBytesValues.
(** [os.path.exists]. *)
Variable path_exists : string -> bool.

Definition call (rq : request) : M pyvalue :=
  fun h =>
    match openocd h rq with
    | Raises => ([Call rq Raises], Err ProbeError)
    | Returns v => ([Call rq (Returns v)], Ok v)
    end.

(** [self.openocd.read_32(addr)] where the value read is next an operand
    of [&]. *)
Definition read_32 (addr : Z) : M Z :=
  v <- call (RqRead32 addr) ;; lift (as_int v).

Definition write_32 (addr value : Z) : M pyvalue := call (RqWrite32 addr value).

Definition send_tcl (cmd : string) : M pyvalue := call (RqSendTcl cmd).

Definition option_bytes_id_to_address (i : nat) : M Z :=
  match STM32WB55.option_bytes_id_to_address stm32 i with
  | Some a => ret a
  | None => raise UnmappedRegister
  end.

Definition gen_values_export (file_path : string) : M OptionBytesValues :=
  match OptionBytesData file_path with
  | Some v => ret v
  | None => raise DataError
  end.

(** [OpenOCDProgrammer.reset]. *)
Definition reset (mode : Programmer.RunMode) : M bool :=
  match mode with
  | Programmer.Run => call (RqReset STM32WB55.Run) ;; ret true
  | Programmer.Stop => call (RqReset STM32WB55.Init) ;; ret true
  | Programmer.Unknown => raise (Exception "Unknown mode")
  end.

(** [OpenOCDProgrammer.flash]. *)
Definition flash (address : Z) (file_path : string) (verify : bool) : M bool :=
  if negb (path_exists file_path)
  then raise (Exception ("File " ++ file_path ++ " not found")%string)
  else
    call RqStart ;;
    send_tcl "init" ;;
    send_tcl ("program " ++ file_path ++ " 0x" ++ str_08x address
              ++ (if verify then " verify" else "") ++ " reset exit")%string ;;
    call RqStop ;;
    ret true.

(** The inner loop of [_ob_print_diff_table]: the two diff columns of one
    row. *)
Definition diff_strs (ref read : bytes) : string * string :=
  fold_left
    (fun (acc : string * string) (j : nat) =>
       let (diff_str1, diff_str2) := acc in
       let byte_str_1 := str_slice (hex ref) j (j + 2) in
       let byte_str_2 := str_slice (hex read) j (j + 2) in
       if String.eqb byte_str_1 byte_str_2
       then ((diff_str1 ++ "__")%string, (diff_str2 ++ "__")%string)
       else ((diff_str1 ++ byte_str_1)%string, (diff_str2 ++ byte_str_2)%string))
    (range_step 0 (String.length (hex ref)) 2)
    (EmptyString, EmptyString).

(** [OpenOCDProgrammer._ob_print_diff_table]. *)
Definition _ob_print_diff_table (ob_reference ob_read : bytes)
    (print_fn : string -> M unit) : M unit :=
  print_fn (ljust "Reference" 20 ++ " " ++ ljust "Device" 20 ++ " "
            ++ ljust "Diff Reference" 20 ++ " " ++ ljust "Diff Device" 20)%string ;;
  for_each (range_step 0 (List.length ob_reference) 8)
    (fun i (_ : unit) =>
       let ref := slice ob_reference i (i + 8) in
       let read := slice ob_read i (i + 8) in
       let (diff_str1, diff_str2) := diff_strs ref read in
       print_fn (ljust (hex ref) 20 ++ " " ++ ljust (hex read) 20 ++ " "
                 ++ ljust diff_str1 20 ++ " " ++ ljust diff_str2 20)%string)
    tt.

(** [OpenOCDProgrammer.option_bytes_validate].  [int(ob_length / 4)] is
    the floor of the quotient for every length a buffer can have. *)
Definition option_bytes_validate (file_path : string) : M bool :=
  call RqStart ;;
  call (RqReset STM32WB55.Init) ;;
  ob_values <- gen_values_export file_path ;;
  let ob_reference := reference ob_values in
  let ob_compare_mask := compare_mask ob_values in
  let ob_length := List.length ob_reference in
  let ob_words := (ob_length / 4)%nat in
  ob_read <- for_each (seq 0 ob_words)
    (fun i ob_read =>
       let addr := STM32WB55.OPTION_BYTE_BASE stm32 + Z.of_nat i * 4 in
       value <- call (RqRead32 addr) ;;
       word <- lift (to_bytes value 4) ;;
       ret (ob_read ++ word))
    [] ;;
  ob_compare <- lift (for_each_r (seq 0 ob_length)
    (fun i ob_compare =>
       bindR (index ob_read i) (fun x =>
       bindR (index ob_compare_mask i) (fun m =>
       bindR (bytes1 (Z.land (byte_to_Z x) (byte_to_Z m))) (fun b =>
       Ok (ob_compare ++ b)))))
    []) ;;
  return_code <-
    (if bytes_eqb ob_reference ob_compare
     then log LInfo "Option Bytes are valid" ;; ret false
     else log LError "Option Bytes are invalid" ;;
          _ob_print_diff_table ob_reference ob_compare (log LError) ;;
          ret true) ;;
  call (RqReset STM32WB55.Run) ;;
  call RqStop ;;
  ret return_code.

(** [OpenOCDProgrammer._unpack_u32]. *)
Definition _unpack_u32 (data : bytes) (offset : nat) : Z :=
  from_bytes_little (slice data offset (offset + 4)).

(** The body of the patch loop of [option_bytes_set]. *)
Definition option_bytes_set_body (ob_values : OptionBytesValues)
    (i : nat) (ob_need_to_apply : bool) : M bool :=
  let device_addr := STM32WB55.OPTION_BYTE_BASE stm32 + Z.of_nat i * 8 in
  device_value <- read_32 device_addr ;;
  let ob_write_mask := _unpack_u32 (write_mask ob_values) (i * 8) in
  let ob_compare_mask := _unpack_u32 (compare_mask ob_values) (i * 8) in
  let ob_value_ref := _unpack_u32 (reference ob_values) (i * 8) in
  let ob_value_masked := Z.land device_value ob_compare_mask in
  let need_patch :=
    negb (Z.land (Z.lxor ob_value_masked ob_value_ref) ob_write_mask =? 0) in
  if need_patch then
    log LInfo (msg_need_to_patch device_addr ob_value_masked ob_value_ref i) ;;
    device_reg_addr <- option_bytes_id_to_address i ;;
    let ob_value := Z.land device_value (Z.lnot ob_write_mask) in
    let ob_value := Z.lor ob_value (Z.land ob_value_ref ob_write_mask) in
    log LInfo (msg_writing ob_value device_reg_addr) ;;
    write_32 device_reg_addr ob_value ;;
    ret true
  else ret ob_need_to_apply.

(** [OpenOCDProgrammer.option_bytes_set].  [int(ob_length / 8)] is the
    floor of the quotient for every length a buffer can have. *)
Definition option_bytes_set (file_path : string) : M bool :=
  log LInfo "Setting Option Bytes" ;;
  call RqStart ;;
  call (RqReset STM32WB55.Init) ;;
  ob_values <- gen_values_export file_path ;;
  let ob_length := List.length (reference ob_values) in
  let ob_dwords := (ob_length / 8)%nat in
  call RqClearFlashErrors ;;
  call RqFlashUnlock ;;
  call RqOptionBytesUnlock ;;
  ob_need_to_apply <-
    for_each (seq 0 ob_dwords) (option_bytes_set_body ob_values) false ;;
  (if ob_need_to_apply : bool
   then call RqOptionBytesApply ;; ret tt
   else log LInfo "Option Bytes are already correct") ;;
  call RqOptionBytesLoad ;;
  call (RqReset STM32WB55.Run) ;;
  call RqStop ;;
  ret true.

(** [OpenOCDProgrammer.otp_write]. *)
Definition otp_write (address : Z) (data : bytes) : M bool :=
  call RqStart ;;
  reset Programmer.Stop ;;
  call RqClearFlashErrors ;;
  r1 <- send_tcl ("mdw " ++ str_int address ++ " 2")%string ;;
  s1 <- lift (as_str r1) ;;
  log LInfo (strip s1) ;;
  r2 <- send_tcl ("mdw " ++ str_int (address + 8) ++ " 2")%string ;;
  s2 <- lift (as_str r2) ;;
  log LInfo (strip s2) ;;
  call (RqWriteFlash address 0x12345678 0x9ABCDEF1) ;;
  call (RqWriteFlash (address + 8) 0x9ABCDEF1 0x12345678) ;;
  r3 <- send_tcl ("mdw " ++ str_int address ++ " 2")%string ;;
  s3 <- lift (as_str r3) ;;
  log LInfo (strip s3) ;;
  r4 <- send_tcl ("mdw " ++ str_int (address + 8) ++ " 2")%string ;;
  s4 <- lift (as_str r4) ;;
  log LInfo (strip s4) ;;
  call (RqReset STM32WB55.Run) ;;
  call RqStop ;;
  ret true.

End OpenOCDProgrammer.

(** ** Reading a trace *)

(** The requests issued, in order, whatever their outcome. *)
Definition requests (t : trace) : list request :=
  flat_map (fun e => match e with Call rq _ => [rq] | Log _ _ => [] end) t.

(** The register reads that returned an int: address and value. *)
Definition reads (t : trace) : list (Z * Z) :=
  flat_map (fun e => match e with
                     | Call (RqRead32 a) (Returns (PyInt v)) => [(a, v)]
                     | _ => []
                     end) t.

(** The register writes issued: address and value. *)
Definition writes (t : trace) : list (Z * Z) :=
  flat_map (fun e => match e with
                     | Call (RqWrite32 a v) _ => [(a, v)]
                     | _ => []
                     end) t.

(** Whether a register write is issued before the next register read. *)
Fixpoint write_follows (t : trace) : bool :=
  match t with
  | [] => false
  | Call (RqRead32 _) _ :: _ => false
  | Call (RqWrite32 _ _) _ :: _ => true
  | _ :: t' => write_follows t'
  end.

(** For every register read that returned an int, in order: the address,
    the value, and whether a patch was written before the next read. *)
Fixpoint decisions (t : trace) : list (Z * Z * bool) :=
  match t with
  | [] => []
  | Call (RqRead32 a) (Returns (PyInt v)) :: t' =>
      (a, v, write_follows t') :: decisions t'
  | _ :: t' => decisions t'
  end.

(** The session was closed: a stop was issued and returned. *)
Definition stop_completed (t : trace) : Prop :=
  exists v, In (Call RqStop (Returns v)) t.

(** ** The patch rule in the words of the specification *)

Definition needsPatch (live compareMask reference writeMask : Z) : bool :=
  negb (Z.land (Z.lxor (Z.land live compareMask) reference) writeMask =? 0).

Definition newValue (live reference writeMask : Z) : Z :=
  Z.lor (Z.land live (Z.lnot writeMask)) (Z.land reference writeMask).

(** The same merge with a 32-bit complement. *)
Definition newValue32 (live reference writeMask : Z) : Z :=
  Z.lor (Z.land live (Z.lxor writeMask 0xFFFFFFFF)) (Z.land reference writeMask).

(** The three little-endian words of dword [i] of an image. *)
Definition writeMask_ (img : OptionBytesValues) (i : nat) : Z :=
  _unpack_u32 (write_mask img) (i * 8).
Definition compareMask_ (img : OptionBytesValues) (i : nat) : Z :=
  _unpack_u32 (compare_mask img) (i * 8).
Definition reference_ (img : OptionBytesValues) (i : nat) : Z :=
  _unpack_u32 (reference img) (i * 8).

(** What a device shows on a later run when the patches of a run took
    effect: a patched word reads back as written, the others as before. *)
Definition settled (img : OptionBytesValues) (lives : list Z) : list Z :=
  map (fun p : nat * Z =>
         let (i, live) := p in
         if needsPatch live (compareMask_ img i) (reference_ img i) (writeMask_ img i)
         then newValue live (reference_ img i) (writeMask_ img i)
         else live)
      (combine (seq 0 (List.length lives)) lives).

(** ** Concrete devices and images *)

(** A device that answers every request and reads zero everywhere. *)
Definition quiet : probe :=
  fun _ rq =>
    match rq with
    | RqRead32 _ => Returns (PyInt 0)
    | RqSendTcl _ => Returns (PyStr "")
    | _ => Returns PyNone
    end.

(** A device whose register reads fail. *)
Definition deaf : probe :=
  fun _ rq =>
    match rq with
    | RqRead32 _ => Raises
    | RqSendTcl _ => Returns (PyStr "")
    | _ => Returns PyNone
    end.

(** A device whose memory dump command fails. *)
Definition mute : probe :=
  fun _ rq =>
    match rq with
    | RqSendTcl _ => Raises
    | _ => Returns PyNone
    end.

(** The register map of the examples: option bytes at 0x1FFF8000, dword
    [i] patched through the register at 0x58004020 + 4 i. *)
Definition wb55 : STM32WB55.t :=
  {| STM32WB55.OPTION_BYTE_BASE := 0x1FFF8000;
     STM32WB55.option_bytes_id_to_address :=
       fun i => Some (0x58004020 + 4 * Z.of_nat i) |}.

(** The value last written to register [a] in the session, if any. *)
Definition last_write (h : trace) (a : Z) : option Z :=
  fold_left (fun acc e =>
               match e with
               | Call (RqWrite32 a' v) (Returns _) => if a' =? a then Some v else acc
               | _ => acc
               end) h None.

(** A device on which a patch takes effect: dword [i] of the option bytes
    reads as the last value written to its register, and as [init]
    before any write. *)
Definition latching (init : Z) : probe :=
  fun h rq =>
    match rq with
    | RqRead32 a =>
        let i := (a - 0x1FFF8000) / 8 in
        match last_write h (0x58004020 + 4 * i) with
        | Some v => Returns (PyInt v)
        | None => Returns (PyInt init)
        end
    | RqSendTcl _ => Returns (PyStr "")
    | _ => Returns PyNone
    end.

(** One dword: reference 0xAA in the first byte, the high nibble compared
    and writable. *)
Definition image_nibble : OptionBytesValues :=
  {| reference := [xaa; x00; x00; x00; x00; x00; x00; x00];
     compare_mask := [xf0; x00; x00; x00; x00; x00; x00; x00];
     write_mask := [xf0; x00; x00; x00; x00; x00; x00; x00] |}.

(** One dword whose reference is already masked by the compare mask. *)
Definition image_masked : OptionBytesValues :=
  {| reference := [xa0; x00; x00; x00; x00; x00; x00; x00];
     compare_mask := [xf0; x00; x00; x00; x00; x00; x00; x00];
     write_mask := [xf0; x00; x00; x00; x00; x00; x00; x00] |}.

(** One dword with a writable bit that is not compared. *)
Definition image_uncompared : OptionBytesValues :=
  {| reference := [x01; x00; x00; x00; x00; x00; x00; x00];
     compare_mask := [x00; x00; x00; x00; x00; x00; x00; x00];
     write_mask := [x01; x00; x00; x00; x00; x00; x00; x00] |}.

(** One all-zero dword: what [quiet] holds. *)
Definition image_zero : OptionBytesValues :=
  {| reference := [x00; x00; x00; x00; x00; x00; x00; x00];
     compare_mask := [xff; xff; xff; xff; xff; xff; xff; xff];
     write_mask := [xff; xff; xff; xff; x00; x00; x00; x00] |}.

Definition only (img : OptionBytesValues) : string -> option OptionBytesValues :=
  fun _ => Some img.

Definition no_file : string -> option OptionBytesValues := fun _ => None.

(** Classes of events. *)
Definition is_stop (e : event) : bool :=
  match e with Call RqStop (Returns _) => true | _ => false end.

(** The events a loop over registers may add: logs, reads and writes. *)
Definition loop_event (e : event) : bool :=
  match e with
  | Log _ _ | Call (RqRead32 _) _ | Call (RqWrite32 _ _) _ => true
  | _ => false
  end.

Definition is_log (e : event) : bool :=
  match e with Log _ _ => true | Call _ _ => false end.

(** Events that touch no register. *)
Definition still_event (e : event) : bool :=
  match e with
  | Call (RqRead32 _) _ | Call (RqWrite32 _ _) _ => false
  | _ => true
  end.

(** Each request of [rqs] was issued and returned, in order, and nothing
    else happened. *)
Definition returned (rqs : list request) (t : trace) : Prop :=
  Forall2 (fun rq e => exists v, e = Call rq (Returns v)) rqs t.

(** What one round of the patch loop adds when it completes: the read of
    dword [i] giving [live], and, if a patch is needed, the two log lines
    and the write, which returned [wr]. *)
Definition iteration_events (stm32 : STM32WB55.t) (img : OptionBytesValues)
    (i : nat) (live : Z) (wr : pyvalue) : trace :=
  let device_addr := STM32WB55.OPTION_BYTE_BASE stm32 + Z.of_nat i * 8 in
  Call (RqRead32 device_addr) (Returns (PyInt live)) ::
  if needsPatch live (compareMask_ img i) (reference_ img i) (writeMask_ img i)
  then match STM32WB55.option_bytes_id_to_address stm32 i with
       | Some a =>
           let v := newValue live (reference_ img i) (writeMask_ img i) in
           [Log LInfo (msg_need_to_patch device_addr
                         (Z.land live (compareMask_ img i)) (reference_ img i) i);
            Log LInfo (msg_writing v a);
            Call (RqWrite32 a v) (Returns wr)]
       | None => []
       end
  else [].

(** The rounds of the patch loop over the dwords [a, a + length obs). *)
Definition loop_events (stm32 : STM32WB55.t) (img : OptionBytesValues)
    (a : nat) (obs : list (Z * pyvalue)) : trace :=
  flat_map (fun p : nat * (Z * pyvalue) =>
              iteration_events stm32 img (fst p) (fst (snd p)) (snd (snd p)))
           (combine (seq a (List.length obs)) obs).

(** Whether some dword among [a, a + length lives) needs a patch. *)
Definition any_patch (img : OptionBytesValues) (a : nat) (lives : list Z) : bool :=
  existsb (fun p : nat * Z =>
             needsPatch (snd p) (compareMask_ img (fst p)) (reference_ img (fst p))
                        (writeMask_ img (fst p)))
          (combine (seq a (List.length lives)) lives).

(** ** Shapes of runs *)

(** Every dword that needs a patch has a register. *)
Definition patches_mapped (stm32 : STM32WB55.t) (img : OptionBytesValues)
    (a : nat) (lives : list Z) : Prop :=
  Forall (fun p : nat * Z =>
            needsPatch (snd p) (compareMask_ img (fst p)) (reference_ img (fst p))
                       (writeMask_ img (fst p)) = true ->
            STM32WB55.option_bytes_id_to_address stm32 (fst p) <> None)
         (combine (seq a (List.length lives)) lives).

(** The requests before the patch loop, and those that close the run. *)
Definition set_prologue : list request :=
  [RqStart; RqReset STM32WB55.Init; RqClearFlashErrors; RqFlashUnlock;
   RqOptionBytesUnlock].

Definition set_epilogue : list request :=
  [RqOptionBytesLoad; RqReset STM32WB55.Run; RqStop].

Definition msg_already_correct : string := "Option Bytes are already correct".

(** The requests a run follows: a script, of which an interrupted run
    shows a prefix, then requests of a given class. *)
Inductive follows (tail : request -> Prop) : list request -> list request -> Prop :=
| follows_cut : forall script, follows tail script []
| follows_next : forall rq script l,
    follows tail script l -> follows tail (rq :: script) (rq :: l)
| follows_tail : forall l, Forall tail l -> follows tail [] l.

(** The requests issued once the option bytes are unlocked. *)
Definition after_unlock (rq : request) : Prop :=
  match rq with
  | RqRead32 _ | RqWrite32 _ _ | RqOptionBytesApply | RqOptionBytesLoad
  | RqReset STM32WB55.Run | RqStop => True
  | _ => False
  end.

(** The loop touches registers only. *)
Definition register_request (rq : request) : Prop :=
  match rq with
  | RqRead32 _ | RqWrite32 _ _ => True
  | _ => False
  end.

(** [x & m] on bytes. *)
Definition byte_and (x m : byte) : byte :=
  match Byte.of_N (N.land (Byte.to_N x) (Byte.to_N m)) with
  | Some b => b
  | None => x00
  end.

(** The body of the masking loop. *)
Definition mask_body (ob_read ob_compare_mask : bytes) (i : nat)
    (ob_compare : bytes) : result bytes :=
  bindR (index ob_read i) (fun x =>
  bindR (index ob_compare_mask i) (fun m =>
  bindR (bytes1 (Z.land (byte_to_Z x) (byte_to_Z m))) (fun b =>
  Ok (ob_compare ++ b)))).

(** A probe that answers every request, and every register read with a
    32-bit word. *)
Definition answering (openocd : probe) : Prop :=
  forall h rq,
    match openocd h rq with
    | Raises => False
    | Returns v =>
        match rq with
        | RqRead32 _ => exists w, v = PyInt w /\ 0 <= w < 2 ^ 32
        | _ => True
        end
    end.

(** The value of a lowercase hex digit. *)
Definition hex_value (c : ascii) : N :=
  let n := N_of_ascii c in
  if (n <? 58)%N then (n - 48)%N else (n - 87)%N.

(** [n] blank pairs of a diff column. *)
Definition blanks (n : nat) : string := repeat_char "_"%char (2 * n).

(** ** Concrete runs *)

(** A device showing 0x5A, patched to the image [image_nibble]. *)
Definition nibble_trace : trace :=
  Eval vm_compute in
    fst (option_bytes_set (latching 0x5A) wb55 (only image_nibble) "ob.data" []).

(** The same device, first against [image_masked], then once more. *)
Definition masked_first : trace :=
  Eval vm_compute in
    fst (option_bytes_set (latching 0x5A) wb55 (only image_masked) "ob.data" []).

Definition masked_second : trace :=
  Eval vm_compute in
    fst (option_bytes_set (latching 0x5A) wb55 (only image_masked) "ob.data"
           masked_first).

(** A device showing 0, twice against [image_uncompared]. *)
Definition uncompared_first : trace :=
  Eval vm_compute in
    fst (option_bytes_set (latching 0) wb55 (only image_uncompared) "ob.data" []).

Definition uncompared_second : trace :=
  Eval vm_compute in
    fst (option_bytes_set (latching 0) wb55 (only image_uncompared) "ob.data"
           uncompared_first).

(** Validation of a blank device against [image_zero] and [image_nibble]. *)
Definition zero_validation : trace :=
  Eval vm_compute in
    fst (option_bytes_validate quiet wb55 (only image_zero) "ob.data" []).

Definition nibble_validation : trace :=
  Eval vm_compute in
    fst (option_bytes_validate quiet wb55 (only image_nibble) "ob.data" []).

(** ** More readings of a trace, and the scripts of the short operations *)

(** The lines logged, in order. *)
Definition logs (t : trace) : list (level * string) :=
  flat_map (fun e => match e with Log l m => [(l, m)] | Call _ _ => [] end) t.

(** The texts that [send_tcl] calls returned, in order. *)
Definition tcl_replies (t : trace) : list string :=
  flat_map (fun e => match e with
                     | Call (RqSendTcl _) (Returns (PyStr s)) => [s]
                     | _ => []
                     end) t.

(** A stop was issued, whatever its outcome; the stop call itself raised. *)
Definition stop_call (e : event) : bool :=
  match e with Call RqStop _ => true | _ => false end.

Definition stop_raised (e : event) : bool :=
  match e with Call RqStop Raises => true | _ => false end.

(** No request at all. *)
Definition no_request (rq : request) : Prop := False.

(** The command [flash] sends to program a file. *)
Definition program_command (address : Z) (file_path : string) (verify : bool)
    : string :=
  ("program " ++ file_path ++ " 0x" ++ str_08x address
   ++ (if verify then " verify" else "") ++ " reset exit")%string.

Definition flash_script (address : Z) (file_path : string) (verify : bool)
    : list request :=
  [RqStart; RqSendTcl "init"; RqSendTcl (program_command address file_path verify);
   RqStop].

Definition otp_script (address : Z) : list request :=
  [RqStart; RqReset STM32WB55.Init; RqClearFlashErrors;
   RqSendTcl ("mdw " ++ str_int address ++ " 2");
   RqSendTcl ("mdw " ++ str_int (address + 8) ++ " 2");
   RqWriteFlash address 0x12345678 0x9ABCDEF1;
   RqWriteFlash (address + 8) 0x9ABCDEF1 0x12345678;
   RqSendTcl ("mdw " ++ str_int address ++ " 2");
   RqSendTcl ("mdw " ++ str_int (address + 8) ++ " 2");
   RqReset STM32WB55.Run; RqStop].

(** The requests [option_bytes_validate] issues once the target is halted. *)
Definition validate_request (rq : request) : Prop :=
  match rq with
  | RqRead32 _ | RqReset STM32WB55.Run | RqStop => True
  | _ => False
  end.

(** The diff columns, position by position: a blank pair where the bytes
    agree, each side's hex pair where they differ; a reference byte with no
    device byte shows its hex pair against nothing. *)
Fixpoint diff_columns_of (ref read : bytes) : string * string :=
  match ref with
  | [] => (EmptyString, EmptyString)
  | r :: ref' =>
      let (c1, c2) := diff_columns_of ref' (tl read) in
      match read with
      | d :: _ =>
          if Byte.eqb r d
          then (("__" ++ c1)%string, ("__" ++ c2)%string)
          else ((hex_byte r ++ c1)%string, (hex_byte d ++ c2)%string)
      | [] => ((hex_byte r ++ c1)%string, c2)
      end
  end.

(** The header and the rows of the diff table. *)
Definition table_header : string :=
  (ljust "Reference" 20 ++ " " ++ ljust "Device" 20 ++ " "
   ++ ljust "Diff Reference" 20 ++ " " ++ ljust "Diff Device" 20)%string.

Definition table_row (ob_reference ob_read : bytes) (i : nat) : string :=
  let ref := slice ob_reference i (i + 8) in
  let read := slice ob_read i (i + 8) in
  (ljust (hex ref) 20 ++ " " ++ ljust (hex read) 20 ++ " "
   ++ ljust (fst (diff_strs ref read)) 20 ++ " "
   ++ ljust (snd (diff_strs ref read)) 20)%string.

(** Two images with as many dwords and the same first word in every dword
    of the three buffers. *)
Definition same_first_words (img1 img2 : OptionBytesValues) : Prop :=
  (List.length (reference img1) / 8 = List.length (reference img2) / 8)%nat
  /\ forall i, (i < List.length (reference img1) / 8)%nat ->
       writeMask_ img1 i = writeMask_ img2 i
       /\ compareMask_ img1 i = compareMask_ img2 i
       /\ reference_ img1 i = reference_ img2 i.

(** The patches of a run, from the values read: for each dword that needs
    one, the register and the merged value. *)
Definition patch_list (stm32 : STM32WB55.t) (img : OptionBytesValues)
    (lives : list Z) : list (Z * Z) :=
  flat_map (fun p : nat * Z =>
              if needsPatch (snd p) (compareMask_ img (fst p))
                            (reference_ img (fst p)) (writeMask_ img (fst p))
              then match STM32WB55.option_bytes_id_to_address stm32 (fst p) with
                   | Some a => [(a, newValue (snd p) (reference_ img (fst p))
                                             (writeMask_ img (fst p)))]
                   | None => []
                   end
              else [])
           (combine (seq 0 (List.length lives)) lives).

(** ** The constructor *)

(** A [dict] with [str] keys, in insertion order. *)
Definition dict := list (string * pyvalue).

(** [d[k] = v]. *)
Fixpoint dict_set (d : dict) (k : string) (v : pyvalue) : dict :=
  match d with
  | [] => [(k, v)]
  | (k', v') :: d' =>
      if String.eqb k' k then (k, v) :: d' else (k', v') :: dict_set d' k v
  end.

(** [d.get(k)]. *)
Fixpoint dict_get (d : dict) (k : string) : option pyvalue :=
  match d with
  | [] => None
  | (k', v') :: d' => if String.eqb k' k then Some v' else dict_get d' k
  end.

(** [needle in s] on text. *)
Fixpoint contains (needle s : string) : bool :=
  String.prefix needle s
  || match s with
     | EmptyString => false
     | String _ s' => contains needle s'
     end.

(** The [config] that [OpenOCDProgrammer.__init__] hands to [OpenOCD]. *)
Definition __init__ (interface : string) (port_base : option Z)
    (serial : option string) : dict :=
  let config := [] in
  let config := dict_set config "interface" (PyStr interface) in
  let config := dict_set config "target" (PyStr "target/stm32wbx.cfg") in
  let config :=
    match serial with
    | Some serial =>
        if String.eqb interface "interface/cmsis-dap.cfg"
        then dict_set config "serial" (PyStr ("cmsis_dap_serial " ++ serial))
        else if contains "stlink" interface
        then dict_set config "serial" (PyStr ("stlink_serial " ++ serial))
        else config
    | None => config
    end in
  let config :=
    match port_base with
    | Some port_base => dict_set config "port_base" (PyInt port_base)
    | None => config
    end in
  config.

(** ** More concrete devices, images and runs *)

(** A device that answers like [quiet] but whose session cannot be
    stopped. *)
Definition stuck : probe :=
  fun h rq =>
    match rq with
    | RqStop => Raises
    | _ => quiet h rq
    end.

(** A memory dump as the channel hands it back: a no-break space, blanks
    around the text and a line feed at the end. *)
Definition dump_reply : string :=
  String (ascii_of_nat 0xC2) (String (ascii_of_nat 0xA0)
    (" 0x1fff7000: ffffffff ffffffff " ++ String (ascii_of_nat 10) EmptyString)).

(** A device that answers like [quiet] and every command with
    [dump_reply]. *)
Definition chatty : probe :=
  fun h rq =>
    match rq with
    | RqSendTcl _ => Returns (PyStr dump_reply)
    | _ => quiet h rq
    end.

(** A register map that knows no option byte register. *)
Definition unmapped : STM32WB55.t :=
  {| STM32WB55.OPTION_BYTE_BASE := 0x1FFF8000;
     STM32WB55.option_bytes_id_to_address := fun _ => None |}.

(** [image_nibble] with other bytes in the second word of its dword. *)
Definition image_nibble_tail : OptionBytesValues :=
  {| reference := [xaa; x00; x00; x00; x12; x34; x56; x78];
     compare_mask := [xf0; x00; x00; x00; xff; xff; xff; xff];
     write_mask := [xf0; x00; x00; x00; x0f; x00; x00; x00] |}.

(** Two dwords, with a write mask that stops after the first dword and a
    compare mask that stops after its first word. *)
Definition image_two_dwords : OptionBytesValues :=
  {| reference := [xaa; x00; x00; x00; x00; x00; x00; x00;
                   x55; x00; x00; x00; x00; x00; x00; x00];
     compare_mask := [xf0; x00; x00; x00];
     write_mask := [xf0; x00; x00; x00; x00; x00; x00; x00] |}.

(** One dword whose compare mask stops after the first word. *)
Definition image_short_mask : OptionBytesValues :=
  {| reference := [x00; x00; x00; x00; x00; x00; x00; x00];
     compare_mask := [xff; xff; xff; xff];
     write_mask := [xff; xff; xff; xff; x00; x00; x00; x00] |}.

Definition otp_trace : trace :=
  Eval vm_compute in fst (otp_write chatty 0x1FFF7000 [] []).

Definition zero_set : trace :=
  Eval vm_compute in
    fst (option_bytes_set quiet wb55 (only image_zero) "ob.data" []).

Definition unmapped_trace : trace :=
  Eval vm_compute in
    fst (option_bytes_set (latching 0x5A) unmapped (only image_nibble) "ob.data" []).

Definition stuck_validation : trace :=
  Eval vm_compute in
    fst (option_bytes_validate stuck wb55 (only image_zero) "ob.data" []).

Definition mute_validation : trace :=
  Eval vm_compute in
    fst (option_bytes_validate mute wb55 (only image_zero) "ob.data" []).

Definition two_dwords_set : trace :=
  Eval vm_compute in
    fst (option_bytes_set quiet wb55 (only image_two_dwords) "ob.data" []).

Definition short_mask_validation : trace :=
  Eval vm_compute in
    fst (option_bytes_validate quiet wb55 (only image_short_mask) "ob.data" []).

(** * Properties *)

(** ** The Python helpers on examples *)

Example str_08X_ex : str_08X 0x1FFF8020 = "1FFF8020" /\ str_08X 255 = "000000FF"
  /\ str_08X (-1) = "-0000001" /\ str_int 536838144 = "536838144" /\ str_int 0 = "0".
Proof. repeat split; reflexivity. Qed.

Example hex_ex : hex [x00; xab; xff] = "00abff".
Proof. reflexivity. Qed.

(** [strip] removes the blanks of every encoded length at both ends and
    keeps those inside: U+00A0, U+3000 and U+2028 here, next to the ASCII
    ones. *)
Example strip_ex :
  strip dump_reply = "0x1fff7000: ffffffff ffffffff"
  /\ strip (String (ascii_of_nat 0xE3) (String (ascii_of_nat 0x80)
              (String (ascii_of_nat 0x80)
                 ("a b" ++ String (ascii_of_nat 0xE2) (String (ascii_of_nat 0x80)
                              (String (ascii_of_nat 0xA8) EmptyString))))))
     = "a b"
  /\ strip (String (ascii_of_nat 0xC2) (String (ascii_of_nat 0xA9) "x")) 
     = String (ascii_of_nat 0xC2) (String (ascii_of_nat 0xA9) "x")
  /\ strip "   " = "" /\ strip "" = "".
Proof. repeat split; reflexivity. Qed.

Example to_bytes_ex :
  to_bytes_little 0x12345678 4 = Ok [x78; x56; x34; x12]
  /\ to_bytes_little (2 ^ 32) 4 = Err OverflowError
  /\ from_bytes_little [x78; x56; x34; x12] = 0x12345678.
Proof. repeat split; reflexivity. Qed.

(** ** Running computations *)

Lemma bind_inv {A B} (m : M A) (f : A -> M B) h d r :
  bind m f h = (d, r) ->
  (exists e, m h = (d, Err e) /\ r = Err e) \/
  (exists d1 a d2, m h = (d1, Ok a) /\ f a (h ++ d1) = (d2, r) /\ d = d1 ++ d2).
Proof.
  unfold bind. destruct (m h) as [d1 [a | e]].
  - destruct (f a (h ++ d1)) as [d2 r2] eqn:Hf. intros [= <- <-].
    right. exists d1, a, d2. auto.
  - intros [= <- <-]. left. exists e. auto.
Qed.

Lemma bind_log_inv {B} lvl msg (f : unit -> M B) h d r :
  bind (log lvl msg) f h = (d, r) ->
  exists d2, f tt (h ++ [Log lvl msg]) = (d2, r) /\ d = Log lvl msg :: d2.
Proof.
  unfold bind, log. destruct (f tt (h ++ [Log lvl msg])) as [d2 r2] eqn:Hf.
  simpl. intros [= <- <-]. eauto.
Qed.

Lemma bind_lift_inv {A B} (x : result A) (f : A -> M B) h d r :
  bind (lift x) f h = (d, r) ->
  (exists e, x = Err e /\ d = [] /\ r = Err e) \/
  (exists a, x = Ok a /\ f a (h ++ []) = (d, r)).
Proof.
  unfold bind, lift. destruct x as [a | e].
  - destruct (f a (h ++ [])) as [d2 r2] eqn:Hf. simpl. intros [= <- <-].
    right. exists a. auto.
  - intros [= <- <-]. left. exists e. auto.
Qed.

Lemma bind_ret_inv {A B} (a : A) (f : A -> M B) h d r :
  bind (ret a) f h = (d, r) -> f a (h ++ []) = (d, r).
Proof.
  unfold bind, ret. destruct (f a (h ++ [])) as [d2 r2] eqn:Hf. simpl.
  intros [= <- <-]. auto.
Qed.

Lemma bind_raise_inv {A B} (e : exn) (f : A -> M B) h d r :
  bind (raise e) f h = (d, r) -> d = [] /\ r = Err e.
Proof. unfold bind, raise. intros [= <- <-]. auto. Qed.

Lemma ret_inv {A} (a : A) h d r : ret a h = (d, r) -> d = [] /\ r = Ok a.
Proof. unfold ret. intros [= <- <-]. auto. Qed.

Lemma log_inv lvl msg h d r :
  log lvl msg h = (d, r) -> d = [Log lvl msg] /\ r = Ok tt.
Proof. unfold log. intros [= <- <-]. auto. Qed.

Section Calls.

Variable openocd : probe.

Lemma call_inv rq h d r :
  call openocd rq h = (d, r) ->
  (openocd h rq = Raises /\ d = [Call rq Raises] /\ r = Err ProbeError) \/
  (exists v, openocd h rq = Returns v /\ d = [Call rq (Returns v)] /\ r = Ok v).
Proof.
  unfold call. destruct (openocd h rq) as [| v]; intros [= <- <-]; eauto.
Qed.

Lemma bind_call_inv {B} rq (f : pyvalue -> M B) h d r :
  bind (call openocd rq) f h = (d, r) ->
  (openocd h rq = Raises /\ d = [Call rq Raises] /\ r = Err ProbeError) \/
  (exists v d2, openocd h rq = Returns v
                /\ f v (h ++ [Call rq (Returns v)]) = (d2, r)
                /\ d = Call rq (Returns v) :: d2).
Proof.
  intros H. apply bind_inv in H.
  destruct H as [(e & Hc & ->) | (d1 & v & d2 & Hc & Hf & ->)];
    apply call_inv in Hc;
    destruct Hc as [(Ho & Hd & Hr) | (v' & Ho & Hd & Hr)]; try discriminate.
  - left. inversion Hr. auto.
  - right. inversion Hr; subst. exists v', d2. auto.
Qed.

Lemma bind_read_32_inv {B} addr (f : Z -> M B) h d r :
  bind (read_32 openocd addr) f h = (d, r) ->
  (openocd h (RqRead32 addr) = Raises
   /\ d = [Call (RqRead32 addr) Raises] /\ r = Err ProbeError) \/
  (exists v, openocd h (RqRead32 addr) = Returns v /\ as_int v = Err TypeError
             /\ d = [Call (RqRead32 addr) (Returns v)] /\ r = Err TypeError) \/
  (exists live d2, openocd h (RqRead32 addr) = Returns (PyInt live)
             /\ f live (h ++ [Call (RqRead32 addr) (Returns (PyInt live))]) = (d2, r)
             /\ d = Call (RqRead32 addr) (Returns (PyInt live)) :: d2).
Proof.
  intros H. apply bind_inv in H. unfold read_32 in H.
  destruct H as [(e & Hc & ->) | (d1 & v & d2 & Hc & Hf & ->)].
  - apply bind_call_inv in Hc.
    destruct Hc as [(Ho & Hd & Hr) | (v & d2 & Ho & Hl & Hd)].
    + left. inversion Hr. auto.
    + right; left. unfold lift in Hl. inversion Hl; subst.
      exists v. destruct v; simpl in *; try discriminate;
        match goal with E : Err _ = Err _ |- _ => inversion E; subst end; auto.
  - apply bind_call_inv in Hc.
    destruct Hc as [(Ho & Hd & Hr) | (v' & d3 & Ho & Hl & Hd)]; [discriminate |].
    right; right. unfold lift in Hl. inversion Hl; subst.
    destruct v'; simpl in *; try discriminate.
    match goal with E : Ok _ = Ok _ |- _ => inversion E; subst end.
    exists v, d2. simpl in Hf. auto.
Qed.

End Calls.

(** Take one statement off the computation in [H]. *)
Ltac step H :=
  let v := fresh "v" in
  let d := fresh "d" in
  let e := fresh "e" in
  let Ho := fresh "Ho" in
  let Hx := fresh "Hx" in
  let Hd := fresh "Hd" in
  let Hr := fresh "Hr" in
  lazymatch type of H with
  | bind (call _ _) _ _ = _ =>
      apply bind_call_inv in H;
      destruct H as [(Ho & Hd & Hr) | (v & d & Ho & H & Hd)]
  | bind (read_32 _ _) _ _ = _ =>
      apply bind_read_32_inv in H;
      destruct H as [(Ho & Hd & Hr) | [(v & Ho & Hx & Hd & Hr) | (v & d & Ho & H & Hd)]]
  | bind (write_32 _ _ _) _ _ = _ =>
      unfold write_32 in H; apply bind_call_inv in H;
      destruct H as [(Ho & Hd & Hr) | (v & d & Ho & H & Hd)]
  | bind (send_tcl _ _) _ _ = _ =>
      unfold send_tcl in H; apply bind_call_inv in H;
      destruct H as [(Ho & Hd & Hr) | (v & d & Ho & H & Hd)]
  | bind (log _ _) _ _ = _ =>
      apply bind_log_inv in H; destruct H as (d & H & Hd)
  | bind (lift _) _ _ = _ =>
      apply bind_lift_inv in H;
      destruct H as [(e & Hx & Hd & Hr) | (v & Hx & H)]
  | bind (ret _) _ _ = _ => apply bind_ret_inv in H
  | bind (raise _) _ _ = _ => apply bind_raise_inv in H; destruct H as [Hd Hr]
  | ret _ _ = _ => apply ret_inv in H; destruct H as [Hd Hr]
  | log _ _ _ = _ => apply log_inv in H; destruct H as [Hd Hr]
  end;
  try discriminate;
  repeat match goal with
         | E : Ok _ = Ok _ |- _ => injection E as E
         | E : Err _ = Err _ |- _ => injection E as E
         end;
  subst.

Ltac steps H := repeat step H.

(** ** Loops *)

(** A property of traces that holds of the empty trace, is kept by
    concatenation and holds of what any round adds, holds of what the
    loop adds, however the loop ends. *)
Lemma for_each_inv {S} (Q : trace -> Prop) (l : list nat) (body : nat -> S -> M S) :
  Q [] ->
  (forall d1 d2, Q d1 -> Q d2 -> Q (d1 ++ d2)) ->
  (forall i s h d r, In i l -> body i s h = (d, r) -> Q d) ->
  forall s h d r, for_each l body s h = (d, r) -> Q d.
Proof.
  intros Hnil Happ. induction l as [| i l IH]; intros Hbody s h d r H.
  - simpl in H. apply ret_inv in H. destruct H as [-> _]. exact Hnil.
  - simpl in H. apply bind_inv in H.
    destruct H as [(e & Hb & ->) | (d1 & s' & d2 & Hb & Hl & ->)].
    + eapply Hbody; [left; reflexivity | exact Hb].
    + apply Happ.
      * eapply Hbody; [left; reflexivity | exact Hb].
      * eapply IH; [| exact Hl]. intros. eapply Hbody; [right |]; eauto.
Qed.

Lemma for_each_events {S} (P : event -> bool) (l : list nat) (body : nat -> S -> M S) :
  (forall i s h d r, In i l -> body i s h = (d, r) -> forallb P d = true) ->
  forall s h d r, for_each l body s h = (d, r) -> forallb P d = true.
Proof.
  intros Hbody. apply (for_each_inv (fun d => forallb P d = true)); auto.
  intros d1 d2 H1 H2. rewrite forallb_app, H1, H2. reflexivity.
Qed.

(** ** Traces of known shape *)

Lemma requests_app t1 t2 : requests (t1 ++ t2) = requests t1 ++ requests t2.
Proof. apply flat_map_app. Qed.

Lemma reads_app t1 t2 : reads (t1 ++ t2) = reads t1 ++ reads t2.
Proof. apply flat_map_app. Qed.

Lemma writes_app t1 t2 : writes (t1 ++ t2) = writes t1 ++ writes t2.
Proof. apply flat_map_app. Qed.

Lemma still_reads t : forallb still_event t = true -> reads t = [].
Proof.
  induction t as [| e t IH]; simpl; [reflexivity |].
  intros H. apply andb_true_iff in H. destruct H as [He Ht].
  destruct e as [[] [| []] |]; simpl in *; auto; discriminate.
Qed.

Lemma still_writes t : forallb still_event t = true -> writes t = [].
Proof.
  induction t as [| e t IH]; simpl; [reflexivity |].
  intros H. apply andb_true_iff in H. destruct H as [He Ht].
  destruct e as [[] [| []] |]; simpl in *; auto; discriminate.
Qed.

Lemma still_decisions t t' :
  forallb still_event t = true -> decisions (t ++ t') = decisions t'.
Proof.
  induction t as [| e t IH]; simpl; [reflexivity |].
  intros H. apply andb_true_iff in H. destruct H as [He Ht].
  destruct e as [[] [| []] |]; simpl in *; auto; discriminate.
Qed.

Lemma loop_event_not_stop t : forallb loop_event t = true -> existsb is_stop t = false.
Proof.
  induction t as [| e t IH]; simpl; [reflexivity |].
  intros H. apply andb_true_iff in H. destruct H as [He Ht].
  rewrite (IH Ht). destruct e as [[] [| ?] |]; simpl in *; auto; discriminate.
Qed.

Lemma log_loop_event t : forallb is_log t = true -> forallb loop_event t = true.
Proof.
  induction t as [| e t IH]; simpl; [reflexivity |].
  intros H. apply andb_true_iff in H. destruct H as [He Ht].
  rewrite (IH Ht). destruct e; [discriminate | reflexivity].
Qed.

Lemma log_still_event t : forallb is_log t = true -> forallb still_event t = true.
Proof.
  induction t as [| e t IH]; simpl; [reflexivity |].
  intros H. apply andb_true_iff in H. destruct H as [He Ht].
  rewrite (IH Ht). destruct e; [discriminate | reflexivity].
Qed.

Lemma stop_completed_iff t : stop_completed t <-> existsb is_stop t = true.
Proof.
  unfold stop_completed. rewrite existsb_exists. split.
  - intros [v Hin]. exists (Call RqStop (Returns v)). auto.
  - intros [e [Hin He]]. destruct e as [[] [| v] |]; try discriminate.
    exists v. exact Hin.
Qed.

Lemma returned_requests rqs t : returned rqs t -> requests t = rqs.
Proof.
  induction 1 as [| rq e rqs t [v ->] _ IH]; simpl; [reflexivity |].
  f_equal. exact IH.
Qed.

(** ** The patch loop of [option_bytes_set] *)

Section Patching.

Variable openocd : probe.
Variable stm32 : STM32WB55.t.
Variable img : OptionBytesValues.

Let base := STM32WB55.OPTION_BYTE_BASE stm32.
Let body := option_bytes_set_body openocd stm32 img.

(** A round that completes adds exactly [iteration_events]. *)
Lemma set_body_ok i need h d need' :
  body i need h = (d, Ok need') ->
  exists live wr,
    d = iteration_events stm32 img i live wr
    /\ need' = (needsPatch live (compareMask_ img i) (reference_ img i)
                           (writeMask_ img i) || need)%bool
    /\ (needsPatch live (compareMask_ img i) (reference_ img i)
                   (writeMask_ img i) = true ->
        STM32WB55.option_bytes_id_to_address stm32 i <> None).
Proof.
  unfold body, option_bytes_set_body. intros H.
  step H. cbv zeta in H.
  unfold iteration_events, needsPatch, compareMask_, reference_, writeMask_.
  destruct (negb _) eqn:Hn in H.
  - step H. unfold option_bytes_id_to_address in H.
    destruct (STM32WB55.option_bytes_id_to_address stm32 i) as [a |] eqn:Ha.
    + step H. step H. step H. step H.
      exists v, v0. rewrite Hn.
      split; [reflexivity | split; [reflexivity | discriminate]].
    + step H.
  - step H. exists v, PyNone. rewrite Hn.
    split; [reflexivity | split; [reflexivity | discriminate]].
Qed.

(** However a round ends, it adds only logs, reads and writes. *)
Lemma set_body_events i need h d r :
  body i need h = (d, r) -> forallb loop_event d = true.
Proof.
  unfold body, option_bytes_set_body. intros H.
  step H; try reflexivity. cbv zeta in H.
  destruct (negb _) in H.
  - step H. unfold option_bytes_id_to_address in H.
    destruct (STM32WB55.option_bytes_id_to_address stm32 i) as [a |].
    + step H. step H. step H; try reflexivity. step H. reflexivity.
    + step H. reflexivity.
  - step H. reflexivity.
Qed.

(** However a round ends, a write it issued is the merge of the value it
    read, sent to the register of its dword. *)
Lemma set_body_writes i need h d r a v :
  body i need h = (d, r) ->
  In (a, v) (writes d) ->
  exists live,
    In (base + Z.of_nat i * 8, live) (reads d)
    /\ STM32WB55.option_bytes_id_to_address stm32 i = Some a
    /\ needsPatch live (compareMask_ img i) (reference_ img i) (writeMask_ img i) = true
    /\ v = newValue live (reference_ img i) (writeMask_ img i).
Proof.
  unfold body, option_bytes_set_body. intros H Hin.
  step H; try (destruct v0; simpl in Hin; contradiction);
    try (simpl in Hin; contradiction).
  cbv zeta in H.
  destruct (negb _) eqn:Hn in H.
  - step H. unfold option_bytes_id_to_address in H.
    destruct (STM32WB55.option_bytes_id_to_address stm32 i) as [a' |] eqn:Ha.
    + step H. step H.
      assert (Hw : (a, v) = (a', newValue v0 (reference_ img i) (writeMask_ img i))).
      { step H; [| step H]; simpl in Hin; destruct Hin as [Hin | []];
          symmetry; exact Hin. }
      injection Hw as -> ->. exists v0.
      split; [simpl; left; reflexivity |].
      split; [reflexivity |]. split; [exact Hn | reflexivity].
    + step H. simpl in Hin. contradiction.
  - step H. simpl in Hin. contradiction.
Qed.

(** A patch loop that completes adds exactly [loop_events]. *)
Lemma set_loop_ok n : forall a need h d need',
  for_each (seq a n) body need h = (d, Ok need') ->
  exists obs,
    List.length obs = n
    /\ d = loop_events stm32 img a obs
    /\ need' = (any_patch img a (map fst obs) || need)%bool
    /\ patches_mapped stm32 img a (map fst obs).
Proof.
  induction n as [| n IH]; intros a need h d need' H; simpl in H.
  - step H. exists []. repeat split. constructor.
  - apply bind_inv in H.
    destruct H as [(e & _ & He) | (d1 & s' & d2 & Hb & Hl & ->)]; [discriminate |].
    apply set_body_ok in Hb. destruct Hb as (live & wr & -> & -> & Hm).
    apply IH in Hl. destruct Hl as (obs & Hlen & -> & -> & Hpm).
    exists ((live, wr) :: obs). split; [simpl; congruence |].
    split; [reflexivity |]. split.
    + unfold any_patch. simpl. rewrite length_map.
      rewrite orb_assoc. f_equal. apply orb_comm.
    + unfold patches_mapped in *. simpl. constructor; [exact Hm | exact Hpm].
Qed.

(** ** What the rounds of a completed loop show *)

Lemma loop_events_cons a live wr obs :
  loop_events stm32 img a ((live, wr) :: obs)
  = iteration_events stm32 img a live wr ++ loop_events stm32 img (S a) obs.
Proof. reflexivity. Qed.

Lemma loop_events_loop a obs : forallb loop_event (loop_events stm32 img a obs) = true.
Proof.
  revert a. induction obs as [| [live wr] obs IH]; intros a; [reflexivity |].
  rewrite loop_events_cons, forallb_app, IH, andb_true_r.
  unfold iteration_events. simpl.
  destruct (needsPatch _ _ _ _); [| reflexivity].
  destruct (STM32WB55.option_bytes_id_to_address stm32 a); reflexivity.
Qed.

Lemma loop_events_reads a obs :
  reads (loop_events stm32 img a obs)
  = map (fun p : nat * Z => (base + Z.of_nat (fst p) * 8, snd p))
        (combine (seq a (List.length obs)) (map fst obs)).
Proof.
  revert a. induction obs as [| [live wr] obs IH]; intros a; [reflexivity |].
  rewrite loop_events_cons, reads_app, IH. simpl. f_equal.
  destruct (needsPatch _ _ _ _); [| reflexivity].
  destruct (STM32WB55.option_bytes_id_to_address stm32 a); reflexivity.
Qed.

Lemma loop_events_writes a obs :
  any_patch img a (map fst obs) = false ->
  writes (loop_events stm32 img a obs) = [].
Proof.
  revert a. induction obs as [| [live wr] obs IH]; intros a; [reflexivity |].
  intros H. unfold any_patch in H. simpl in H. apply orb_false_iff in H.
  destruct H as [Hn Hrest]. rewrite loop_events_cons, writes_app.
  rewrite IH by exact Hrest. unfold iteration_events. rewrite Hn. reflexivity.
Qed.

Lemma loop_events_write_follows a obs post :
  forallb still_event post = true ->
  write_follows post = false ->
  write_follows (loop_events stm32 img a obs ++ post) = false.
Proof.
  intros Hs Hp. destruct obs as [| [live wr] obs]; [exact Hp |]. reflexivity.
Qed.

Lemma loop_events_decisions a obs post :
  forallb still_event post = true ->
  patches_mapped stm32 img a (map fst obs) ->
  decisions (loop_events stm32 img a obs ++ post)
  = map (fun p : nat * Z =>
           (base + Z.of_nat (fst p) * 8, snd p,
            needsPatch (snd p) (compareMask_ img (fst p))
                       (reference_ img (fst p)) (writeMask_ img (fst p))))
        (combine (seq a (List.length obs)) (map fst obs)).
Proof.
  intros Hs. assert (Hwf : write_follows post = false).
  { clear -Hs. induction post as [| e post IH]; [reflexivity |].
    simpl in Hs. apply andb_true_iff in Hs. destruct Hs as [He Hs].
    destruct e as [[] ? |]; simpl in *; auto; discriminate. }
  revert a. induction obs as [| [live wr] obs IH]; intros a Hpm.
  - simpl. rewrite <- (app_nil_r post). apply still_decisions. exact Hs.
  - unfold patches_mapped in Hpm. simpl in Hpm.
    apply Forall_cons_iff in Hpm. destruct Hpm as [Hm Hpm].
    rewrite loop_events_cons. unfold iteration_events. simpl in Hm |- *.
    destruct (needsPatch _ _ _ _) eqn:Hn.
    + destruct (STM32WB55.option_bytes_id_to_address stm32 a) as [r |];
        [| exfalso; apply Hm; reflexivity].
      simpl. f_equal. apply IH. exact Hpm.
    + simpl. rewrite loop_events_write_follows by assumption.
      f_equal. apply IH. exact Hpm.
Qed.

End Patching.

(** ** Whole operations *)

Lemma bind_assoc_inv {A B C} (m : M A) (f : A -> M B) (g : B -> M C) h d r :
  bind (bind m f) g h = (d, r) ->
  bind m (fun a => bind (f a) g) h = (d, r).
Proof.
  unfold bind. destruct (m h) as [d1 [a | e]]; [| auto].
  destruct (f a (h ++ d1)) as [d2 [b | e]]; [| auto].
  rewrite <- app_assoc. destruct (g b (h ++ d1 ++ d2)) as [d3 r3].
  rewrite <- app_assoc. auto.
Qed.

Lemma requests_call rq rp t : requests (Call rq rp :: t) = rq :: requests t.
Proof. reflexivity. Qed.

Lemma requests_log l m t : requests (Log l m :: t) = requests t.
Proof. reflexivity. Qed.

Lemma stop_cons e t : existsb is_stop (e :: t) = (is_stop e || existsb is_stop t)%bool.
Proof. reflexivity. Qed.

(** Take one statement off the computation in [H], also across the loops,
    the branches and the image producer. *)
Ltac run1 H :=
  let Hl := fresh "Hloop" in
  let Hg := fresh "Hgen" in
  let d1 := fresh "dl" in
  let d2 := fresh "d" in
  let a := fresh "a" in
  let e := fresh "e" in
  let Hr := fresh "Hr" in
  let Hd := fresh "Hd" in
  lazymatch type of H with
  | bind (gen_values_export ?O ?p) _ _ = _ =>
      unfold gen_values_export in H; destruct (O p) eqn:Hg; step H
  | bind (for_each _ _ _) _ _ = _ =>
      apply bind_inv in H;
      destruct H as [(e & Hl & Hr) | (d1 & a & d2 & Hl & H & Hd)];
      try discriminate; subst
  | bind (bind _ _) _ _ = _ => apply bind_assoc_inv in H
  | bind (if ?b then _ else _) _ _ = _ =>
      let Hif := fresh "Hif" in destruct b eqn:Hif
  | bind (reset _ _ ) _ _ = _ => unfold reset in H
  | bind (_ob_print_diff_table _ _ _) _ _ = _ =>
      apply bind_inv in H;
      destruct H as [(e & Hl & Hr) | (d1 & a & d2 & Hl & H & Hd)];
      try discriminate; subst
  | _ => step H
  end.

Ltac run H := repeat run1 H.

Section Session.

Variable openocd : probe.
Variable stm32 : STM32WB55.t.
Variable OptionBytesData : string -> option OptionBytesValues.

Lemma set_loop_events img l need h d r :
  for_each l (option_bytes_set_body openocd stm32 img) need h = (d, r) ->
  forallb loop_event d = true.
Proof.
  apply for_each_events. intros i s h' d' r' _. apply set_body_events.
Qed.

Lemma validate_read_events l (acc : bytes) h d r :
  for_each l
    (fun i ob_read =>
       bind (call openocd (RqRead32 (STM32WB55.OPTION_BYTE_BASE stm32 + Z.of_nat i * 4)))
            (fun value => bind (lift (to_bytes value 4))
                               (fun word => ret (ob_read ++ word))))
    acc h = (d, r) ->
  forallb loop_event d = true.
Proof.
  apply for_each_events. intros i s h' d' r' _ H.
  step H; try reflexivity. step H; try reflexivity. step H. reflexivity.
Qed.

(** The diff table only logs, and always completes. *)
Lemma diff_table_events ob_reference ob_read lvl h d r :
  _ob_print_diff_table ob_reference ob_read (log lvl) h = (d, r) ->
  forallb is_log d = true /\ r = Ok tt.
Proof.
  unfold _ob_print_diff_table. intros H. step H.
  assert (Hgen : forall l (u : unit) h d r,
             for_each l
               (fun i (_ : unit) =>
                  let (diff_str1, diff_str2) :=
                    diff_strs (slice ob_reference i (i + 8)) (slice ob_read i (i + 8)) in
                  log lvl (ljust (hex (slice ob_reference i (i + 8))) 20 ++ " "
                           ++ ljust (hex (slice ob_read i (i + 8))) 20 ++ " "
                           ++ ljust diff_str1 20 ++ " " ++ ljust diff_str2 20)%string)
               u h = (d, r) ->
             forallb is_log d = true /\ r = Ok tt).
  { clear. induction l as [| i l IH]; intros u h d r H; simpl in H.
    - step H. destruct u. auto.
    - destruct (diff_strs _ _) as [s1 s2]. step H.
      apply IH in H. destruct H as [H1 H2]. simpl. auto. }
  apply Hgen in H. destruct H as [H1 H2]. simpl. auto.
Qed.

(** The loops of every operation add no stop. *)
Ltac loops_add_no_stop :=
  repeat match goal with
         | Hl : for_each _ _ _ _ = (_, _) |- _ =>
             first [ apply set_loop_events in Hl
                   | apply validate_read_events in Hl ];
             apply loop_event_not_stop in Hl
         | Hl : _ob_print_diff_table _ _ _ _ = (_, _) |- _ =>
             apply diff_table_events in Hl; destruct Hl as [Hl ?];
             apply log_loop_event, loop_event_not_stop in Hl
         end;
  try discriminate.

Ltac settle_stop :=
  loops_add_no_stop;
  repeat (rewrite ?stop_cons, ?existsb_app, ?orb_true_r; simpl);
  repeat match goal with Hl : existsb is_stop _ = false |- _ => rewrite Hl end;
  simpl;
  split;
  (let Hs := fresh "Hs" in
   intros Hs; try discriminate; try (destruct Hs; discriminate));
  eauto.

Lemma set_stop file_path h d r :
  option_bytes_set openocd stm32 OptionBytesData file_path h = (d, r) ->
  existsb is_stop d = true <-> exists b, r = Ok b.
Proof.
  unfold option_bytes_set. intros H. run H; settle_stop.
Qed.

Lemma validate_stop file_path h d r :
  option_bytes_validate openocd stm32 OptionBytesData file_path h = (d, r) ->
  existsb is_stop d = true <-> exists b, r = Ok b.
Proof.
  unfold option_bytes_validate. intros H. run H.
  all: settle_stop.
Qed.

Lemma otp_write_stop address data h d r :
  otp_write openocd address data h = (d, r) ->
  existsb is_stop d = true <-> exists b, r = Ok b.
Proof.
  unfold otp_write. intros H. run H; settle_stop.
Qed.

(** The loops issue no stop at all. *)
Lemma loop_event_no_stop_call t :
  forallb loop_event t = true ->
  existsb stop_call t = false /\ existsb stop_raised t = false.
Proof.
  induction t as [| e t IH]; simpl; [auto |].
  intros H. apply andb_true_iff in H. destruct H as [He Ht].
  destruct (IH Ht) as [-> ->].
  destruct e as [[] [| ?] |]; simpl in *; auto; discriminate.
Qed.

Ltac settle_stop_call :=
  repeat match goal with
         | Hl : for_each _ _ _ _ = (_, _) |- _ =>
             first [ apply set_loop_events in Hl
                   | apply validate_read_events in Hl ];
             apply loop_event_no_stop_call in Hl;
             let H1 := fresh "Hcall" in
             let H2 := fresh "Hraised" in
             destruct Hl as [H1 H2]
         | Hl : _ob_print_diff_table _ _ _ _ = (_, _) |- _ =>
             apply diff_table_events in Hl; destruct Hl as [Hl ?];
             apply log_loop_event, loop_event_no_stop_call in Hl;
             let H1 := fresh "Hcall" in
             let H2 := fresh "Hraised" in
             destruct Hl as [H1 H2]
         end;
  try discriminate;
  repeat (rewrite ?existsb_app; simpl);
  repeat match goal with
         | Hl : existsb stop_call _ = false |- _ => rewrite Hl
         | Hl : existsb stop_raised _ = false |- _ => rewrite Hl
         end;
  simpl;
  split; intros; try discriminate; eauto.

(** A stop is issued only by a run that gets to its last statement: the
    run returns, or the stop itself raises and ends the run. *)
Lemma set_stop_call file_path h d r :
  option_bytes_set openocd stm32 OptionBytesData file_path h = (d, r) ->
  (existsb stop_call d = true ->
   (exists b, r = Ok b) \/ existsb stop_raised d = true)
  /\ (existsb stop_raised d = true -> r = Err ProbeError).
Proof.
  unfold option_bytes_set. intros H. run H; settle_stop_call.
Qed.

Lemma validate_stop_call file_path h d r :
  option_bytes_validate openocd stm32 OptionBytesData file_path h = (d, r) ->
  (existsb stop_call d = true ->
   (exists b, r = Ok b) \/ existsb stop_raised d = true)
  /\ (existsb stop_raised d = true -> r = Err ProbeError).
Proof.
  unfold option_bytes_validate. intros H. run H.
  all: settle_stop_call.
Qed.

Lemma otp_write_stop_call address data h d r :
  otp_write openocd address data h = (d, r) ->
  (existsb stop_call d = true ->
   (exists b, r = Ok b) \/ existsb stop_raised d = true)
  /\ (existsb stop_raised d = true -> r = Err ProbeError).
Proof.
  unfold otp_write. intros H. run H; settle_stop_call.
Qed.

End Session.

(** ** Runs of [option_bytes_set] *)

Lemma loop_after_unlock t :
  forallb loop_event t = true -> Forall after_unlock (requests t).
Proof.
  induction t as [| e t IH]; simpl; [constructor |].
  intros H. apply andb_true_iff in H. destruct H as [He Ht].
  destruct e as [[] ? |]; simpl in *; try discriminate;
    try constructor; simpl; auto.
Qed.

Lemma writes_still e t : still_event e = true -> writes (e :: t) = writes t.
Proof. destruct e as [[] ? |]; simpl; intros; try discriminate; reflexivity. Qed.

Lemma reads_later x e t : In x (reads t) -> In x (reads (e :: t)).
Proof.
  intros H. change (e :: t) with ([e] ++ t). rewrite reads_app.
  apply in_or_app. right. exact H.
Qed.

Section SetRuns.

Variable openocd : probe.
Variable stm32 : STM32WB55.t.
Variable OptionBytesData : string -> option OptionBytesValues.

Let base := STM32WB55.OPTION_BYTE_BASE stm32.
Let set := option_bytes_set openocd stm32 OptionBytesData.

(** A run that returns: the prologue, the rounds of the loop, then the
    commit if some dword needed a patch, the reload and the teardown. *)
Lemma set_ok file_path h d b :
  set file_path h = (d, Ok b) ->
  exists img obs pre post,
    OptionBytesData file_path = Some img
    /\ List.length obs = (List.length (reference img) / 8)%nat
    /\ b = true
    /\ returned set_prologue pre
    /\ patches_mapped stm32 img 0 (map fst obs)
    /\ d = Log LInfo "Setting Option Bytes" :: pre
           ++ loop_events stm32 img 0 obs ++ post
    /\ (if any_patch img 0 (map fst obs)
        then returned (RqOptionBytesApply :: set_epilogue) post
        else exists fin, post = Log LInfo msg_already_correct :: fin
                         /\ returned set_epilogue fin).
Proof.
  unfold set, option_bytes_set. intros H. run H.
  - apply set_loop_ok in Hloop.
    destruct Hloop as (obs & Hlen & -> & Hany & Hpm).
    rewrite orb_false_r in Hany.
    exists o, obs,
      [Call RqStart (Returns v); Call (RqReset STM32WB55.Init) (Returns v0);
       Call RqClearFlashErrors (Returns v1); Call RqFlashUnlock (Returns v2);
       Call RqOptionBytesUnlock (Returns v3)],
      [Call RqOptionBytesApply (Returns v4); Call RqOptionBytesLoad (Returns v5);
       Call (RqReset STM32WB55.Run) (Returns v6); Call RqStop (Returns v7)].
    rewrite <- Hany.
    repeat split; auto; repeat constructor; eauto.
  - apply set_loop_ok in Hloop.
    destruct Hloop as (obs & Hlen & -> & Hany & Hpm).
    rewrite orb_false_r in Hany.
    exists o, obs,
      [Call RqStart (Returns v); Call (RqReset STM32WB55.Init) (Returns v0);
       Call RqClearFlashErrors (Returns v1); Call RqFlashUnlock (Returns v2);
       Call RqOptionBytesUnlock (Returns v3)],
      [Log LInfo msg_already_correct; Call RqOptionBytesLoad (Returns v4);
       Call (RqReset STM32WB55.Run) (Returns v5); Call RqStop (Returns v6)].
    rewrite <- Hany.
    repeat split; auto; try (repeat constructor; eauto; fail).
    eexists. split; [reflexivity |]. repeat constructor; eauto.
Qed.

(** Any run, however it ends, follows the prologue in order and then
    issues only reads, writes, the commit, the reload and the teardown. *)
Lemma set_follows file_path h d r :
  set file_path h = (d, r) ->
  follows after_unlock set_prologue (requests d).
Proof.
  unfold set, option_bytes_set. intros H. run H.
  all: repeat match goal with
         | Hl : for_each _ _ _ _ = (_, _) |- _ =>
             apply set_loop_events, loop_after_unlock in Hl
         end.
  all: repeat (rewrite ?requests_call, ?requests_log, ?requests_app).
  all: unfold set_prologue; repeat (apply follows_next).
  all: try (apply follows_cut).
  all: apply follows_tail; rewrite ?Forall_app; repeat split.
  all: try assumption.
  all: repeat constructor.
Qed.

Lemma set_loop_writes img l need h d r a v :
  for_each l (option_bytes_set_body openocd stm32 img) need h = (d, r) ->
  In (a, v) (writes d) ->
  exists i live,
    In i l
    /\ In (base + Z.of_nat i * 8, live) (reads d)
    /\ STM32WB55.option_bytes_id_to_address stm32 i = Some a
    /\ needsPatch live (compareMask_ img i) (reference_ img i) (writeMask_ img i) = true
    /\ v = newValue live (reference_ img i) (writeMask_ img i).
Proof.
  intros H. revert a v.
  refine (for_each_inv
           (fun d => forall a v, In (a, v) (writes d) ->
              exists i live, In i l
                /\ In (base + Z.of_nat i * 8, live) (reads d)
                /\ STM32WB55.option_bytes_id_to_address stm32 i = Some a
                /\ needsPatch live (compareMask_ img i) (reference_ img i)
                              (writeMask_ img i) = true
                /\ v = newValue live (reference_ img i) (writeMask_ img i))
    l (option_bytes_set_body openocd stm32 img) _ _ _ need h d r H).
  - intros a v [].
  - intros d1 d2 H1 H2 a v Hin. rewrite writes_app in Hin.
    apply in_app_or in Hin. rewrite reads_app.
    destruct Hin as [Hin | Hin]; [apply H1 in Hin | apply H2 in Hin];
      destruct Hin as (i & live & Hi & Hr & Hrest);
      exists i, live; (split; [exact Hi |]); (split; [| exact Hrest]);
      apply in_or_app; auto.
  - intros i s h' d' r' Hi Hb a v Hin.
    destruct (set_body_writes openocd stm32 img i s h' d' r' a v Hb Hin)
      as (live & Hrest).
    exists i, live. split; [exact Hi | exact Hrest].
Qed.

(** Any run, however it ends: a register write is the merge of a value
    read in the same run, sent to the register of its dword. *)
Lemma set_writes file_path h d r a v :
  set file_path h = (d, r) ->
  In (a, v) (writes d) ->
  exists img i live,
    OptionBytesData file_path = Some img
    /\ (i < List.length (reference img) / 8)%nat
    /\ In (base + Z.of_nat i * 8, live) (reads d)
    /\ STM32WB55.option_bytes_id_to_address stm32 i = Some a
    /\ needsPatch live (compareMask_ img i) (reference_ img i) (writeMask_ img i) = true
    /\ v = newValue live (reference_ img i) (writeMask_ img i).
Proof.
  unfold set, option_bytes_set. intros H Hin. run H.
  all: try (simpl in Hin; contradiction).
  all: repeat (rewrite writes_still in Hin by reflexivity).
  all: rewrite ?writes_app in Hin; simpl in Hin; rewrite ?app_nil_r in Hin.
  all: destruct (set_loop_writes _ _ _ _ _ _ _ _ Hloop Hin)
      as (i & live & Hi & Hr & Hrest).
  all: exists o, i, live; split; [reflexivity |].
  all: split; [apply in_seq in Hi; lia |].
  all: split; [| exact Hrest].
  all: repeat apply reads_later;
    first [exact Hr | rewrite reads_app; apply in_or_app; auto].
Qed.

End SetRuns.

(** ** Bit arithmetic of the patch rule *)

Ltac bitwise :=
  apply Z.bits_inj'; intros ?n ?Hn;
  repeat (rewrite ?Z.land_spec, ?Z.lor_spec, ?Z.lxor_spec, ?Z.bits_0;
          try rewrite !Z.lnot_spec by assumption).

Lemma needsPatch_iff live cm ref wm :
  needsPatch live cm ref wm = true
  <-> Z.land (Z.lxor (Z.land live cm) ref) wm <> 0.
Proof.
  unfold needsPatch. rewrite negb_true_iff, Z.eqb_neq. reflexivity.
Qed.

Lemma needsPatch_zero_mask live cm ref : needsPatch live cm ref 0 = false.
Proof. unfold needsPatch. rewrite Z.land_0_r. reflexivity. Qed.

Lemma newValue_keeps live ref wm :
  Z.land (newValue live ref wm) (Z.lnot wm) = Z.land live (Z.lnot wm).
Proof.
  unfold newValue. bitwise.
  destruct (Z.testbit live n), (Z.testbit ref n), (Z.testbit wm n); reflexivity.
Qed.

Lemma newValue_sets live ref wm :
  Z.land (newValue live ref wm) wm = Z.land ref wm.
Proof.
  unfold newValue. bitwise.
  destruct (Z.testbit live n), (Z.testbit ref n), (Z.testbit wm n); reflexivity.
Qed.

(** A patched word needs no second patch as long as the reference has no
    writable bit outside the compare mask. *)
Lemma newValue_settles live cm ref wm :
  Z.land (Z.land ref wm) (Z.lnot cm) = 0 ->
  needsPatch (newValue live ref wm) cm ref wm = false.
Proof.
  intros H. unfold needsPatch. rewrite negb_false_iff, Z.eqb_eq.
  unfold newValue. bitwise.
  assert (Hb : Z.testbit (Z.land (Z.land ref wm) (Z.lnot cm)) n = false)
    by (rewrite H; apply Z.bits_0).
  rewrite !Z.land_spec, Z.lnot_spec in Hb by assumption.
  destruct (Z.testbit live n), (Z.testbit ref n), (Z.testbit wm n),
    (Z.testbit cm n); simpl in *; congruence.
Qed.

(** ... and needs one forever otherwise. *)
Lemma newValue_unsettled live cm ref wm :
  Z.land (Z.land ref wm) (Z.lnot cm) <> 0 ->
  needsPatch (newValue live ref wm) cm ref wm = true.
Proof.
  intros H. apply needsPatch_iff. intros E. apply H. clear H.
  unfold newValue in E. bitwise.
  assert (Hb : Z.testbit
                 (Z.land (Z.lxor (Z.land (Z.lor (Z.land live (Z.lnot wm))
                                                (Z.land ref wm)) cm) ref) wm) n
               = false)
    by (rewrite E; apply Z.bits_0).
  rewrite !Z.land_spec, Z.lxor_spec, !Z.land_spec, Z.lor_spec, !Z.land_spec,
    Z.lnot_spec in Hb by assumption.
  destruct (Z.testbit live n), (Z.testbit ref n), (Z.testbit wm n),
    (Z.testbit cm n); simpl in *; congruence.
Qed.

Lemma high_bits_small x :
  0 <= x < 2 ^ 32 -> forall n, 32 <= n -> Z.testbit x n = false.
Proof.
  intros [H0 H1] n Hn. destruct (Z.eq_dec x 0) as [-> | Hx]; [apply Z.bits_0 |].
  apply Z.bits_above_log2; [exact H0 |].
  assert (Z.log2 x < 32) by (apply Z.log2_lt_pow2; lia). lia.
Qed.

Lemma small_high_bits x :
  0 <= x -> (forall n, 32 <= n -> Z.testbit x n = false) -> x < 2 ^ 32.
Proof.
  intros H0 Hb. destruct (Z.lt_ge_cases x (2 ^ 32)) as [Hlt | Hge]; [exact Hlt |].
  assert (Hpos : 0 < x) by lia.
  assert (Hl : 32 <= Z.log2 x) by (apply Z.log2_le_pow2; lia).
  pose proof (Z.bit_log2 x Hpos) as Ht. rewrite (Hb _ Hl) in Ht. discriminate.
Qed.

Lemma newValue_32 live ref wm :
  0 <= live < 2 ^ 32 -> newValue live ref wm = newValue32 live ref wm.
Proof.
  intros Hl. unfold newValue, newValue32. bitwise.
  destruct (Z.lt_ge_cases n 32) as [Hlt | Hge].
  - change 0xFFFFFFFF with (Z.ones 32).
    rewrite Z.ones_spec_low by lia. rewrite xorb_true_r. reflexivity.
  - rewrite (high_bits_small live Hl n Hge). reflexivity.
Qed.

Lemma newValue_range live ref wm :
  0 <= live < 2 ^ 32 -> 0 <= ref < 2 ^ 32 ->
  0 <= newValue live ref wm < 2 ^ 32.
Proof.
  intros Hl Hr. unfold newValue. split.
  - apply Z.lor_nonneg. split; apply Z.land_nonneg; left; lia.
  - apply small_high_bits.
    + apply Z.lor_nonneg. split; apply Z.land_nonneg; left; lia.
    + intros n Hn. rewrite Z.lor_spec, !Z.land_spec.
      rewrite (high_bits_small live Hl n Hn), (high_bits_small ref Hr n Hn).
      reflexivity.
Qed.

Lemma byte_to_Z_range b : 0 <= byte_to_Z b < 256.
Proof.
  unfold byte_to_Z. pose proof (Byte.to_N_bounded b). lia.
Qed.

Lemma from_bytes_little_range data :
  0 <= from_bytes_little data < 256 ^ Z.of_nat (List.length data).
Proof.
  induction data as [| b data IH]; [simpl; lia |].
  cbn [from_bytes_little List.length]. rewrite Nat2Z.inj_succ, Z.pow_succ_r by lia.
  pose proof (byte_to_Z_range b). lia.
Qed.

Lemma _unpack_u32_range data offset : 0 <= _unpack_u32 data offset < 2 ^ 32.
Proof.
  unfold _unpack_u32, slice.
  pose proof (from_bytes_little_range
                (firstn (offset + 4 - offset) (skipn offset data))) as H.
  assert (Hlen : (List.length (firstn (offset + 4 - offset) (skipn offset data)) <= 4)%nat).
  { rewrite length_firstn. lia. }
  assert (256 ^ Z.of_nat (List.length (firstn (offset + 4 - offset) (skipn offset data)))
          <= 256 ^ 4) by (apply Z.pow_le_mono_r; lia).
  change (2 ^ 32) with (256 ^ 4). lia.
Qed.

(** ** Which dwords need a patch *)

Lemma any_patch_iff img lives : forall a,
  any_patch img a lives = true
  <-> exists k live,
        nth_error lives k = Some live
        /\ needsPatch live (compareMask_ img (a + k)) (reference_ img (a + k))
                      (writeMask_ img (a + k)) = true.
Proof.
  induction lives as [| x lives IH]; intros a.
  - split; [discriminate |]. intros (k & live & Hk & _). destruct k; discriminate.
  - unfold any_patch. cbn [List.length seq combine existsb fst snd].
    rewrite orb_true_iff. fold (any_patch img (S a) lives). rewrite IH. split.
    + intros [H | (k & live & Hk & Hn)].
      * exists 0%nat, x. rewrite Nat.add_0_r. auto.
      * exists (S k), live. rewrite Nat.add_succ_r. auto.
    + intros ([| k] & live & Hk & Hn).
      * left. rewrite Nat.add_0_r in Hn. simpl in Hk. congruence.
      * right. exists k, live. rewrite Nat.add_succ_r in Hn. auto.
Qed.

Lemma any_patch_none img lives :
  (forall i live, nth_error lives i = Some live ->
     needsPatch live (compareMask_ img i) (reference_ img i) (writeMask_ img i) = false) ->
  any_patch img 0 lives = false.
Proof.
  intros H. destruct (any_patch img 0 lives) eqn:E; [| reflexivity].
  apply any_patch_iff in E. destruct E as (k & live & Hk & Hn).
  simpl in Hn. rewrite (H k live Hk) in Hn. discriminate.
Qed.

(** What [settled] shows, dword by dword. *)
Lemma settled_nth_from img lives : forall a i live',
  nth_error
    (map (fun p : nat * Z =>
            let (j, live) := p in
            if needsPatch live (compareMask_ img j) (reference_ img j) (writeMask_ img j)
            then newValue live (reference_ img j) (writeMask_ img j)
            else live)
         (combine (seq a (List.length lives)) lives)) i = Some live' ->
  exists live,
    nth_error lives i = Some live
    /\ live' = if needsPatch live (compareMask_ img (a + i)) (reference_ img (a + i))
                            (writeMask_ img (a + i))
               then newValue live (reference_ img (a + i)) (writeMask_ img (a + i))
               else live.
Proof.
  induction lives as [| x lives IH]; intros a i live' H.
  - destruct i; discriminate.
  - destruct i as [| i]; simpl in H.
    + injection H as <-. exists x. rewrite Nat.add_0_r. auto.
    + apply IH in H. destruct H as (live & Hl & Hv).
      exists live. rewrite Nat.add_succ_r. auto.
Qed.

Lemma settled_nth img lives i live' :
  nth_error (settled img lives) i = Some live' ->
  exists live,
    nth_error lives i = Some live
    /\ live' = if needsPatch live (compareMask_ img i) (reference_ img i)
                            (writeMask_ img i)
               then newValue live (reference_ img i) (writeMask_ img i)
               else live.
Proof. unfold settled. intros H. apply settled_nth_from in H. exact H. Qed.

Lemma loop_register_requests t :
  forallb loop_event t = true -> Forall register_request (requests t).
Proof.
  induction t as [| e t IH]; simpl; [constructor |].
  intros H. apply andb_true_iff in H. destruct H as [He Ht].
  destruct e as [[] ? |]; simpl in *; try discriminate;
    try constructor; simpl; auto.
Qed.

Lemma reads_returned rqs t :
  returned rqs t -> Forall (fun rq => ~ register_request rq) rqs ->
  forallb still_event t = true.
Proof.
  induction 1 as [| rq e rqs t [v ->] _ IH]; intros Hf; [reflexivity |].
  apply Forall_cons_iff in Hf. destruct Hf as [Hrq Hf]. simpl.
  rewrite (IH Hf), andb_true_r.
  destruct rq; simpl in *; try reflexivity; exfalso; apply Hrq; exact I.
Qed.

Lemma prologue_still pre : returned set_prologue pre -> forallb still_event pre = true.
Proof.
  intros H. apply (reads_returned _ _ H). unfold set_prologue.
  repeat constructor; simpl; auto.
Qed.

Lemma epilogue_still fin : returned set_epilogue fin -> forallb still_event fin = true.
Proof.
  intros H. apply (reads_returned _ _ H). unfold set_epilogue.
  repeat constructor; simpl; auto.
Qed.

Lemma commit_still post :
  returned (RqOptionBytesApply :: set_epilogue) post -> forallb still_event post = true.
Proof.
  intros H. apply (reads_returned _ _ H). unfold set_epilogue.
  repeat constructor; simpl; auto.
Qed.

Section SetView.

Variable openocd : probe.
Variable stm32 : STM32WB55.t.
Variable OptionBytesData : string -> option OptionBytesValues.

Let base := STM32WB55.OPTION_BYTE_BASE stm32.

(** What a run that returns shows through the projections of its trace. *)
Lemma set_ok_view file_path h d b :
  option_bytes_set openocd stm32 OptionBytesData file_path h = (d, Ok b) ->
  exists img lives,
    OptionBytesData file_path = Some img
    /\ List.length lives = (List.length (reference img) / 8)%nat
    /\ b = true
    /\ reads d = map (fun p : nat * Z => (base + Z.of_nat (fst p) * 8, snd p))
                     (combine (seq 0 (List.length lives)) lives)
    /\ decisions d =
       map (fun p : nat * Z =>
              (base + Z.of_nat (fst p) * 8, snd p,
               needsPatch (snd p) (compareMask_ img (fst p))
                          (reference_ img (fst p)) (writeMask_ img (fst p))))
           (combine (seq 0 (List.length lives)) lives)
    /\ (exists middle,
          Forall register_request middle
          /\ requests d = set_prologue ++ middle
                          ++ (if any_patch img 0 lives then [RqOptionBytesApply] else [])
                          ++ set_epilogue)
    /\ (any_patch img 0 lives = false ->
        writes d = [] /\ In (Log LInfo msg_already_correct) d).
Proof.
  intros H. apply set_ok in H.
  destruct H as (img & obs & pre & post & Himg & Hlen & Hb & Hpre & Hpm & -> & Hpost).
  exists img, (map fst obs). rewrite length_map.
  assert (Hps : forallb still_event post = true).
  { destruct (any_patch img 0 (map fst obs)).
    - apply commit_still. exact Hpost.
    - destruct Hpost as (fin & -> & Hfin). simpl. apply epilogue_still. exact Hfin. }
  pose proof (prologue_still pre Hpre) as Hprs.
  repeat (split; [assumption |]).
  split; [| split; [| split]].
  - change (Log LInfo "Setting Option Bytes" :: pre ++ loop_events stm32 img 0 obs ++ post)
      with ((Log LInfo "Setting Option Bytes" :: pre) ++ loop_events stm32 img 0 obs ++ post).
    rewrite !reads_app, (still_reads post Hps).
    rewrite (still_reads (Log LInfo "Setting Option Bytes" :: pre)) by exact Hprs.
    rewrite app_nil_r. apply loop_events_reads.
  - change (Log LInfo "Setting Option Bytes" :: pre ++ loop_events stm32 img 0 obs ++ post)
      with ((Log LInfo "Setting Option Bytes" :: pre) ++ loop_events stm32 img 0 obs ++ post).
    rewrite still_decisions by exact Hprs.
    apply loop_events_decisions; assumption.
  - exists (requests (loop_events stm32 img 0 obs)). split.
    + apply loop_register_requests, loop_events_loop.
    + rewrite requests_log, !requests_app, (returned_requests _ _ Hpre).
      f_equal. f_equal.
      destruct (any_patch img 0 (map fst obs)).
      * apply (returned_requests _ _ Hpost).
      * destruct Hpost as (fin & -> & Hfin).
        rewrite requests_log. apply (returned_requests _ _ Hfin).
  - intros Hany. rewrite Hany in Hpost. destruct Hpost as (fin & -> & Hfin).
    split.
    + change (Log LInfo "Setting Option Bytes" :: pre ++ loop_events stm32 img 0 obs
                ++ Log LInfo msg_already_correct :: fin)
        with ((Log LInfo "Setting Option Bytes" :: pre) ++ loop_events stm32 img 0 obs
                ++ Log LInfo msg_already_correct :: fin).
      rewrite !writes_app, (still_writes _ Hps), loop_events_writes by exact Hany.
      rewrite (still_writes (Log LInfo "Setting Option Bytes" :: pre)) by exact Hprs.
      reflexivity.
    + right. apply in_or_app. right. apply in_or_app. right. left. reflexivity.
Qed.

End SetView.

Lemma follows_script tail script l :
  follows tail script l ->
  forall n rq, nth_error l n = Some rq ->
    nth_error script n = Some rq \/ ((List.length script <= n)%nat /\ tail rq).
Proof.
  induction 1 as [script | rq0 script l _ IH | l Hl]; intros n rq Hn.
  - destruct n; discriminate.
  - destruct n as [| n]; [left; exact Hn |].
    destruct (IH n rq Hn) as [Hs | [Hlen Ht]]; [left; exact Hs |].
    right. simpl. split; [lia | exact Ht].
  - right. split; [simpl; lia |].
    rewrite Forall_forall in Hl. apply Hl. eapply nth_error_In. exact Hn.
Qed.

Lemma follows_defined tail script l :
  follows tail script l ->
  forall n m rq, nth_error l n = Some rq -> (m <= n)%nat ->
    (m < List.length script)%nat ->
    nth_error l m = nth_error script m.
Proof.
  induction 1 as [script | rq0 script l _ IH | l Hl]; intros n m rq Hn Hm Hlen.
  - destruct n; discriminate.
  - destruct m as [| m]; [reflexivity |].
    destruct n as [| n]; [lia |].
    simpl in *. apply (IH n m rq Hn); lia.
  - simpl in Hlen. lia.
Qed.

Lemma prologue_nth n rq :
  nth_error set_prologue n = Some rq ->
  (n = 0%nat /\ rq = RqStart) \/ (n = 1%nat /\ rq = RqReset STM32WB55.Init)
  \/ (n = 2%nat /\ rq = RqClearFlashErrors) \/ (n = 3%nat /\ rq = RqFlashUnlock)
  \/ (n = 4%nat /\ rq = RqOptionBytesUnlock).
Proof.
  unfold set_prologue.
  do 5 (destruct n as [| n]; [simpl; intros [= <-]; tauto |]).
  destruct n; discriminate.
Qed.

Lemma requests_apply_iff middle (any : bool) :
  Forall register_request middle ->
  In RqOptionBytesApply
     (set_prologue ++ middle ++ (if any then [RqOptionBytesApply] else [])
      ++ set_epilogue)
  <-> any = true.
Proof.
  intros Hmid. unfold set_prologue, set_epilogue. split.
  - intros Hin. destruct any; [reflexivity |].
    simpl in Hin. repeat (destruct Hin as [Hin | Hin]; [discriminate |]).
    apply in_app_or in Hin. destruct Hin as [Hin | Hin].
    + rewrite Forall_forall in Hmid. destruct (Hmid _ Hin).
    + simpl in Hin.
      repeat (destruct Hin as [Hin | Hin]; [discriminate |]). contradiction.
  - intros ->. apply in_or_app. right. apply in_or_app. right. left. reflexivity.
Qed.

Lemma map_snd_reads (base : Z) lives : forall a,
  map snd (map (fun p : nat * Z => (base + Z.of_nat (fst p) * 8, snd p))
               (combine (seq a (List.length lives)) lives))
  = lives.
Proof.
  induction lives as [| x lives IH]; intros a; [reflexivity |].
  simpl. f_equal. apply IH.
Qed.

(** * The claims *)

(** C1.  In a run of [option_bytes_set] that returns, the registers read are
    those of the dwords [0 <= i < length / 8], at [OPTION_BYTE_BASE + 8 i],
    in order, and after the read of dword [i] a patch is written exactly
    when [((live & compareMask_i) ^ reference_i) & writeMask_i] is not
    zero, where [live] is the value that read returned and the three
    words are the little-endian values of the four bytes at offset
    [8 i] of the buffers.  In particular no patch is decided when
    [writeMask_i] is zero, whatever the live value and the reference. *)
Theorem patch_decision openocd stm32 OptionBytesData file_path h d b :
  option_bytes_set openocd stm32 OptionBytesData file_path h = (d, Ok b) ->
  exists img lives,
    OptionBytesData file_path = Some img
    /\ List.length lives = (List.length (reference img) / 8)%nat
    /\ decisions d =
       map (fun p : nat * Z =>
              let (i, live) := p in
              let writeMask_i :=
                from_bytes_little (slice (write_mask img) (i * 8) (i * 8 + 4)) in
              let compareMask_i :=
                from_bytes_little (slice (compare_mask img) (i * 8) (i * 8 + 4)) in
              let reference_i :=
                from_bytes_little (slice (reference img) (i * 8) (i * 8 + 4)) in
              (STM32WB55.OPTION_BYTE_BASE stm32 + Z.of_nat i * 8, live,
               negb (Z.land (Z.lxor (Z.land live compareMask_i) reference_i)
                            writeMask_i =? 0)))
           (combine (seq 0 (List.length lives)) lives)
    /\ (forall live compareMask_i reference_i,
          negb (Z.land (Z.lxor (Z.land live compareMask_i) reference_i) 0 =? 0)
          = false).
Proof.
  intros H. apply set_ok_view in H.
  destruct H as (img & lives & Himg & Hlen & _ & _ & Hdec & _).
  exists img, lives. repeat (split; [assumption |]). split.
  - rewrite Hdec. apply map_ext. intros [i live]. reflexivity.
  - intros live cm ref. apply needsPatch_zero_mask.
Qed.

(** C2.  In any run of [option_bytes_set], however it ends, every register
    write is the patch of a dword [i < length / 8]: it goes to the register
    of that dword and carries
    [newValue = (live & ~writeMask_i) | (reference_i & writeMask_i)] for the
    value [live] read at [OPTION_BYTE_BASE + 8 i] in the same run.  Hence
    [newValue & ~writeMask_i = live & ~writeMask_i] and
    [newValue & writeMask_i = reference_i & writeMask_i]; and for a 32-bit
    [live] the value is a 32-bit word, the same as with a 32-bit
    complement of the mask. *)
Theorem patch_value openocd stm32 OptionBytesData file_path h d r a newValue_i :
  option_bytes_set openocd stm32 OptionBytesData file_path h = (d, r) ->
  In (a, newValue_i) (writes d) ->
  exists img i live,
    let writeMask_i := _unpack_u32 (write_mask img) (i * 8) in
    let reference_i := _unpack_u32 (reference img) (i * 8) in
    OptionBytesData file_path = Some img
    /\ (i < List.length (reference img) / 8)%nat
    /\ In (STM32WB55.OPTION_BYTE_BASE stm32 + Z.of_nat i * 8, live) (reads d)
    /\ STM32WB55.option_bytes_id_to_address stm32 i = Some a
    /\ newValue_i = Z.lor (Z.land live (Z.lnot writeMask_i))
                          (Z.land reference_i writeMask_i)
    /\ Z.land newValue_i (Z.lnot writeMask_i) = Z.land live (Z.lnot writeMask_i)
    /\ Z.land newValue_i writeMask_i = Z.land reference_i writeMask_i
    /\ (0 <= live < 2 ^ 32 ->
        0 <= newValue_i < 2 ^ 32
        /\ newValue_i = Z.lor (Z.land live (Z.lxor writeMask_i 0xFFFFFFFF))
                              (Z.land reference_i writeMask_i)).
Proof.
  intros H Hin.
  destruct (set_writes _ _ _ _ _ _ _ _ _ H Hin)
    as (img & i & live & Himg & Hi & Hr & Ha & _ & ->).
  exists img, i, live. cbv zeta.
  repeat (split; [assumption |]).
  split; [reflexivity |].
  split; [apply newValue_keeps |].
  split; [apply newValue_sets |].
  intros Hl. split.
  - apply newValue_range; [exact Hl | apply _unpack_u32_range].
  - apply newValue_32. exact Hl.
Qed.

(** C4.  In a run of [option_bytes_set] that returns, the commit
    ([option_bytes_apply]) is issued exactly when some dword needed a patch;
    the reload ([option_bytes_load]) is issued once, after every register
    read and write and after the commit, whether or not a patch was made,
    followed only by the reset to run and the stop.  When no dword needs a
    patch the run writes no register, issues no commit, and logs that the
    option bytes are already correct. *)
Theorem apply_iff_patched openocd stm32 OptionBytesData file_path h d b :
  option_bytes_set openocd stm32 OptionBytesData file_path h = (d, Ok b) ->
  exists img lives,
    let needs i live :=
      needsPatch live (_unpack_u32 (compare_mask img) (i * 8))
                 (_unpack_u32 (reference img) (i * 8))
                 (_unpack_u32 (write_mask img) (i * 8)) in
    OptionBytesData file_path = Some img
    /\ List.length lives = (List.length (reference img) / 8)%nat
    /\ map snd (reads d) = lives
    /\ (In RqOptionBytesApply (requests d)
        <-> exists i live, nth_error lives i = Some live /\ needs i live = true)
    /\ (exists before,
          requests d = before ++ [RqOptionBytesLoad; RqReset STM32WB55.Run; RqStop]
          /\ ~ In RqOptionBytesLoad before)
    /\ ((forall i live, nth_error lives i = Some live -> needs i live = false) ->
        writes d = []
        /\ ~ In RqOptionBytesApply (requests d)
        /\ In RqOptionBytesLoad (requests d)
        /\ In (Log LInfo "Option Bytes are already correct") d).
Proof.
  intros H. apply set_ok_view in H.
  destruct H as (img & lives & Himg & Hlen & _ & Hreads & _ & Hreq & Hnone).
  destruct Hreq as (middle & Hmid & Hreq).
  exists img, lives. cbv zeta.
  assert (Hnot : forall rq, ~ register_request rq -> ~ In rq middle).
  { intros rq Hrq Hin. rewrite Forall_forall in Hmid. apply Hrq, Hmid, Hin. }
  assert (Hiff : In RqOptionBytesApply (requests d) <-> any_patch img 0 lives = true).
  { rewrite Hreq. apply requests_apply_iff. exact Hmid. }
  repeat (split; [assumption |]).
  split; [| split; [| split]].
  - rewrite Hreads. apply map_snd_reads.
  - rewrite Hiff, any_patch_iff. reflexivity.
  - exists (set_prologue ++ middle
            ++ (if any_patch img 0 lives then [RqOptionBytesApply] else [])).
    split.
    + rewrite Hreq. unfold set_epilogue. rewrite <- !app_assoc. reflexivity.
    + intros Hin. unfold set_prologue in Hin. simpl in Hin.
      repeat (destruct Hin as [Hin | Hin]; [discriminate |]).
      apply in_app_or in Hin. destruct Hin as [Hin | Hin].
      * revert Hin. apply Hnot. simpl. auto.
      * destruct (any_patch img 0 lives); simpl in Hin;
          repeat (destruct Hin as [Hin | Hin]; [discriminate |]); contradiction.
  - intros Hall. apply any_patch_none in Hall.
    destruct (Hnone Hall) as [Hw Hlog].
    split; [exact Hw |]. split; [| split; [| exact Hlog]].
    + rewrite Hiff, Hall. discriminate.
    + rewrite Hreq. unfold set_epilogue.
      apply in_or_app. right. apply in_or_app. right. apply in_or_app. right.
      left. reflexivity.
Qed.

(** C5.  In any run of [option_bytes_set], whatever the inputs and however
    the run ends, the option-byte unlock is only ever the fifth request,
    issued right after the flash unlock (the fourth), itself issued right
    after the clearing of the flash errors (the third); and a run that
    returns has issued all three. *)
Theorem unlock_order openocd stm32 OptionBytesData file_path h d r :
  option_bytes_set openocd stm32 OptionBytesData file_path h = (d, r) ->
  (forall n, nth_error (requests d) n = Some RqOptionBytesUnlock ->
     n = 4%nat
     /\ nth_error (requests d) 3 = Some RqFlashUnlock
     /\ nth_error (requests d) 2 = Some RqClearFlashErrors)
  /\ (forall n, nth_error (requests d) n = Some RqFlashUnlock ->
        n = 3%nat /\ nth_error (requests d) 2 = Some RqClearFlashErrors)
  /\ (forall n, nth_error (requests d) n = Some RqClearFlashErrors -> n = 2%nat)
  /\ ((exists b, r = Ok b) ->
      nth_error (requests d) 4 = Some RqOptionBytesUnlock).
Proof.
  intros H. pose proof (set_follows _ _ _ _ _ _ _ H) as Hf.
  assert (Hpos : forall n rq,
             nth_error (requests d) n = Some rq -> ~ after_unlock rq ->
             nth_error set_prologue n = Some rq).
  { intros n rq Hn Hrq.
    destruct (follows_script _ _ _ Hf n rq Hn) as [Hs | [_ Ht]];
      [exact Hs | contradiction]. }
  split; [| split; [| split]].
  - intros n Hn. pose proof (Hpos n _ Hn (fun x => x)) as Hs.
    apply prologue_nth in Hs.
    assert (n = 4%nat) as -> by (intuition congruence).
    split; [reflexivity |]. split.
    + apply (follows_defined _ _ _ Hf 4 3 _ Hn); simpl; lia.
    + apply (follows_defined _ _ _ Hf 4 2 _ Hn); simpl; lia.
  - intros n Hn. pose proof (Hpos n _ Hn (fun x => x)) as Hs.
    apply prologue_nth in Hs.
    assert (n = 3%nat) as -> by (intuition congruence).
    split; [reflexivity |].
    apply (follows_defined _ _ _ Hf 3 2 _ Hn); simpl; lia.
  - intros n Hn. pose proof (Hpos n _ Hn (fun x => x)) as Hs.
    apply prologue_nth in Hs. intuition congruence.
  - intros [b ->]. apply set_ok_view in H.
    destruct H as (img & lives & _ & _ & _ & _ & _ & (middle & _ & ->) & _).
    reflexivity.
Qed.

(** C6, as amended.  Run [option_bytes_set] twice in a row with the same
    image, both runs returning, and let the patches of the first run take
    effect: on the second run each patched dword reads as the value
    written, the others as before.  If moreover no dword of the reference
    has a writable bit outside its compare mask
    ([reference_i & writeMask_i & ~compareMask_i = 0]), then on the second
    run no dword needs a patch, no register is written and no commit is
    issued. *)
Theorem second_run_idempotent openocd stm32 OptionBytesData file_path h
    img d1 b1 d2 b2 :
  OptionBytesData file_path = Some img ->
  (forall i, (i < List.length (reference img) / 8)%nat ->
     Z.land (Z.land (reference_ img i) (writeMask_ img i))
            (Z.lnot (compareMask_ img i)) = 0) ->
  option_bytes_set openocd stm32 OptionBytesData file_path h = (d1, Ok b1) ->
  option_bytes_set openocd stm32 OptionBytesData file_path (h ++ d1) = (d2, Ok b2) ->
  map snd (reads d2) = settled img (map snd (reads d1)) ->
  (forall i live, nth_error (map snd (reads d2)) i = Some live ->
     needsPatch live (compareMask_ img i) (reference_ img i) (writeMask_ img i)
     = false)
  /\ writes d2 = []
  /\ ~ In RqOptionBytesApply (requests d2).
Proof.
  intros Himg Hmask H1 H2 Hsettled.
  apply set_ok_view in H1.
  destruct H1 as (img1 & lives1 & Himg1 & Hlen1 & _ & Hreads1 & _).
  apply set_ok_view in H2.
  destruct H2 as (img2 & lives2 & Himg2 & Hlen2 & _ & Hreads2 & _ & Hreq & Hnone).
  assert (img1 = img) as -> by congruence.
  assert (img2 = img) as -> by congruence.
  rewrite Hreads1, Hreads2, !map_snd_reads in Hsettled.
  rewrite Hreads2, map_snd_reads.
  assert (Hno : forall i live, nth_error lives2 i = Some live ->
            needsPatch live (compareMask_ img i) (reference_ img i)
                       (writeMask_ img i) = false).
  { intros i live Hn. rewrite Hsettled in Hn.
    apply settled_nth in Hn. destruct Hn as (live1 & Hl1 & ->).
    assert (Hi : (i < List.length (reference img) / 8)%nat).
    { rewrite <- Hlen1. apply nth_error_Some. congruence. }
    destruct (needsPatch live1 _ _ _) eqn:Hn1; [| exact Hn1].
    apply newValue_settles, Hmask, Hi. }
  split; [exact Hno |].
  pose proof (any_patch_none img lives2 Hno) as Hany.
  split; [apply Hnone, Hany |].
  destruct Hreq as (middle & Hmid & ->).
  rewrite requests_apply_iff, Hany by exact Hmid. discriminate.
Qed.

(** C7.  A missing or unparsable declaration file: [option_bytes_validate]
    and [option_bytes_set] have already started the probe session and
    reset the target to halt when the image producer raises, and they
    leave the session open; [flash] does check the file before it starts
    the session. *)
Theorem missing_file_after_start :
  option_bytes_validate quiet wb55 no_file "missing.ob" []
  = ([Call RqStart (Returns PyNone);
      Call (RqReset STM32WB55.Init) (Returns PyNone)], Err DataError)
  /\ option_bytes_set quiet wb55 no_file "missing.ob" []
     = ([Log LInfo "Setting Option Bytes";
         Call RqStart (Returns PyNone);
         Call (RqReset STM32WB55.Init) (Returns PyNone)], Err DataError)
  /\ flash quiet (fun _ => false) 0x08000000 "missing.bin" true []
     = ([], Err (Exception "File missing.bin not found")).
Proof. repeat split; reflexivity. Qed.

Lemma stop_call_iff t : In RqStop (requests t) <-> existsb stop_call t = true.
Proof.
  induction t as [| e t IH]; simpl; [split; [contradiction | discriminate] |].
  rewrite orb_true_iff, <- IH. unfold requests. cbn [flat_map].
  rewrite in_app_iff. fold (requests t).
  destruct e as [[] rp | lvl msg]; simpl; split; intros [H | H]; auto;
    try discriminate; try contradiction;
    try (destruct H as [H | []]; discriminate).
Qed.

Lemma stop_raised_iff t :
  In (Call RqStop Raises) t <-> existsb stop_raised t = true.
Proof.
  rewrite existsb_exists. split.
  - intros H. exists (Call RqStop Raises). auto.
  - intros [e [Hin He]]. destruct e as [[] [| v] |]; try discriminate. exact Hin.
Qed.

(** C8, as amended.  For [option_bytes_validate], [option_bytes_set] and
    [otp_write], the probe session stop completes exactly on the paths on
    which the operation returns.  A stop is issued only by a run that
    returns or by one whose stop call itself raises: when a probe call or
    any other step before the stop raises, the run ends with that exception
    and no stop is issued at all.  A stop call that raises ends the run
    with the probe's error. *)
Theorem stop_iff_returns openocd stm32 OptionBytesData file_path address data h d r :
  option_bytes_validate openocd stm32 OptionBytesData file_path h = (d, r)
  \/ option_bytes_set openocd stm32 OptionBytesData file_path h = (d, r)
  \/ otp_write openocd address data h = (d, r) ->
  (stop_completed d <-> exists b, r = Ok b)
  /\ (In RqStop (requests d) ->
      (exists b, r = Ok b) \/ In (Call RqStop Raises) d)
  /\ (In (Call RqStop Raises) d -> r = Err ProbeError)
  /\ (forall e, r = Err e -> ~ In (Call RqStop Raises) d ->
        ~ In RqStop (requests d)).
Proof.
  intros H.
  assert (Hc : (existsb stop_call d = true ->
                (exists b, r = Ok b) \/ existsb stop_raised d = true)
               /\ (existsb stop_raised d = true -> r = Err ProbeError)).
  { destruct H as [H | [H | H]].
    - eapply validate_stop_call. exact H.
    - eapply set_stop_call. exact H.
    - eapply otp_write_stop_call. exact H. }
  destruct Hc as [Hcall Hraised].
  split; [| split; [| split]].
  - rewrite stop_completed_iff. destruct H as [H | [H | H]].
    + eapply validate_stop. exact H.
    + eapply set_stop. exact H.
    + eapply otp_write_stop. exact H.
  - rewrite stop_call_iff, stop_raised_iff. exact Hcall.
  - rewrite stop_raised_iff. exact Hraised.
  - intros e -> Hno Hin. apply stop_call_iff in Hin.
    destruct (Hcall Hin) as [[b Hb] | Hr]; [discriminate |].
    apply Hno, stop_raised_iff. exact Hr.
Qed.

(** ** Bytes *)

Lemma byte_and_of_N x m :
  Byte.of_N (N.land (Byte.to_N x) (Byte.to_N m)) = Some (byte_and x m).
Proof.
  unfold byte_and.
  destruct (Byte.of_N (N.land (Byte.to_N x) (Byte.to_N m))) as [b |] eqn:E;
    [reflexivity |].
  apply Byte.of_N_None_iff in E.
  pose proof (N.land_le_l (Byte.to_N x) (Byte.to_N m)).
  pose proof (Byte.to_N_bounded x). lia.
Qed.

Lemma byte_and_Z x m :
  byte_to_Z (byte_and x m) = Z.land (byte_to_Z x) (byte_to_Z m).
Proof.
  unfold byte_to_Z.
  rewrite (proj1 (Byte.to_of_N_iff _ _) (byte_and_of_N x m)).
  apply N2Z.inj_land.
Qed.

Lemma bytes1_land x m :
  bytes1 (Z.land (byte_to_Z x) (byte_to_Z m)) = Ok [byte_and x m].
Proof.
  rewrite <- byte_and_Z. unfold bytes1.
  pose proof (byte_to_Z_range (byte_and x m)) as Hr.
  replace (0 <=? byte_to_Z (byte_and x m)) with true by (symmetry; apply Z.leb_le; lia).
  replace (byte_to_Z (byte_and x m) <? 256) with true by (symmetry; apply Z.ltb_lt; lia).
  unfold byte_to_Z. rewrite N2Z.id, Byte.of_to_N. reflexivity.
Qed.

Lemma byte_to_Z_inj a b : byte_to_Z a = byte_to_Z b -> a = b.
Proof.
  unfold byte_to_Z. intros H. apply N2Z.inj in H.
  pose proof (Byte.of_to_N a) as Ha. rewrite H, Byte.of_to_N in Ha. congruence.
Qed.

Lemma bytes_eqb_eq a : forall b, bytes_eqb a b = true <-> a = b.
Proof.
  induction a as [| x a IH]; intros [| y b]; simpl; split;
    try discriminate; try reflexivity.
  - intros H. apply andb_true_iff in H. destruct H as [Hx Hab].
    apply Byte.byte_dec_bl in Hx. apply IH in Hab. congruence.
  - intros [= -> ->]. apply andb_true_iff. split.
    + apply Byte.byte_dec_lb. reflexivity.
    + apply IH. reflexivity.
Qed.

Lemma bytes_differ (a : bytes) : forall b : bytes,
  List.length a = List.length b -> a <> b ->
  exists k x y, nth_error a k = Some x /\ nth_error b k = Some y /\ x <> y.
Proof.
  induction a as [| x a IH]; intros [| y b] Hlen Hne; try discriminate.
  - contradiction.
  - destruct (Byte.byte_eq_dec x y) as [-> | Hxy].
    + destruct (IH b) as (k & x' & y' & Ha & Hb & Hd).
      * simpl in Hlen. lia.
      * congruence.
      * exists (S k), x', y'. auto.
    + exists 0%nat, x, y. auto.
Qed.

Lemma little_digits_length n : forall v, List.length (little_digits n v) = n.
Proof.
  induction n as [| n IH]; intros v; [reflexivity |].
  cbn [little_digits].
  destruct (Byte.of_N (Z.to_N (v mod 256))) as [b |] eqn:E.
  - simpl. f_equal. apply IH.
  - apply Byte.of_N_None_iff in E.
    pose proof (Z.mod_pos_bound v 256 ltac:(lia)). lia.
Qed.

Lemma words_length ws :
  List.length (flat_map (little_digits 4) ws) = (4 * List.length ws)%nat.
Proof.
  induction ws as [| w ws IH]; [reflexivity |].
  cbn [flat_map List.length]. rewrite length_app, little_digits_length, IH. lia.
Qed.

(** [little_digits] is the little-endian encoding: decoding gives the
    number back. *)
Lemma little_digits_roundtrip n : forall v,
  0 <= v < 256 ^ Z.of_nat n -> from_bytes_little (little_digits n v) = v.
Proof.
  induction n as [| n IH]; intros v Hv.
  - simpl in *. lia.
  - rewrite Nat2Z.inj_succ, Z.pow_succ_r in Hv by lia.
    cbn [little_digits].
    pose proof (Z.mod_pos_bound v 256 ltac:(lia)) as Hm.
    destruct (Byte.of_N (Z.to_N (v mod 256))) as [b |] eqn:E.
    + cbn [from_bytes_little]. rewrite IH.
      * apply Byte.to_of_N_iff in E. unfold byte_to_Z. rewrite E, Z2N.id by lia.
        pose proof (Z.div_mod v 256 ltac:(lia)). lia.
      * split; [apply Z.div_pos; lia | apply Z.div_lt_upper_bound; lia].
    + apply Byte.of_N_None_iff in E. lia.
Qed.

(** ** The comparison of [option_bytes_validate] *)

Lemma mask_ok ob_read cm n : forall a acc out,
  for_each_r (seq a n) (mask_body ob_read cm) acc = Ok out ->
  exists tail,
    out = acc ++ tail
    /\ List.length tail = n
    /\ forall k, (k < n)%nat ->
         exists x m, nth_error ob_read (a + k) = Some x
                     /\ nth_error cm (a + k) = Some m
                     /\ nth_error tail k = Some (byte_and x m).
Proof.
  induction n as [| n IH]; intros a acc out H; simpl in H.
  - injection H as <-. exists []. rewrite app_nil_r.
    repeat split. intros k Hk. lia.
  - unfold mask_body at 1, index in H.
    destruct (nth_error ob_read a) as [x |] eqn:Hx; [| discriminate].
    destruct (nth_error cm a) as [m |] eqn:Hm; [| discriminate].
    simpl in H. rewrite bytes1_land in H. simpl in H.
    apply IH in H. destruct H as (tail & -> & Hlen & Hk).
    exists (byte_and x m :: tail). rewrite <- app_assoc. simpl.
    repeat split; [congruence |].
    intros [| k] Hlt.
    + rewrite Nat.add_0_r. exists x, m. auto.
    + destruct (Hk k ltac:(lia)) as (x' & m' & Hx' & Hm' & Ht).
      rewrite Nat.add_succ_r. exists x', m'. auto.
Qed.

Lemma mask_total ob_read cm n : forall a acc,
  (a + n <= List.length ob_read)%nat -> (a + n <= List.length cm)%nat ->
  exists out, for_each_r (seq a n) (mask_body ob_read cm) acc = Ok out.
Proof.
  induction n as [| n IH]; intros a acc Hr Hc; simpl.
  - exists acc. reflexivity.
  - unfold mask_body at 1, index.
    destruct (nth_error ob_read a) as [x |] eqn:Hx;
      [| apply nth_error_None in Hx; lia].
    destruct (nth_error cm a) as [m |] eqn:Hm;
      [| apply nth_error_None in Hm; lia].
    simpl. rewrite bytes1_land. simpl. apply IH; lia.
Qed.

(** The result of the comparison, byte by byte. *)
Lemma mask_mismatch_iff ref ob_read cm out :
  for_each_r (seq 0 (List.length ref)) (mask_body ob_read cm) [] = Ok out ->
  (bytes_eqb ref out = false
   <-> exists k x m r,
         nth_error ob_read k = Some x /\ nth_error cm k = Some m
         /\ nth_error ref k = Some r
         /\ Z.land (byte_to_Z x) (byte_to_Z m) <> byte_to_Z r).
Proof.
  intros H. apply mask_ok in H. destruct H as (tail & -> & Hlen & Hk).
  simpl in *. split.
  - intros Hne.
    assert (Hd : ref <> tail).
    { intros E. apply bytes_eqb_eq in E. congruence. }
    destruct (bytes_differ ref tail (eq_sym Hlen) Hd) as (k & r & y & Hr & Hy & Hry).
    assert (Hlt : (k < List.length ref)%nat) by (apply nth_error_Some; congruence).
    destruct (Hk k Hlt) as (x & m & Hx & Hm & Ht).
    exists k, x, m, r. repeat (split; [assumption |]).
    rewrite <- byte_and_Z. intros E. apply byte_to_Z_inj in E. congruence.
  - intros (k & x & m & r & Hx & Hm & Hr & Hne).
    destruct (bytes_eqb ref tail) eqn:E; [| reflexivity].
    apply bytes_eqb_eq in E. subst tail.
    assert (Hlt : (k < List.length ref)%nat) by (apply nth_error_Some; congruence).
    destruct (Hk k Hlt) as (x' & m' & Hx' & Hm' & Ht).
    exfalso. apply Hne. rewrite <- byte_and_Z. f_equal. congruence.
Qed.

(** ** Runs of [option_bytes_validate] *)

Lemma reads_still e t : still_event e = true -> reads (e :: t) = reads t.
Proof. destruct e as [[] ? |]; simpl; intros; try discriminate; reflexivity. Qed.

Section ValidateRuns.

Variable openocd : probe.
Variable stm32 : STM32WB55.t.
Variable OptionBytesData : string -> option OptionBytesValues.

Let base := STM32WB55.OPTION_BYTE_BASE stm32.

(** The body of the read loop. *)
Let read_body (i : nat) (ob_read : bytes) : M bytes :=
  bind (call openocd (RqRead32 (base + Z.of_nat i * 4)))
       (fun value => bind (lift (to_bytes value 4))
                          (fun word => ret (ob_read ++ word))).

Lemma validate_read_ok n : forall a acc h d ob_read,
  for_each (seq a n) read_body acc h = (d, Ok ob_read) ->
  exists ws,
    List.length ws = n
    /\ reads d = map (fun p : nat * Z => (base + Z.of_nat (fst p) * 4, snd p))
                     (combine (seq a n) ws)
    /\ ob_read = acc ++ flat_map (little_digits 4) ws
    /\ Forall (fun w => 0 <= w < 2 ^ 32) ws.
Proof.
  induction n as [| n IH]; intros a acc h d ob_read H; simpl in H.
  - step H. exists []. rewrite app_nil_r. auto.
  - apply bind_inv in H.
    destruct H as [(e & _ & He) | (d1 & s' & d2 & Hb & Hl & ->)]; [discriminate |].
    unfold read_body in Hb. step Hb. step Hb. step Hb.
    destruct v as [| v |]; try discriminate.
    unfold to_bytes, to_bytes_little in Hx.
    destruct ((0 <=? v) && (v <? 256 ^ Z.of_nat 4)) eqn:Hrange; [| discriminate].
    injection Hx as <-.
    apply andb_true_iff in Hrange. destruct Hrange as [H0 H1].
    apply Z.leb_le in H0. apply Z.ltb_lt in H1.
    change (256 ^ Z.of_nat 4) with (2 ^ 32) in H1.
    apply IH in Hl. destruct Hl as (ws & Hlen & Hreads & -> & Hws).
    exists (v :: ws). split; [simpl; congruence |]. split; [| split].
    + simpl. f_equal. exact Hreads.
    + simpl. rewrite <- app_assoc. reflexivity.
    + constructor; [lia | exact Hws].
Qed.

Lemma validate_read_total (Hans : answering openocd) l : forall acc h d r,
  for_each l read_body acc h = (d, r) -> exists ob_read, r = Ok ob_read.
Proof.
  induction l as [| i l IH]; intros acc h d r H; simpl in H.
  - step H. eauto.
  - apply bind_inv in H.
    destruct H as [(e & Hb & ->) | (d1 & s' & d2 & Hb & Hl & ->)].
    + exfalso. unfold read_body in Hb.
      pose proof (Hans h (RqRead32 (base + Z.of_nat i * 4))) as Ha.
      step Hb.
      * rewrite Ho in Ha. exact Ha.
      * rewrite Ho in Ha. destruct Ha as (w & [= ->] & Hw).
        step Hb.
        unfold to_bytes, to_bytes_little in Hx.
        replace ((0 <=? w) && (w <? 256 ^ Z.of_nat 4)) with true in Hx;
          [discriminate |].
        symmetry. apply andb_true_iff. split; [apply Z.leb_le | apply Z.ltb_lt];
          change (256 ^ Z.of_nat 4) with (2 ^ 32); lia.
    + eapply IH. exact Hl.
Qed.

(** A run that returns: the words read, the masked bytes, the verdict. *)
Lemma validate_ok file_path h d b :
  option_bytes_validate openocd stm32 OptionBytesData file_path h = (d, Ok b) ->
  exists img ws ob_compare,
    OptionBytesData file_path = Some img
    /\ List.length ws = (List.length (reference img) / 4)%nat
    /\ reads d = map (fun p : nat * Z => (base + Z.of_nat (fst p) * 4, snd p))
                     (combine (seq 0 (List.length ws)) ws)
    /\ Forall (fun w => 0 <= w < 2 ^ 32) ws
    /\ for_each_r (seq 0 (List.length (reference img)))
         (mask_body (flat_map (little_digits 4) ws) (compare_mask img)) []
       = Ok ob_compare
    /\ b = negb (bytes_eqb (reference img) ob_compare).
Proof.
  unfold option_bytes_validate. intros H. run H.
  all: apply validate_read_ok in Hloop;
    destruct Hloop as (ws & Hlen & Hreads & -> & Hws).
  all: exists o, ws, v1; split; [reflexivity |].
  all: split; [exact Hlen |].
  all: rewrite Hlen;
    split; [| split; [exact Hws | split; [exact Hx | rewrite Hif; reflexivity]]].
  - rewrite !reads_still by reflexivity. rewrite reads_app.
    rewrite !reads_still by reflexivity. rewrite app_nil_r. exact Hreads.
  - apply diff_table_events in Hloop0. destruct Hloop0 as [Hlog _].
    rewrite !reads_still by reflexivity. rewrite reads_app.
    rewrite !reads_still by reflexivity. rewrite reads_app.
    rewrite (still_reads dl0) by (apply log_still_event; exact Hlog).
    rewrite !reads_still by reflexivity. rewrite app_nil_r. exact Hreads.
Qed.

(** With an answering probe and an image whose buffers have one length,
    a multiple of four, every run returns. *)
Lemma validate_total file_path img h d r :
  answering openocd ->
  OptionBytesData file_path = Some img ->
  List.length (compare_mask img) = List.length (reference img) ->
  (List.length (reference img) mod 4 = 0)%nat ->
  option_bytes_validate openocd stm32 OptionBytesData file_path h = (d, r) ->
  exists b, r = Ok b.
Proof.
  intros Hans Himg Hcm Hmod. unfold option_bytes_validate. intros H.
  run H; eauto.
  all: try match goal with
           | Ho : openocd ?h ?rq = Raises |- _ =>
               exfalso; pose proof (Hans h rq) as Ha; rewrite Ho in Ha; exact Ha
           end.
  all: try congruence.
  - destruct (validate_read_total Hans _ _ _ _ _ Hloop) as [x Hx]. discriminate.
  - exfalso. assert (o = img) as -> by congruence.
    apply validate_read_ok in Hloop. destruct Hloop as (ws & Hlen & _ & -> & _).
    cbn [app] in Hx.
    assert (Hl : List.length (flat_map (little_digits 4) ws)
                 = List.length (reference img)).
    { rewrite words_length, Hlen.
      pose proof (Nat.div_mod_eq (List.length (reference img)) 4). lia. }
    destruct (mask_total (flat_map (little_digits 4) ws) (compare_mask img)
                (List.length (reference img)) 0 []) as [out Hout]; [lia | lia |].
    pose proof (eq_trans (eq_sym Hout) Hx) as E. discriminate E.
  - apply diff_table_events in Hloop0. destruct Hloop0 as [_ Hr]. discriminate.
Qed.

End ValidateRuns.

Lemma map_fst_indexed (f : nat -> Z) ws : forall a,
  map fst (map (fun p : nat * Z => (f (fst p), snd p))
               (combine (seq a (List.length ws)) ws))
  = map f (seq a (List.length ws)).
Proof.
  induction ws as [| w ws IH]; intros a; [reflexivity |].
  simpl. f_equal. apply IH.
Qed.

Lemma map_snd_indexed_words (f : nat -> Z) ws : forall a,
  map snd (map (fun p : nat * Z => (f (fst p), snd p))
               (combine (seq a (List.length ws)) ws))
  = ws.
Proof.
  induction ws as [| w ws IH]; intros a; [reflexivity |].
  simpl. f_equal. apply IH.
Qed.

Lemma land_masked_out x m : Z.land (Z.land x m) (Z.lnot m) = 0.
Proof.
  bitwise. destruct (Z.testbit x n), (Z.testbit m n); reflexivity.
Qed.

(** C3.  A run of [option_bytes_validate] that returns has read the device
    words at [OPTION_BYTE_BASE + 4 j] for [j < length / 4], in order, each
    a 32-bit word, and returns true exactly when some byte index
    [k < length] has
    [deviceByte[k] & compareMask[k] <> reference[k]], where [deviceByte] is
    the concatenation of the four little-endian bytes of each word read
    and the reference byte is taken as given; it returns false exactly
    when every byte matches.  With a probe that answers and buffers of
    one length, a multiple of four, the run does return. *)
Theorem validate_mismatch_iff openocd stm32 OptionBytesData file_path h d r :
  option_bytes_validate openocd stm32 OptionBytesData file_path h = (d, r) ->
  (forall b, r = Ok b ->
     exists img,
       let deviceByte := flat_map (little_digits 4) (map snd (reads d)) in
       let mismatch k :=
         exists x m ref_k,
           nth_error deviceByte k = Some x
           /\ nth_error (compare_mask img) k = Some m
           /\ nth_error (reference img) k = Some ref_k
           /\ Z.land (byte_to_Z x) (byte_to_Z m) <> byte_to_Z ref_k in
       OptionBytesData file_path = Some img
       /\ map fst (reads d)
          = map (fun j => STM32WB55.OPTION_BYTE_BASE stm32 + Z.of_nat j * 4)
                (seq 0 (List.length (reference img) / 4))
       /\ Forall (fun w => 0 <= w < 2 ^ 32
                           /\ from_bytes_little (little_digits 4 w) = w)
                 (map snd (reads d))
       /\ (b = true <-> exists k, mismatch k)
       /\ (b = false <-> forall k, ~ mismatch k))
  /\ (forall img,
        answering openocd ->
        OptionBytesData file_path = Some img ->
        List.length (compare_mask img) = List.length (reference img) ->
        (List.length (reference img) mod 4 = 0)%nat ->
        exists b, r = Ok b).
Proof.
  intros H. split.
  - intros b ->. apply validate_ok in H.
    destruct H as (img & ws & ob_compare & Himg & Hlen & Hreads & Hws & Hmask & ->).
    exists img. cbv zeta.
    rewrite Hreads.
    rewrite (map_fst_indexed
               (fun j => STM32WB55.OPTION_BYTE_BASE stm32 + Z.of_nat j * 4)).
    rewrite (map_snd_indexed_words
               (fun j => STM32WB55.OPTION_BYTE_BASE stm32 + Z.of_nat j * 4)).
    rewrite Hlen.
    split; [exact Himg |]. split; [reflexivity |].
    split.
    { eapply Forall_impl; [| exact Hws]. intros w Hw. split; [exact Hw |].
      apply little_digits_roundtrip. exact Hw. }
    pose proof (mask_mismatch_iff _ _ _ _ Hmask) as Hiff.
    assert (Htrue : negb (bytes_eqb (reference img) ob_compare) = true
                    <-> exists k x m ref_k,
                          nth_error (flat_map (little_digits 4) ws) k = Some x
                          /\ nth_error (compare_mask img) k = Some m
                          /\ nth_error (reference img) k = Some ref_k
                          /\ Z.land (byte_to_Z x) (byte_to_Z m) <> byte_to_Z ref_k).
    { rewrite negb_true_iff. exact Hiff. }
    split; [exact Htrue |].
    split.
    + intros Hb k Hk. rewrite (proj2 Htrue) in Hb; [discriminate |].
      exists k. exact Hk.
    + intros Hnone. apply not_true_iff_false. intros E.
      apply Htrue in E. destruct E as (k & Hk). apply (Hnone k Hk).
  - intros img Hans Himg Hcm Hmod.
    eapply validate_total; eassumption.
Qed.

(** C10.  If some byte of the reference has a bit set outside the
    corresponding byte of the compare mask, [option_bytes_validate] never
    returns false, whatever the device answers: a run that returns
    returns true, and with a probe that answers and buffers of one
    length, a multiple of four, the run does return true. *)
Theorem unmasked_reference_mismatch openocd stm32 OptionBytesData file_path
    img k ref_k mask_k h d r :
  OptionBytesData file_path = Some img ->
  nth_error (reference img) k = Some ref_k ->
  nth_error (compare_mask img) k = Some mask_k ->
  Z.land (byte_to_Z ref_k) (Z.lnot (byte_to_Z mask_k)) <> 0 ->
  option_bytes_validate openocd stm32 OptionBytesData file_path h = (d, r) ->
  (forall b, r = Ok b -> b = true)
  /\ (answering openocd ->
      List.length (compare_mask img) = List.length (reference img) ->
      (List.length (reference img) mod 4 = 0)%nat ->
      r = Ok true).
Proof.
  intros Himg Hr Hm Hbit H.
  assert (Hret : forall b, r = Ok b -> b = true).
  { intros b ->. apply validate_ok in H.
    destruct H as (img' & ws & ob_compare & Himg' & _ & _ & _ & Hmask & ->).
    assert (img' = img) as -> by congruence.
    apply negb_true_iff. apply (mask_mismatch_iff _ _ _ _ Hmask).
    apply mask_ok in Hmask. destruct Hmask as (tail & _ & _ & Hk).
    assert (Hlt : (k < List.length (reference img))%nat)
      by (apply nth_error_Some; congruence).
    destruct (Hk k Hlt) as (x & m & Hx & Hm' & _). simpl in Hx, Hm'.
    assert (m = mask_k) as -> by congruence.
    exists k, x, mask_k, ref_k. repeat (split; [assumption |]).
    intros E. apply Hbit. rewrite <- E. apply land_masked_out. }
  split; [exact Hret |].
  intros Hans Hcm Hmod.
  destruct (validate_total _ _ _ _ _ _ _ _ Hans Himg Hcm Hmod H) as [b ->].
  rewrite (Hret b eq_refl). reflexivity.
Qed.

(** ** The diff table *)

Lemma hex_value_digit n : (n < 16)%N -> hex_value (hex_digit false n) = n.
Proof.
  intros H. rewrite <- (N2Nat.id n).
  assert (Hk : (N.to_nat n < 16)%nat) by lia.
  revert Hk. generalize (N.to_nat n). clear H. intros k Hk.
  do 16 (destruct k as [| k]; [reflexivity |]). lia.
Qed.

Lemma hex_byte_inj r d : hex_byte r = hex_byte d -> r = d.
Proof.
  unfold hex_byte, hex_hi, hex_lo. intros [= Hhi Hlo].
  pose proof (Byte.to_N_bounded r) as Hr. pose proof (Byte.to_N_bounded d) as Hd.
  apply (f_equal hex_value) in Hhi. apply (f_equal hex_value) in Hlo.
  rewrite !hex_value_digit in Hhi
    by (apply N.Div0.div_lt_upper_bound; lia).
  rewrite !hex_value_digit in Hlo by (apply N.mod_lt; lia).
  assert (E : Byte.to_N r = Byte.to_N d).
  { rewrite (N.div_mod' (Byte.to_N r) 16), (N.div_mod' (Byte.to_N d) 16). congruence. }
  pose proof (Byte.of_to_N r) as Hor. rewrite E, Byte.of_to_N in Hor. congruence.
Qed.

Lemma hex_byte_differ r d :
  r <> d ->
  String.eqb (String (hex_hi r) (String (hex_lo r) EmptyString))
             (String (hex_hi d) (String (hex_lo d) EmptyString)) = false.
Proof.
  intros H. apply String.eqb_neq. intros E. apply H, hex_byte_inj. exact E.
Qed.

Arguments hex_hi : simpl never.
Arguments hex_lo : simpl never.

(** C9.  For a pair of 8-byte chunks, reference and device, the diff table
    logs one row made of the two hex dumps and the two diff columns.  If
    the chunks are equal, both diff columns are eight times [__]; if
    exactly the byte at position [p] differs, each column shows the two hex
    digits of its own chunk's byte at position [p] and [__] at the seven
    other positions. *)
Theorem diff_columns (ref read : bytes) :
  List.length ref = 8%nat ->
  List.length read = 8%nat ->
  (forall lvl h,
     _ob_print_diff_table ref read (log lvl) h
     = ([Log lvl (ljust "Reference" 20 ++ " " ++ ljust "Device" 20 ++ " "
                  ++ ljust "Diff Reference" 20 ++ " " ++ ljust "Diff Device" 20);
         Log lvl (ljust (hex ref) 20 ++ " " ++ ljust (hex read) 20 ++ " "
                  ++ ljust (fst (diff_strs ref read)) 20 ++ " "
                  ++ ljust (snd (diff_strs ref read)) 20)], Ok tt))
  /\ (ref = read -> diff_strs ref read = (blanks 8, blanks 8))
  /\ (forall p,
        (forall k, k <> p -> nth_error ref k = nth_error read k) ->
        nth_error ref p <> nth_error read p ->
        exists r d,
          nth_error ref p = Some r /\ nth_error read p = Some d
          /\ diff_strs ref read
             = ((blanks p ++ hex [r] ++ blanks (7 - p))%string,
                (blanks p ++ hex [d] ++ blanks (7 - p))%string)).
Proof.
  intros Hr Hd.
  destruct ref as [| r0 [| r1 [| r2 [| r3 [| r4 [| r5 [| r6 [| r7 [| ? ?]]]]]]]]];
    try discriminate.
  destruct read as [| d0 [| d1 [| d2 [| d3 [| d4 [| d5 [| d6 [| d7 [| ? ?]]]]]]]]];
    try discriminate.
  clear Hr Hd. split; [| split].
  - intros lvl h. unfold _ob_print_diff_table, bind, log.
    change (range_step 0 (List.length [r0; r1; r2; r3; r4; r5; r6; r7]) 8)
      with [0%nat].
    cbn [for_each bind].
    change (slice [r0; r1; r2; r3; r4; r5; r6; r7] 0 (0 + 8))
      with [r0; r1; r2; r3; r4; r5; r6; r7].
    change (slice [d0; d1; d2; d3; d4; d5; d6; d7] 0 (0 + 8))
      with [d0; d1; d2; d3; d4; d5; d6; d7].
    unfold bind.
    destruct (diff_strs _ _) as [s1 s2]. reflexivity.
  - intros [= -> -> -> -> -> -> -> ->].
    unfold diff_strs. cbn -[String.eqb]. rewrite !String.eqb_refl. reflexivity.
  - intros p Hsame Hdiff.
    assert (E0 : p <> 0%nat -> r0 = d0)
      by (intros Hp; specialize (Hsame 0%nat (not_eq_sym Hp)); simpl in Hsame; congruence).
    assert (E1 : p <> 1%nat -> r1 = d1)
      by (intros Hp; specialize (Hsame 1%nat (not_eq_sym Hp)); simpl in Hsame; congruence).
    assert (E2 : p <> 2%nat -> r2 = d2)
      by (intros Hp; specialize (Hsame 2%nat (not_eq_sym Hp)); simpl in Hsame; congruence).
    assert (E3 : p <> 3%nat -> r3 = d3)
      by (intros Hp; specialize (Hsame 3%nat (not_eq_sym Hp)); simpl in Hsame; congruence).
    assert (E4 : p <> 4%nat -> r4 = d4)
      by (intros Hp; specialize (Hsame 4%nat (not_eq_sym Hp)); simpl in Hsame; congruence).
    assert (E5 : p <> 5%nat -> r5 = d5)
      by (intros Hp; specialize (Hsame 5%nat (not_eq_sym Hp)); simpl in Hsame; congruence).
    assert (E6 : p <> 6%nat -> r6 = d6)
      by (intros Hp; specialize (Hsame 6%nat (not_eq_sym Hp)); simpl in Hsame; congruence).
    assert (E7 : p <> 7%nat -> r7 = d7)
      by (intros Hp; specialize (Hsame 7%nat (not_eq_sym Hp)); simpl in Hsame; congruence).
    clear Hsame.
    do 8 (destruct p as [| p];
          [ repeat match goal with
                   | E : _ <> _ -> _ = _ |- _ =>
                       first [ specialize (E ltac:(discriminate)); subst
                             | clear E ]
                   end;
            simpl in Hdiff;
            eexists; eexists; split; [reflexivity |]; split; [reflexivity |];
            unfold diff_strs; cbn -[String.eqb];
            rewrite !String.eqb_refl;
            rewrite hex_byte_differ by congruence;
            reflexivity
          | ]).
    simpl in Hdiff. congruence.
Qed.

(** * The claims on concrete runs *)

Lemma quiet_answering : answering quiet.
Proof.
  intros h rq. destruct rq; simpl; auto. exists 0. split; [reflexivity | lia].
Qed.

Lemma patch_decision_witness :
  option_bytes_set (latching 0x5A) wb55 (only image_nibble) "ob.data" []
  = (nibble_trace, Ok true)
  /\ exists img lives,
       only image_nibble "ob.data" = Some img
       /\ List.length lives = (List.length (reference img) / 8)%nat
       /\ decisions nibble_trace =
          map (fun p : nat * Z =>
                 let (i, live) := p in
                 let writeMask_i :=
                   from_bytes_little (slice (write_mask img) (i * 8) (i * 8 + 4)) in
                 let compareMask_i :=
                   from_bytes_little (slice (compare_mask img) (i * 8) (i * 8 + 4)) in
                 let reference_i :=
                   from_bytes_little (slice (reference img) (i * 8) (i * 8 + 4)) in
                 (STM32WB55.OPTION_BYTE_BASE wb55 + Z.of_nat i * 8, live,
                  negb (Z.land (Z.lxor (Z.land live compareMask_i) reference_i)
                               writeMask_i =? 0)))
              (combine (seq 0 (List.length lives)) lives)
       /\ (forall live compareMask_i reference_i,
             negb (Z.land (Z.lxor (Z.land live compareMask_i) reference_i) 0 =? 0)
             = false).
Proof.
  split; [vm_compute; reflexivity |].
  apply (patch_decision (latching 0x5A) wb55 (only image_nibble) "ob.data" []
           nibble_trace true).
  vm_compute. reflexivity.
Defined.

Lemma patch_value_witness :
  option_bytes_set (latching 0x5A) wb55 (only image_nibble) "ob.data" []
  = (nibble_trace, Ok true)
  /\ In (0x58004020, 0xAA) (writes nibble_trace)
  /\ exists img i live,
       let writeMask_i := _unpack_u32 (write_mask img) (i * 8) in
       let reference_i := _unpack_u32 (reference img) (i * 8) in
       only image_nibble "ob.data" = Some img
       /\ (i < List.length (reference img) / 8)%nat
       /\ In (STM32WB55.OPTION_BYTE_BASE wb55 + Z.of_nat i * 8, live)
             (reads nibble_trace)
       /\ STM32WB55.option_bytes_id_to_address wb55 i = Some 0x58004020
       /\ 0xAA = Z.lor (Z.land live (Z.lnot writeMask_i))
                       (Z.land reference_i writeMask_i)
       /\ Z.land 0xAA (Z.lnot writeMask_i) = Z.land live (Z.lnot writeMask_i)
       /\ Z.land 0xAA writeMask_i = Z.land reference_i writeMask_i
       /\ (0 <= live < 2 ^ 32 ->
           0 <= 0xAA < 2 ^ 32
           /\ 0xAA = Z.lor (Z.land live (Z.lxor writeMask_i 0xFFFFFFFF))
                           (Z.land reference_i writeMask_i)).
Proof.
  split; [vm_compute; reflexivity |].
  split; [vm_compute; left; reflexivity |].
  apply (patch_value (latching 0x5A) wb55 (only image_nibble) "ob.data" []
           nibble_trace (Ok true) 0x58004020 0xAA).
  - vm_compute. reflexivity.
  - vm_compute. left. reflexivity.
Defined.

Lemma apply_iff_patched_witness :
  option_bytes_set (latching 0x5A) wb55 (only image_nibble) "ob.data" []
  = (nibble_trace, Ok true)
  /\ exists img lives,
       let needs i live :=
         needsPatch live (_unpack_u32 (compare_mask img) (i * 8))
                    (_unpack_u32 (reference img) (i * 8))
                    (_unpack_u32 (write_mask img) (i * 8)) in
       only image_nibble "ob.data" = Some img
       /\ List.length lives = (List.length (reference img) / 8)%nat
       /\ map snd (reads nibble_trace) = lives
       /\ (In RqOptionBytesApply (requests nibble_trace)
           <-> exists i live, nth_error lives i = Some live /\ needs i live = true)
       /\ (exists before,
             requests nibble_trace
             = before ++ [RqOptionBytesLoad; RqReset STM32WB55.Run; RqStop]
             /\ ~ In RqOptionBytesLoad before)
       /\ ((forall i live, nth_error lives i = Some live -> needs i live = false) ->
           writes nibble_trace = []
           /\ ~ In RqOptionBytesApply (requests nibble_trace)
           /\ In RqOptionBytesLoad (requests nibble_trace)
           /\ In (Log LInfo "Option Bytes are already correct") nibble_trace).
Proof.
  split; [vm_compute; reflexivity |].
  apply (apply_iff_patched (latching 0x5A) wb55 (only image_nibble) "ob.data" []
           nibble_trace true).
  vm_compute. reflexivity.
Defined.

Lemma unlock_order_witness :
  option_bytes_set (latching 0x5A) wb55 (only image_nibble) "ob.data" []
  = (nibble_trace, Ok true)
  /\ (forall n, nth_error (requests nibble_trace) n = Some RqOptionBytesUnlock ->
        n = 4%nat
        /\ nth_error (requests nibble_trace) 3 = Some RqFlashUnlock
        /\ nth_error (requests nibble_trace) 2 = Some RqClearFlashErrors)
  /\ (forall n, nth_error (requests nibble_trace) n = Some RqFlashUnlock ->
        n = 3%nat /\ nth_error (requests nibble_trace) 2 = Some RqClearFlashErrors)
  /\ (forall n, nth_error (requests nibble_trace) n = Some RqClearFlashErrors ->
        n = 2%nat)
  /\ ((exists b, Ok true = Ok b) ->
      nth_error (requests nibble_trace) 4 = Some RqOptionBytesUnlock).
Proof.
  split; [vm_compute; reflexivity |].
  apply (unlock_order (latching 0x5A) wb55 (only image_nibble) "ob.data" []
           nibble_trace (Ok true)).
  vm_compute. reflexivity.
Defined.

(** C6 as stated fails: with a writable bit of the reference outside the
    compare mask, the patch of the first run takes effect and the second
    run writes the register again. *)
Lemma second_run_patches_again :
  option_bytes_set (latching 0) wb55 (only image_uncompared) "ob.data" []
  = (uncompared_first, Ok true)
  /\ option_bytes_set (latching 0) wb55 (only image_uncompared) "ob.data"
       ([] ++ uncompared_first)
     = (uncompared_second, Ok true)
  /\ map snd (reads uncompared_second)
     = settled image_uncompared (map snd (reads uncompared_first))
  /\ writes uncompared_first = [(0x58004020, 1)]
  /\ writes uncompared_second = [(0x58004020, 1)]
  /\ decisions uncompared_second = [(0x1FFF8000, 1, true)]
  /\ writes uncompared_second <> [].
Proof. repeat split; try (vm_compute; reflexivity). discriminate. Qed.

Lemma second_run_idempotent_witness :
  only image_masked "ob.data" = Some image_masked
  /\ (forall i, (i < List.length (reference image_masked) / 8)%nat ->
        Z.land (Z.land (reference_ image_masked i) (writeMask_ image_masked i))
               (Z.lnot (compareMask_ image_masked i)) = 0)
  /\ option_bytes_set (latching 0x5A) wb55 (only image_masked) "ob.data" []
     = (masked_first, Ok true)
  /\ option_bytes_set (latching 0x5A) wb55 (only image_masked) "ob.data"
       ([] ++ masked_first)
     = (masked_second, Ok true)
  /\ map snd (reads masked_second)
     = settled image_masked (map snd (reads masked_first))
  /\ writes masked_first = [(0x58004020, 0xAA)]
  /\ (forall i live, nth_error (map snd (reads masked_second)) i = Some live ->
        needsPatch live (compareMask_ image_masked i) (reference_ image_masked i)
                   (writeMask_ image_masked i) = false)
  /\ writes masked_second = []
  /\ ~ In RqOptionBytesApply (requests masked_second).
Proof.
  assert (Hmask : forall i, (i < List.length (reference image_masked) / 8)%nat ->
            Z.land (Z.land (reference_ image_masked i) (writeMask_ image_masked i))
                   (Z.lnot (compareMask_ image_masked i)) = 0).
  { intros i Hi. change (i < 1)%nat in Hi.
    destruct i as [| i]; [vm_compute; reflexivity | lia]. }
  split; [reflexivity |]. split; [exact Hmask |].
  split; [vm_compute; reflexivity |]. split; [vm_compute; reflexivity |].
  split; [vm_compute; reflexivity |]. split; [vm_compute; reflexivity |].
  apply (second_run_idempotent (latching 0x5A) wb55 (only image_masked) "ob.data" []
           image_masked masked_first true masked_second true).
  - reflexivity.
  - exact Hmask.
  - vm_compute. reflexivity.
  - vm_compute. reflexivity.
  - vm_compute. reflexivity.
Defined.

Lemma validate_mismatch_iff_witness :
  option_bytes_validate quiet wb55 (only image_zero) "ob.data" []
  = (zero_validation, Ok false)
  /\ (forall b, Ok false = Ok b ->
       exists img,
         let deviceByte := flat_map (little_digits 4) (map snd (reads zero_validation)) in
         let mismatch k :=
           exists x m ref_k,
             nth_error deviceByte k = Some x
             /\ nth_error (compare_mask img) k = Some m
             /\ nth_error (reference img) k = Some ref_k
             /\ Z.land (byte_to_Z x) (byte_to_Z m) <> byte_to_Z ref_k in
         only image_zero "ob.data" = Some img
         /\ map fst (reads zero_validation)
            = map (fun j => STM32WB55.OPTION_BYTE_BASE wb55 + Z.of_nat j * 4)
                  (seq 0 (List.length (reference img) / 4))
         /\ Forall (fun w => 0 <= w < 2 ^ 32
                             /\ from_bytes_little (little_digits 4 w) = w)
                   (map snd (reads zero_validation))
         /\ (b = true <-> exists k, mismatch k)
         /\ (b = false <-> forall k, ~ mismatch k))
  /\ (forall img,
        answering quiet ->
        only image_zero "ob.data" = Some img ->
        List.length (compare_mask img) = List.length (reference img) ->
        (List.length (reference img) mod 4 = 0)%nat ->
        exists b, Ok false = Ok b).
Proof.
  split; [vm_compute; reflexivity |].
  apply (validate_mismatch_iff quiet wb55 (only image_zero) "ob.data" []
           zero_validation (Ok false)).
  vm_compute. reflexivity.
Defined.

(** C8 as stated fails: a probe call that raises after the session was
    started ends the operation with the session still open. *)
Lemma stop_skipped_on_error :
  option_bytes_validate deaf wb55 (only image_zero) "ob.data" []
  = ([Call RqStart (Returns PyNone);
      Call (RqReset STM32WB55.Init) (Returns PyNone);
      Call (RqRead32 0x1FFF8000) Raises], Err ProbeError)
  /\ ~ stop_completed [Call RqStart (Returns PyNone);
                       Call (RqReset STM32WB55.Init) (Returns PyNone);
                       Call (RqRead32 0x1FFF8000) Raises]
  /\ ~ In RqStop (requests [Call RqStart (Returns PyNone);
                            Call (RqReset STM32WB55.Init) (Returns PyNone);
                            Call (RqRead32 0x1FFF8000) Raises])
  /\ (exists d, option_bytes_set deaf wb55 (only image_zero) "ob.data" []
                = (d, Err ProbeError)
                /\ In RqStart (requests d) /\ ~ In RqStop (requests d))
  /\ (exists d, otp_write mute 0x1FFF7000 [] [] = (d, Err ProbeError)
                /\ In RqStart (requests d) /\ ~ In RqStop (requests d)).
Proof.
  split; [vm_compute; reflexivity |]. split; [| split; [| split]].
  - intros [v Hin]. simpl in Hin.
    repeat (destruct Hin as [Hin | Hin]; [discriminate |]). exact Hin.
  - simpl. intros Hin.
    repeat (destruct Hin as [Hin | Hin]; [discriminate |]). exact Hin.
  - eexists. split; [vm_compute; reflexivity |]. split; [simpl; auto |].
    simpl. intros Hin.
    repeat (destruct Hin as [Hin | Hin]; [discriminate |]). exact Hin.
  - eexists. split; [vm_compute; reflexivity |]. split; [simpl; auto |].
    simpl. intros Hin.
    repeat (destruct Hin as [Hin | Hin]; [discriminate |]). exact Hin.
Qed.

Lemma stop_iff_returns_witness :
  (option_bytes_validate stuck wb55 (only image_zero) "ob.data" []
   = (stuck_validation, Err ProbeError)
   \/ option_bytes_set stuck wb55 (only image_zero) "ob.data" []
      = (stuck_validation, Err ProbeError)
   \/ otp_write stuck 0x1FFF7000 [] [] = (stuck_validation, Err ProbeError))
  /\ (stop_completed stuck_validation
      <-> exists b, (Err ProbeError : result bool) = Ok b)
  /\ (In RqStop (requests stuck_validation) ->
      (exists b, (Err ProbeError : result bool) = Ok b)
      \/ In (Call RqStop Raises) stuck_validation)
  /\ (In (Call RqStop Raises) stuck_validation ->
      (Err ProbeError : result bool) = Err ProbeError)
  /\ (forall e, (Err ProbeError : result bool) = Err e ->
        ~ In (Call RqStop Raises) stuck_validation ->
        ~ In RqStop (requests stuck_validation)).
Proof.
  assert (H : option_bytes_validate stuck wb55 (only image_zero) "ob.data" []
              = (stuck_validation, Err ProbeError)
              \/ option_bytes_set stuck wb55 (only image_zero) "ob.data" []
                 = (stuck_validation, Err ProbeError)
              \/ otp_write stuck 0x1FFF7000 [] []
                 = (stuck_validation, Err ProbeError))
    by (left; vm_compute; reflexivity).
  split; [exact H |].
  exact (stop_iff_returns stuck wb55 (only image_zero) "ob.data" 0x1FFF7000 [] []
           stuck_validation (Err ProbeError) H).
Defined.

Lemma diff_columns_witness :
  List.length [xaa; x00; x00; x00; x00; x00; x00; x00] = 8%nat
  /\ List.length [xaa; x00; x01; x00; x00; x00; x00; x00] = 8%nat
  /\ diff_strs [xaa; x00; x00; x00; x00; x00; x00; x00]
               [xaa; x00; x01; x00; x00; x00; x00; x00]
     = ("____00__________", "____01__________")
  /\ exists r d,
       nth_error [xaa; x00; x00; x00; x00; x00; x00; x00] 2 = Some r
       /\ nth_error [xaa; x00; x01; x00; x00; x00; x00; x00] 2 = Some d
       /\ diff_strs [xaa; x00; x00; x00; x00; x00; x00; x00]
                    [xaa; x00; x01; x00; x00; x00; x00; x00]
          = ((blanks 2 ++ hex [r] ++ blanks (7 - 2))%string,
             (blanks 2 ++ hex [d] ++ blanks (7 - 2))%string).
Proof.
  split; [reflexivity |]. split; [reflexivity |]. split; [vm_compute; reflexivity |].
  apply (diff_columns [xaa; x00; x00; x00; x00; x00; x00; x00]
           [xaa; x00; x01; x00; x00; x00; x00; x00] eq_refl eq_refl).
  - intros k Hk.
    do 8 (destruct k as [| k]; [first [reflexivity | contradiction Hk; reflexivity] |]).
    reflexivity.
  - discriminate.
Defined.

Lemma unmasked_reference_mismatch_witness :
  only image_nibble "ob.data" = Some image_nibble
  /\ nth_error (reference image_nibble) 0 = Some xaa
  /\ nth_error (compare_mask image_nibble) 0 = Some xf0
  /\ Z.land (byte_to_Z xaa) (Z.lnot (byte_to_Z xf0)) <> 0
  /\ option_bytes_validate quiet wb55 (only image_nibble) "ob.data" []
     = (nibble_validation, Ok true)
  /\ (forall b, Ok true = Ok b -> b = true)
  /\ (answering quiet ->
      List.length (compare_mask image_nibble) = List.length (reference image_nibble) ->
      (List.length (reference image_nibble) mod 4 = 0)%nat ->
      Ok true = Ok true).
Proof.
  assert (Hbit : Z.land (byte_to_Z xaa) (Z.lnot (byte_to_Z xf0)) <> 0)
    by (vm_compute; discriminate).
  split; [reflexivity |]. split; [reflexivity |]. split; [reflexivity |].
  split; [exact Hbit |]. split; [vm_compute; reflexivity |].
  apply (unmasked_reference_mismatch quiet wb55 (only image_nibble) "ob.data"
           image_nibble 0 xaa xf0 [] nibble_validation (Ok true)).
  - reflexivity.
  - reflexivity.
  - reflexivity.
  - exact Hbit.
  - vm_compute. reflexivity.
Defined.

(** * Further properties of the programmer *)

(** ** Scripts *)

Lemma follows_all tail script : follows tail script script.
Proof.
  induction script as [| rq script IH].
  - apply follows_cut.
  - apply follows_next. exact IH.
Qed.

(** A run that follows a script with nothing after it has issued a prefix
    of the script. *)
Lemma follows_prefix script l :
  follows no_request script l -> exists rest, script = l ++ rest.
Proof.
  induction 1 as [script | rq script l _ [rest ->] | l Hl].
  - exists script. reflexivity.
  - exists rest. reflexivity.
  - destruct l as [| rq l]; [exists []; reflexivity |].
    apply Forall_cons_iff in Hl. destruct Hl as [[] _].
Qed.

Ltac script_followed :=
  repeat (rewrite ?requests_call, ?requests_log);
  repeat (apply follows_next);
  first [apply follows_cut | apply follows_tail; constructor].

(** X1.  [flash]: when the file does not exist the call raises "File ...
    not found" without any probe interaction.  When it exists, any run
    issues a prefix of start, [init], the program command and stop, in
    this order, and nothing else; it logs nothing; the stop completes
    exactly when the run returns, and a run that returns has issued the
    four requests and returns true. *)
Theorem flash_session openocd path_exists address file_path verify h :
  let run := flash openocd path_exists address file_path verify h in
  (path_exists file_path = false ->
   run = ([], Err (Exception ("File " ++ file_path ++ " not found"))))
  /\ (path_exists file_path = true ->
      follows no_request (flash_script address file_path verify)
              (requests (fst run))
      /\ logs (fst run) = []
      /\ (stop_completed (fst run) <-> exists b, snd run = Ok b)
      /\ (forall b, snd run = Ok b ->
            b = true
            /\ requests (fst run) = flash_script address file_path verify)).
Proof.
  cbv zeta. unfold flash. split; intros Hp; rewrite Hp; [reflexivity |].
  cbn [negb].
  destruct (bind _ _ h) as [d r] eqn:H. cbn [fst snd].
  rewrite stop_completed_iff. unfold flash_script, program_command.
  run H.
  all: split; [script_followed |].
  all: split; [reflexivity |].
  all: split;
    [split; [try discriminate; eauto | intros [b Hb]; try discriminate; reflexivity] |].
  all: intros b Hb; try discriminate; injection Hb as <-; split; reflexivity.
Qed.

(** X2.  [otp_write]: any run issues a prefix of one fixed script and
    nothing else: start, reset to halt, clear flash errors, two memory
    dumps, the two flash writes of the fixed words 0x12345678/0x9ABCDEF1
    at [address] and 0x9ABCDEF1/0x12345678 at [address + 8], two dumps
    again, reset to run, stop.  The [data] argument is never used.  A run
    that returns has issued the whole script, returns true and has logged
    the four dumps stripped, at info level; a run that raises ends with
    the probe's error or, when a dump is not text, an AttributeError. *)
Theorem otp_write_script openocd address data h d r :
  otp_write openocd address data h = (d, r) ->
  follows no_request (otp_script address) (requests d)
  /\ (forall b, r = Ok b ->
        b = true
        /\ requests d = otp_script address
        /\ logs d = map (fun s => (LInfo, strip s)) (tcl_replies d)
        /\ List.length (logs d) = 4%nat)
  /\ (forall e, r = Err e -> e = ProbeError \/ e = AttributeError).
Proof.
  unfold otp_write, otp_script. intros H. run H.
  all: repeat match goal with
         | Hx : as_str ?v = _ |- _ => destruct v; simpl in Hx; try discriminate;
                                      try (injection Hx as <-)
         end.
  all: split; [script_followed |].
  all: split; [intros b Hb; try discriminate; injection Hb as <-;
               repeat split; reflexivity |].
  all: intros e He; try discriminate; injection He as <-; auto.
Qed.

(** ** Words in byte buffers *)

Lemma slice_length {A} (data : list A) a b :
  List.length (slice data a b) = Nat.min (b - a) (List.length data - a).
Proof. unfold slice. rewrite length_firstn, length_skipn. reflexivity. Qed.

Lemma slice_middle {A} (pre word post : list A) :
  slice (pre ++ word ++ post) (List.length pre)
        (List.length pre + List.length word) = word.
Proof.
  unfold slice. rewrite skipn_app, Nat.sub_diag, skipn_all. simpl.
  replace (List.length pre + List.length word - List.length pre)%nat
    with (List.length word + 0)%nat by lia.
  rewrite firstn_app_2. simpl. apply app_nil_r.
Qed.

(** X3.  [_unpack_u32] never raises and never leaves 32 bits: it reads the
    bytes that exist among the four at [offset], so fewer than four bytes
    give a smaller number, and an offset at or past the end gives 0. *)
Theorem unpack_u32_bounds data offset :
  0 <= _unpack_u32 data offset
       < 256 ^ Z.of_nat (Nat.min 4 (List.length data - offset))
  /\ _unpack_u32 data offset < 2 ^ 32
  /\ ((List.length data <= offset)%nat -> _unpack_u32 data offset = 0).
Proof.
  unfold _unpack_u32.
  pose proof (from_bytes_little_range (slice data offset (offset + 4))) as H.
  rewrite slice_length in H.
  replace (offset + 4 - offset)%nat with 4%nat in H by lia.
  split; [exact H |]. split.
  - assert (256 ^ Z.of_nat (Nat.min 4 (List.length data - offset)) <= 256 ^ 4)
      by (apply Z.pow_le_mono_r; lia).
    change (2 ^ 32) with (256 ^ 4). lia.
  - intros Hlen.
    replace (List.length data - offset)%nat with 0%nat in H by lia.
    simpl in H. lia.
Qed.

(** X4.  [_unpack_u32] undoes [to_bytes(4, "little")]: a word written as
    four little-endian bytes anywhere in a buffer is read back unchanged at
    that offset. *)
Theorem unpack_u32_roundtrip pre post v word :
  to_bytes_little v 4 = Ok word ->
  _unpack_u32 (pre ++ word ++ post) (List.length pre) = v.
Proof.
  unfold to_bytes_little.
  destruct ((0 <=? v) && (v <? 256 ^ Z.of_nat 4)) eqn:Hr; [| discriminate].
  intros [= <-]. apply andb_true_iff in Hr. destruct Hr as [H0 H1].
  apply Z.leb_le in H0. apply Z.ltb_lt in H1.
  unfold _unpack_u32.
  replace (List.length pre + 4)%nat
    with (List.length pre + List.length (little_digits 4 v))%nat
    by (rewrite little_digits_length; reflexivity).
  rewrite slice_middle. apply little_digits_roundtrip. lia.
Qed.

(** ** The diff table, in general *)

Lemma str_app_assoc (a b c : string) : ((a ++ b) ++ c = a ++ (b ++ c))%string.
Proof. induction a as [| x a IH]; simpl; [reflexivity | rewrite IH; reflexivity]. Qed.

Lemma str_app_nil_r (a : string) : (a ++ "")%string = a.
Proof. induction a as [| x a IH]; simpl; [reflexivity | rewrite IH; reflexivity]. Qed.

Lemma str_app_length (a b : string) :
  String.length (a ++ b) = (String.length a + String.length b)%nat.
Proof. induction a as [| x a IH]; simpl; [reflexivity | rewrite IH; reflexivity]. Qed.

(** The characters of a hex dump. *)
Lemma hex_chars data :
  list_ascii_of_string (hex data) = flat_map (fun b => [hex_hi b; hex_lo b]) data.
Proof.
  induction data as [| b data IH]; [reflexivity |].
  cbn [hex flat_map]. unfold hex_byte. cbn [String.append list_ascii_of_string app].
  rewrite IH. reflexivity.
Qed.

Lemma hex_length data : String.length (hex data) = (2 * List.length data)%nat.
Proof.
  induction data as [| b data IH]; [reflexivity |].
  cbn [hex]. unfold hex_byte. cbn [String.append String.length List.length].
  rewrite IH. lia.
Qed.

Lemma skipn_hex_chars k : forall data : bytes,
  skipn (k * 2) (flat_map (fun b => [hex_hi b; hex_lo b]) data)
  = flat_map (fun b => [hex_hi b; hex_lo b]) (skipn k data).
Proof.
  induction k as [| k IH]; intros data; [reflexivity |].
  destruct data as [| b data]; [reflexivity |].
  cbn [Nat.mul Nat.add flat_map app skipn]. apply IH.
Qed.

Lemma skipn_nth {A} (l : list A) k x :
  nth_error l k = Some x -> skipn k l = x :: skipn (S k) l.
Proof.
  revert l. induction k as [| k IH]; intros [| y l] H; try discriminate.
  - injection H as ->. reflexivity.
  - simpl in H. apply IH in H. exact H.
Qed.

(** The pair of digits the loop cuts out at position [k]. *)
Lemma hex_pair_at data k :
  str_slice (hex data) (0 + k * 2) (0 + k * 2 + 2)
  = match nth_error data k with
    | Some b => hex_byte b
    | None => EmptyString
    end.
Proof.
  unfold str_slice, slice. rewrite hex_chars.
  replace (0 + k * 2 + 2 - (0 + k * 2))%nat with 2%nat by lia.
  cbn [Nat.add]. rewrite skipn_hex_chars.
  destruct (nth_error data k) as [b |] eqn:E.
  - rewrite (skipn_nth _ _ _ E). reflexivity.
  - apply nth_error_None in E. rewrite skipn_all2 by exact E. reflexivity.
Qed.

Lemma hex_byte_eqb r d :
  String.eqb (hex_byte r) (hex_byte d) = Byte.eqb r d.
Proof.
  destruct (Byte.eqb r d) eqn:E.
  - apply Byte.byte_dec_bl in E. subst. apply String.eqb_refl.
  - apply hex_byte_differ. intros ->.
    rewrite (Byte.byte_dec_lb eq_refl) in E. discriminate.
Qed.

Lemma range_step_pairs n :
  range_step 0 (2 * n) 2 = map (fun k => (0 + k * 2)%nat) (seq 0 n).
Proof.
  unfold range_step. f_equal. f_equal.
  replace (2 * n - 0 + 2 - 1)%nat with (1 + n * 2)%nat by lia.
  rewrite Nat.div_add by lia. reflexivity.
Qed.

(** The loop of [diff_strs] from position [k] on. *)
Lemma diff_loop ref read m : forall k a1 a2,
  (k + m = List.length ref)%nat ->
  fold_left
    (fun (acc : string * string) (j : nat) =>
       let (diff_str1, diff_str2) := acc in
       let byte_str_1 := str_slice (hex ref) j (j + 2) in
       let byte_str_2 := str_slice (hex read) j (j + 2) in
       if String.eqb byte_str_1 byte_str_2
       then ((diff_str1 ++ "__")%string, (diff_str2 ++ "__")%string)
       else ((diff_str1 ++ byte_str_1)%string, (diff_str2 ++ byte_str_2)%string))
    (map (fun k => (0 + k * 2)%nat) (seq k m)) (a1, a2)
  = ((a1 ++ fst (diff_columns_of (skipn k ref) (skipn k read)))%string,
     (a2 ++ snd (diff_columns_of (skipn k ref) (skipn k read)))%string).
Proof.
  induction m as [| m IH]; intros k a1 a2 Hk.
  - rewrite skipn_all2 by lia. simpl. rewrite !str_app_nil_r. reflexivity.
  - cbn [seq map fold_left]. rewrite !hex_pair_at.
    destruct (nth_error ref k) as [r |] eqn:Er;
      [| apply nth_error_None in Er; lia].
    rewrite (skipn_nth _ _ _ Er).
    destruct (nth_error read k) as [d |] eqn:Ed.
    + rewrite (skipn_nth _ _ _ Ed). cbn [diff_columns_of tl].
      rewrite hex_byte_eqb.
      destruct (diff_columns_of (skipn (S k) ref) (skipn (S k) read))
        as [c1 c2] eqn:Ec.
      destruct (Byte.eqb r d); rewrite IH by lia; rewrite Ec; cbn [fst snd];
        rewrite !str_app_assoc; reflexivity.
    + apply nth_error_None in Ed.
      rewrite (skipn_all2 (n := k)) by exact Ed. cbn [diff_columns_of tl].
      destruct (diff_columns_of (skipn (S k) ref) []) as [c1 c2] eqn:Ec.
      replace (String.eqb (hex_byte r) "") with false by reflexivity.
      rewrite IH by lia.
      replace (skipn (S k) read) with (@nil byte)
        by (symmetry; apply skipn_all2; lia).
      rewrite Ec. cbn [fst snd].
      rewrite str_app_assoc, str_app_nil_r. reflexivity.
Qed.

Lemma diff_columns_of_length ref : forall read,
  String.length (fst (diff_columns_of ref read)) = (2 * List.length ref)%nat
  /\ (List.length ref <= List.length read ->
      String.length (snd (diff_columns_of ref read)) = 2 * List.length ref)%nat.
Proof.
  induction ref as [| r ref IH]; intros read; [simpl; auto |].
  cbn [diff_columns_of].
  destruct (IH (tl read)) as [H1 H2].
  destruct (diff_columns_of ref (tl read)) as [c1 c2]. cbn [fst snd] in *.
  destruct read as [| d read]; cbn [tl List.length] in *.
  - cbn [fst snd]. unfold hex_byte. cbn [String.append String.length].
    split; [lia | intros; lia].
  - destruct (Byte.eqb r d); cbn [fst snd]; unfold hex_byte;
      cbn [String.append String.length];
      (split; [lia | intros Hl; rewrite H2 by lia; lia]).
Qed.

(** X5.  The diff columns of [_ob_print_diff_table], for chunks of any
    length: position by position, a blank pair [__] where the two bytes
    agree and each side's own hex pair where they differ; a reference byte
    with no device byte shows its hex pair against nothing, and device
    bytes beyond the reference are not shown.  The reference column is
    always two characters per reference byte, and so is the device column
    when the device chunk is at least as long. *)
Theorem diff_strs_positionwise ref read :
  diff_strs ref read = diff_columns_of ref read
  /\ String.length (fst (diff_strs ref read)) = (2 * List.length ref)%nat
  /\ (List.length ref <= List.length read ->
      String.length (snd (diff_strs ref read)) = 2 * List.length ref)%nat.
Proof.
  assert (E : diff_strs ref read = diff_columns_of ref read).
  { unfold diff_strs. rewrite hex_length, range_step_pairs.
    etransitivity;
      [apply (diff_loop ref read (List.length ref) 0 "" ""); reflexivity |].
    cbn [skipn String.append]. destruct (diff_columns_of ref read). reflexivity. }
  rewrite E. split; [reflexivity |]. apply diff_columns_of_length.
Qed.

(** What the diff table adds to the trace. *)
Lemma diff_table_run ob_reference ob_read lvl h :
  _ob_print_diff_table ob_reference ob_read (log lvl) h
  = (Log lvl table_header
       :: map (fun i => Log lvl (table_row ob_reference ob_read i))
              (range_step 0 (List.length ob_reference) 8),
     Ok tt).
Proof.
  unfold _ob_print_diff_table.
  assert (Hrows : forall l (u : unit) h,
    for_each l
      (fun i (_ : unit) =>
         let (diff_str1, diff_str2) :=
           diff_strs (slice ob_reference i (i + 8)) (slice ob_read i (i + 8)) in
         log lvl (ljust (hex (slice ob_reference i (i + 8))) 20 ++ " "
                  ++ ljust (hex (slice ob_read i (i + 8))) 20 ++ " "
                  ++ ljust diff_str1 20 ++ " " ++ ljust diff_str2 20)%string)
      u h
    = (map (fun i => Log lvl (table_row ob_reference ob_read i)) l, Ok tt)).
  { induction l as [| i l IH]; intros [] h'; [reflexivity |].
    cbn [for_each map]. unfold bind at 1. unfold table_row at 1.
    destruct (diff_strs _ _) as [s1 s2]. unfold log at 1. cbn [fst snd].
    rewrite IH. reflexivity. }
  unfold bind, log at 1. rewrite Hrows. reflexivity.
Qed.

Lemma range_step_length stop step :
  List.length (range_step 0 stop step) = ((stop + step - 1) / step)%nat.
Proof.
  unfold range_step. rewrite length_map, length_seq, Nat.sub_0_r. reflexivity.
Qed.

(** X6.  [_ob_print_diff_table] never raises and never touches the probe:
    whatever the two buffers, it prints the header and then one row per
    started group of eight reference bytes, through the print function it
    was given; an empty reference gives the header alone, and the device
    buffer does not change the number of rows. *)
Theorem diff_table_output ob_reference ob_read lvl h :
  _ob_print_diff_table ob_reference ob_read (log lvl) h
  = (Log lvl table_header
       :: map (fun i => Log lvl (table_row ob_reference ob_read i))
              (range_step 0 (List.length ob_reference) 8),
     Ok tt)
  /\ List.length (fst (_ob_print_diff_table ob_reference ob_read (log lvl) h))
     = (1 + (List.length ob_reference + 7) / 8)%nat
  /\ requests (fst (_ob_print_diff_table ob_reference ob_read (log lvl) h)) = []
  /\ (ob_reference = [] ->
      fst (_ob_print_diff_table ob_reference ob_read (log lvl) h)
      = [Log lvl table_header]).
Proof.
  rewrite diff_table_run. cbn [fst]. split; [reflexivity |]. split; [| split].
  - cbn [List.length]. rewrite length_map, range_step_length.
    replace (List.length ob_reference + 8 - 1)%nat
      with (List.length ob_reference + 7)%nat by lia.
    reflexivity.
  - rewrite requests_log. induction (range_step 0 (List.length ob_reference) 8);
      [reflexivity | exact IHl].
  - intros ->. reflexivity.
Qed.

(** ** More on [option_bytes_validate] *)

Lemma logs_app t1 t2 : logs (t1 ++ t2) = logs t1 ++ logs t2.
Proof. apply flat_map_app. Qed.

Lemma logs_call rq rp t : logs (Call rq rp :: t) = logs t.
Proof. reflexivity. Qed.

Lemma logs_log l m t : logs (Log l m :: t) = (l, m) :: logs t.
Proof. reflexivity. Qed.

Lemma logs_map_log {A} lvl (row : A -> string) (l : list A) :
  logs (map (fun i => Log lvl (row i)) l) = map (fun i => (lvl, row i)) l.
Proof.
  induction l as [| i l IH]; [reflexivity |].
  cbn [map]. rewrite logs_log. f_equal. exact IH.
Qed.

Lemma writes_call_read a rp t : writes (Call (RqRead32 a) rp :: t) = writes t.
Proof. reflexivity. Qed.

Lemma mask_fails ob_read cm n : forall a acc,
  (a <= List.length ob_read)%nat -> (a <= List.length cm)%nat ->
  (List.length ob_read < a + n \/ List.length cm < a + n)%nat ->
  for_each_r (seq a n) (mask_body ob_read cm) acc = Err IndexError.
Proof.
  induction n as [| n IH]; intros a acc Hr Hc Hn; [lia |].
  cbn [seq for_each_r]. unfold mask_body at 1, index.
  destruct (nth_error ob_read a) as [x |] eqn:Hx; [| reflexivity].
  destruct (nth_error cm a) as [m |] eqn:Hm; [| reflexivity].
  cbn [bindR]. rewrite bytes1_land. cbn [bindR].
  assert (a < List.length ob_read)%nat by (apply nth_error_Some; congruence).
  assert (a < List.length cm)%nat by (apply nth_error_Some; congruence).
  apply IH; lia.
Qed.

Lemma mask_errors ob_read cm l : forall acc e,
  for_each_r l (mask_body ob_read cm) acc = Err e -> e = IndexError.
Proof.
  induction l as [| i l IH]; intros acc e H; [discriminate |].
  cbn [for_each_r] in H. unfold mask_body at 1, index in H.
  destruct (nth_error ob_read i) as [x |]; [| injection H as <-; reflexivity].
  destruct (nth_error cm i) as [m |]; [| injection H as <-; reflexivity].
  cbn [bindR] in H. rewrite bytes1_land in H. cbn [bindR] in H.
  eapply IH. exact H.
Qed.

Lemma log_requests t : forallb is_log t = true -> requests t = [].
Proof.
  induction t as [| e t IH]; simpl; [reflexivity |].
  intros H. apply andb_true_iff in H. destruct H as [He Ht].
  destruct e; [discriminate | exact (IH Ht)].
Qed.

Section ValidateMore.

Variable openocd : probe.
Variable stm32 : STM32WB55.t.
Variable OptionBytesData : string -> option OptionBytesValues.

Let base := STM32WB55.OPTION_BYTE_BASE stm32.

Let read_body (i : nat) (ob_read : bytes) : M bytes :=
  bind (call openocd (RqRead32 (base + Z.of_nat i * 4)))
       (fun value => bind (lift (to_bytes value 4))
                          (fun word => ret (ob_read ++ word))).

(** However the read loop ends: it only reads, at consecutive word
    addresses, and it can fail only on the probe, on a reply that is not
    an int and so has no [to_bytes], or on a value that does not fit four
    bytes. *)
Lemma validate_read_any n : forall a acc h d r,
  for_each (seq a n) read_body acc h = (d, r) ->
  Forall validate_request (requests d)
  /\ writes d = []
  /\ logs d = []
  /\ existsb is_stop d = false
  /\ map fst (reads d)
     = map (fun j => base + Z.of_nat j * 4) (seq a (List.length (reads d)))
  /\ (List.length (reads d) <= n)%nat
  /\ (forall e, r = Err e ->
        e = ProbeError \/ e = AttributeError \/ e = OverflowError).
Proof.
  induction n as [| n IH]; intros a acc h d r H; cbn [seq for_each] in H.
  - step H. repeat split; try reflexivity; try constructor. discriminate.
  - apply bind_inv in H.
    destruct H as [(e & Hb & ->) | (d1 & s' & d2 & Hb & Hl & ->)].
    + unfold read_body in Hb. step Hb.
      * repeat split; try reflexivity; simpl; try lia;
          [repeat constructor | intros e' [= <-]; auto].
      * step Hb. destruct v as [| z |]; cbn [to_bytes] in Hx.
        -- injection Hx as <-.
           repeat split; try reflexivity; simpl; try lia;
             [repeat constructor | intros e' [= <-]; auto].
        -- unfold to_bytes_little in Hx.
           destruct ((0 <=? z) && (z <? 256 ^ Z.of_nat 4)); [discriminate |].
           injection Hx as <-.
           repeat split; try reflexivity; simpl; try lia;
             [repeat constructor | intros e' [= <-]; auto].
        -- injection Hx as <-.
           repeat split; try reflexivity; simpl; try lia;
             [repeat constructor | intros e' [= <-]; auto].
    + unfold read_body in Hb. step Hb. step Hb. step Hb.
      destruct v as [| z |]; cbn [to_bytes] in Hx; try discriminate.
      apply IH in Hl.
      destruct Hl as (Hrq & Hw & Hlg & Hst & Hrd & Hlen & Herr).
      cbn [app]. rewrite requests_call, writes_call_read, logs_call.
      repeat split; try assumption.
      * constructor; [exact I | exact Hrq].
      * cbn [reads flat_map app List.length seq map fst].
        fold (reads d2). rewrite Hrd. reflexivity.
      * cbn [reads flat_map app List.length]. fold (reads d2). lia.
Qed.

(** X7.  [option_bytes_validate] is read-only: in any run, however it
    ends, the requests are start, the reset to halt, then only register
    reads, the reset to run and the stop; no register is written and
    nothing is unlocked, committed or reloaded.  The reads go through
    consecutive words from [OPTION_BYTE_BASE] on. *)
Theorem validate_read_only file_path h d r :
  option_bytes_validate openocd stm32 OptionBytesData file_path h = (d, r) ->
  follows validate_request [RqStart; RqReset STM32WB55.Init] (requests d)
  /\ writes d = []
  /\ map fst (reads d)
     = map (fun j => STM32WB55.OPTION_BYTE_BASE stm32 + Z.of_nat j * 4)
           (seq 0 (List.length (reads d))).
Proof.
  unfold option_bytes_validate. intros H. run H.
  all: try (repeat split; try reflexivity; script_followed; fail).
  all: repeat match goal with
         | Hl : for_each _ _ _ _ = (_, _) |- _ =>
             apply validate_read_any in Hl;
             destruct Hl as (Hrq & Hw & Hlg & Hst & Hrd & Hlen & Herr)
         | Hl : _ob_print_diff_table _ _ _ _ = (_, _) |- _ =>
             apply diff_table_events in Hl;
             let Hlog := fresh "Hlog" in
             destruct Hl as [Hlog ?];
             pose proof (log_requests _ Hlog);
             pose proof (still_reads _ (log_still_event _ Hlog));
             pose proof (still_writes _ (log_still_event _ Hlog))
         end.
  all: try discriminate.
  all: repeat (rewrite ?requests_call, ?requests_log, ?requests_app).
  all: repeat (rewrite ?writes_still by reflexivity).
  all: repeat (rewrite ?reads_still by reflexivity).
  all: repeat (rewrite ?writes_app, ?reads_app).
  all: repeat (rewrite ?writes_still by reflexivity).
  all: repeat (rewrite ?reads_still by reflexivity).
  all: repeat (rewrite ?writes_app, ?reads_app).
  all: repeat (rewrite ?writes_still by reflexivity).
  all: repeat (rewrite ?reads_still by reflexivity).
  all: repeat match goal with
         | E : requests _ = [] |- _ => rewrite E
         | E : writes _ = [] |- _ => rewrite E
         | E : reads ?t = [] |- context [reads ?t] => rewrite E
         end.
  all: change (reads []) with (@nil (Z * Z)); change (writes []) with (@nil (Z * Z)).
  all: rewrite ?app_nil_r.
  all: split; [repeat (apply follows_next); apply follows_tail;
               rewrite ?Forall_app; repeat split; try assumption;
               repeat constructor |].
  all: try (split; [reflexivity | assumption]).
Qed.

(** X8.  What [option_bytes_validate] logs in a run that returns: when it
    returns false, the single info line "Option Bytes are valid"; when it
    returns true, at error level, "Option Bytes are invalid" and the diff
    table of the reference against the masked device bytes: the header and
    one row per started group of eight reference bytes.  The device side of
    the table is, byte by byte, the little-endian bytes of the words read
    in this run under the compare mask; it is as long as the reference and
    differs from it. *)
Theorem validate_logs file_path h d b :
  option_bytes_validate openocd stm32 OptionBytesData file_path h = (d, Ok b) ->
  exists img,
    OptionBytesData file_path = Some img
    /\ if b
       then exists device,
              List.length device = List.length (reference img)
              /\ (forall k, (k < List.length (reference img))%nat ->
                    exists x m c,
                      nth_error (flat_map (little_digits 4) (map snd (reads d))) k
                      = Some x
                      /\ nth_error (compare_mask img) k = Some m
                      /\ nth_error device k = Some c
                      /\ byte_to_Z c = Z.land (byte_to_Z x) (byte_to_Z m))
              /\ device <> reference img
              /\ logs d
                 = (LError, "Option Bytes are invalid")
                     :: (LError, table_header)
                     :: map (fun i => (LError, table_row (reference img) device i))
                            (range_step 0 (List.length (reference img)) 8)
       else logs d = [(LInfo, "Option Bytes are valid")].
Proof.
  unfold option_bytes_validate. intros H. run H.
  all: exists o; split; [reflexivity |].
  all: pose proof (validate_read_any _ _ _ _ _ _ Hloop) as (_ & _ & Hlg & _).
  - rewrite !logs_call, logs_app, Hlg. reflexivity.
  - apply validate_read_ok in Hloop.
    destruct Hloop as (ws & Hlen & Hreads & -> & Hws).
    cbn [app] in Hx.
    pose proof (diff_table_events _ _ _ _ _ _ Hloop0) as [Hlog _].
    match goal with
    | |- context [logs ?t] =>
        assert (Hrd : map snd (reads t) = ws)
    end.
    { rewrite !reads_still by reflexivity. rewrite reads_app.
      rewrite !reads_still by reflexivity. rewrite reads_app.
      rewrite (still_reads dl0) by (apply log_still_event; exact Hlog).
      rewrite !reads_still by reflexivity. rewrite app_nil_r, Hreads.
      rewrite <- Hlen.
      apply (map_snd_indexed_words
               (fun j => STM32WB55.OPTION_BYTE_BASE stm32 + Z.of_nat j * 4)). }
    rewrite Hrd.
    rewrite diff_table_run in Hloop0. injection Hloop0 as <-.
    exists v1.
    pose proof (mask_ok _ _ _ _ _ _ Hx) as (tail & Etail & Htl & Hk).
    cbn [app] in Etail. subst tail.
    split; [exact Htl |]. split; [| split].
    + intros k Hlt. destruct (Hk k Hlt) as (x & m & Hx' & Hm' & Hc).
      exists x, m, (byte_and x m). cbn [Nat.add] in Hx', Hm'.
      repeat split; try assumption. apply byte_and_Z.
    + intros ->. rewrite (proj2 (bytes_eqb_eq _ _) eq_refl) in Hif. discriminate.
    + repeat (rewrite ?logs_call, ?logs_log, ?logs_app, ?Hlg; cbn [app]).
      change (logs []) with (@nil (level * string)).
      rewrite app_nil_r. do 2 f_equal. apply logs_map_log.
Qed.

(** X9.  A malformed image stops [option_bytes_validate] after it has
    read the device: with a probe that answers, if the compare mask is
    shorter than the reference or the length of the reference is not a
    multiple of four, the run reads all [length / 4] words and then ends
    with an IndexError, having logged nothing and without stopping the
    session. *)
Theorem validate_malformed_image file_path img h d r :
  answering openocd ->
  OptionBytesData file_path = Some img ->
  (List.length (compare_mask img) < List.length (reference img)
   \/ List.length (reference img) mod 4 <> 0)%nat ->
  option_bytes_validate openocd stm32 OptionBytesData file_path h = (d, r) ->
  r = Err IndexError
  /\ List.length (reads d) = (List.length (reference img) / 4)%nat
  /\ logs d = []
  /\ ~ stop_completed d.
Proof.
  intros Hans Himg Hbad. unfold option_bytes_validate. intros H.
  rewrite stop_completed_iff. run H.
  all: try match goal with
           | Ho : openocd ?h ?rq = Raises |- _ =>
               exfalso; pose proof (Hans h rq) as Ha; rewrite Ho in Ha; exact Ha
           end.
  all: try congruence.
  all: assert (o = img) as -> by congruence.
  all: try (destruct (validate_read_total _ _ Hans _ _ _ _ _ Hloop) as [x Hx'];
            discriminate).
  all: pose proof (validate_read_any _ _ _ _ _ _ Hloop)
    as (_ & _ & Hlg & Hst & _).
  all: apply validate_read_ok in Hloop;
    destruct Hloop as (ws & Hlen & Hreads & -> & _).
  all: cbn [app] in Hx.
  all: assert (Hfail : for_each_r (seq 0 (List.length (reference img)))
                         (mask_body (flat_map (little_digits 4) ws) (compare_mask img))
                         [] = Err IndexError)
    by (apply mask_fails; rewrite ?words_length, ?Hlen; try lia;
        pose proof (Nat.div_mod_eq (List.length (reference img)) 4); lia).
  all: pose proof (eq_trans (eq_sym Hfail) Hx) as E; try discriminate E.
  injection E as <-. split; [reflexivity |].
  rewrite !reads_still by reflexivity. rewrite reads_app, app_nil_r, Hreads.
  rewrite length_map, length_combine, length_seq, Hlen.
  split; [lia |].
  rewrite !logs_call, logs_app, Hlg. split; [reflexivity |].
  rewrite !stop_cons, existsb_app, Hst. simpl. discriminate.
Qed.

(** How the read loop can fail, and on which event. *)
Lemma validate_read_err n : forall a acc h d e,
  for_each (seq a n) read_body acc h = (d, Err e) ->
  exists pre addr,
    (e = ProbeError /\ d = pre ++ [Call (RqRead32 addr) Raises])
    \/ (e = AttributeError
        /\ exists v, d = pre ++ [Call (RqRead32 addr) (Returns v)]
                     /\ forall z, v <> PyInt z)
    \/ (e = OverflowError
        /\ exists z, d = pre ++ [Call (RqRead32 addr) (Returns (PyInt z))]
                     /\ ~ 0 <= z < 2 ^ 32).
Proof.
  induction n as [| n IH]; intros a acc h d e H; cbn [seq for_each] in H.
  - step H.
  - apply bind_inv in H.
    destruct H as [(e' & Hb & He) | (d1 & s' & d2 & Hb & Hl & ->)].
    + injection He as <-. unfold read_body in Hb.
      exists [], (base + Z.of_nat a * 4). step Hb.
      * left. split; reflexivity.
      * step Hb. destruct v as [| z |]; cbn [to_bytes] in Hx.
        -- injection Hx as <-. right. left. split; [reflexivity |].
           exists PyNone. split; [reflexivity | discriminate].
        -- unfold to_bytes_little in Hx.
           destruct ((0 <=? z) && (z <? 256 ^ Z.of_nat 4)) eqn:Hrange;
             [discriminate |].
           injection Hx as <-. right. right. split; [reflexivity |].
           exists z. split; [reflexivity |]. intros [H0 H1].
           apply andb_false_iff in Hrange.
           change (256 ^ Z.of_nat 4) with (2 ^ 32) in Hrange.
           destruct Hrange as [Hr | Hr];
             [apply Z.leb_gt in Hr | apply Z.ltb_ge in Hr]; lia.
        -- injection Hx as <-. right. left. split; [reflexivity |].
           exists (PyStr s). split; [reflexivity | discriminate].
    + apply IH in Hl. destruct Hl as (pre & addr & Hl).
      exists (d1 ++ pre), addr.
      destruct Hl as [[-> ->] | [[-> (v & -> & Hv)] | [-> (z & -> & Hz)]]].
      * left. split; [reflexivity | apply app_assoc].
      * right. left. split; [reflexivity |]. exists v.
        split; [apply app_assoc | exact Hv].
      * right. right. split; [reflexivity |]. exists z.
        split; [apply app_assoc | exact Hz].
Qed.

(** X10.  The ways [option_bytes_validate] can fail: with the probe's own
    error, with the image producer's error, with an AttributeError when a
    read gives something that is not an int (it has no [to_bytes]), with an
    OverflowError when a read gives an int that does not fit four bytes, or
    with an IndexError; never otherwise.  The producer's error means the
    image could not be produced; an AttributeError or an OverflowError ends
    the run on the offending read; and an IndexError means a compare mask
    shorter than the reference or a length that is not a multiple of
    four. *)
Theorem validate_errors file_path h d e :
  option_bytes_validate openocd stm32 OptionBytesData file_path h = (d, Err e) ->
  (e = ProbeError \/ e = DataError \/ e = AttributeError \/ e = OverflowError
   \/ e = IndexError)
  /\ (e = DataError -> OptionBytesData file_path = None)
  /\ (e = AttributeError ->
      exists pre addr v,
        d = pre ++ [Call (RqRead32 addr) (Returns v)]
        /\ forall z, v <> PyInt z)
  /\ (e = OverflowError ->
      exists pre addr z,
        d = pre ++ [Call (RqRead32 addr) (Returns (PyInt z))]
        /\ ~ 0 <= z < 2 ^ 32)
  /\ (e = IndexError ->
      exists img,
        OptionBytesData file_path = Some img
        /\ (List.length (compare_mask img) < List.length (reference img)
            \/ List.length (reference img) mod 4 <> 0)%nat).
Proof.
  unfold option_bytes_validate. intros H. run H.
  all: try (split; [tauto |];
            split; [try discriminate; auto |];
            split; [discriminate |]; split; discriminate).
  - injection Hr as ->.
    apply validate_read_err in Hloop. destruct Hloop as (pre & addr & Hl).
    destruct Hl as [[-> ->] | [[-> (v' & -> & Hv)] | [-> (z & -> & Hz)]]].
    + split; [tauto |]. repeat split; discriminate.
    + split; [tauto |]. split; [discriminate |]. split; [| split; discriminate].
      intros _.
      exists (Call RqStart (Returns v) :: Call (RqReset STM32WB55.Init) (Returns v0) :: pre),
        addr, v'.
      split; [reflexivity | exact Hv].
    + split; [tauto |]. split; [discriminate |]. split; [discriminate |].
      split; [| discriminate]. intros _.
      exists (Call RqStart (Returns v) :: Call (RqReset STM32WB55.Init) (Returns v0) :: pre),
        addr, z.
      split; [reflexivity | exact Hz].
  - pose proof (mask_errors _ _ _ _ _ Hx) as ->.
    split; [tauto |]. split; [discriminate |]. split; [discriminate |].
    split; [discriminate |]. intros _.
    exists o. split; [reflexivity |].
    apply validate_read_ok in Hloop. destruct Hloop as (ws & Hlen & _ & -> & _).
    cbn [app] in Hx.
    assert (Hdec : (List.length (compare_mask o) < List.length (reference o)
                    \/ List.length (reference o) mod 4 <> 0
                    \/ (List.length (reference o) <= List.length (compare_mask o)
                        /\ List.length (reference o) mod 4 = 0))%nat) by lia.
    destruct Hdec as [Hd | [Hd | [Hc Hm]]]; [left; exact Hd | right; exact Hd |].
    exfalso.
    destruct (mask_total (flat_map (little_digits 4) ws) (compare_mask o)
                (List.length (reference o)) 0 []) as [out Hout].
    + rewrite words_length, Hlen.
      pose proof (Nat.div_mod_eq (List.length (reference o)) 4). lia.
    + lia.
    + pose proof (eq_trans (eq_sym Hout) Hx) as E. discriminate E.
  - apply diff_table_events in Hloop0. destruct Hloop0 as [_ Htab]. discriminate.
Qed.

End ValidateMore.

(** ** More on [option_bytes_set] *)

(** A loop that raises does so in one of its rounds. *)
Lemma for_each_err {S} (l : list nat) (body : nat -> S -> M S) : forall s h d e,
  for_each l body s h = (d, Err e) ->
  exists i s' h' d0 d',
    In i l /\ body i s' h' = (d', Err e) /\ d = d0 ++ d'.
Proof.
  induction l as [| i l IH]; intros s h d e H; cbn [for_each] in H.
  - step H.
  - apply bind_inv in H.
    destruct H as [(e' & Hb & He) | (d1 & s' & d2 & Hb & Hl & ->)].
    + injection He as <-. exists i, s, h, [], d. repeat split; auto. left. reflexivity.
    + apply IH in Hl.
      destruct Hl as (j & s'' & h' & d0 & d' & Hj & Hb' & ->).
      exists j, s'', h', (d1 ++ d0), d'. rewrite app_assoc.
      repeat split; auto. right. exact Hj.
Qed.

Section SetMore.

Variable openocd : probe.
Variable stm32 : STM32WB55.t.
Variable OptionBytesData : string -> option OptionBytesValues.

Let base := STM32WB55.OPTION_BYTE_BASE stm32.

(** How a round of the patch loop can fail. *)
Lemma set_body_err img i need h d e :
  option_bytes_set_body openocd stm32 img i need h = (d, Err e) ->
  (e = ProbeError \/ e = TypeError \/ e = UnmappedRegister)
  /\ (e = UnmappedRegister ->
      exists live,
        In (base + Z.of_nat i * 8, live) (reads d)
        /\ STM32WB55.option_bytes_id_to_address stm32 i = None
        /\ needsPatch live (compareMask_ img i) (reference_ img i)
                      (writeMask_ img i) = true).
Proof.
  unfold option_bytes_set_body. intros H.
  step H; try (split; [tauto | discriminate]).
  cbv zeta in H.
  destruct (negb _) eqn:Hn in H.
  - step H. unfold option_bytes_id_to_address in H.
    destruct (STM32WB55.option_bytes_id_to_address stm32 i) as [a |] eqn:Ha.
    + steps H. split; [tauto | discriminate].
    + step H. split; [tauto |]. intros _. exists v.
      split; [left; reflexivity |]. split; [reflexivity | exact Hn].
  - step H.
Qed.

(** X11.  The outcomes of [option_bytes_set]: when it returns, it returns
    true, whether or not anything was patched; when it raises, it is with
    the probe's error, the image producer's error, a TypeError for a read
    that gives no int, or the register map's error for a dword without a
    register.  Whatever the lengths of the three buffers, it never raises
    an IndexError. *)
Theorem set_outcomes file_path h d r :
  option_bytes_set openocd stm32 OptionBytesData file_path h = (d, r) ->
  (forall b, r = Ok b -> b = true)
  /\ (forall e, r = Err e ->
        e = ProbeError \/ e = DataError \/ e = TypeError
        \/ e = UnmappedRegister).
Proof.
  unfold option_bytes_set. intros H. run H.
  all: split; [intros b Hb; try discriminate; injection Hb as <-; reflexivity |].
  all: intros e' He; try discriminate; injection He as <-; try tauto.
  apply for_each_err in Hloop.
  destruct Hloop as (i & s' & h' & d0 & d' & _ & Hb & _).
  apply set_body_err in Hb. destruct Hb as [Hb _]. tauto.
Qed.

(** X12.  A dword that needs a patch but has no register leaves the device
    unlocked: when [option_bytes_set] ends with the register map's error,
    the flash and the option bytes were unlocked, the offending dword was
    read and did need a patch, and neither the commit, nor the reload that
    relocks, nor the stop was issued. *)
Theorem set_unmapped_register file_path h d :
  option_bytes_set openocd stm32 OptionBytesData file_path h
  = (d, Err UnmappedRegister) ->
  (exists img i live,
     OptionBytesData file_path = Some img
     /\ (i < List.length (reference img) / 8)%nat
     /\ In (STM32WB55.OPTION_BYTE_BASE stm32 + Z.of_nat i * 8, live) (reads d)
     /\ STM32WB55.option_bytes_id_to_address stm32 i = None
     /\ needsPatch live (compareMask_ img i) (reference_ img i)
                   (writeMask_ img i) = true)
  /\ firstn 5 (requests d) = set_prologue
  /\ ~ In RqOptionBytesApply (requests d)
  /\ ~ In RqOptionBytesLoad (requests d)
  /\ ~ In RqStop (requests d).
Proof.
  unfold option_bytes_set. intros H. run H.
  injection Hr as <-.
  pose proof (loop_register_requests _ (set_loop_events _ _ _ _ _ _ _ _ Hloop))
    as Hreg.
  apply for_each_err in Hloop.
  destruct Hloop as (i & s' & h' & d0 & d' & Hi & Hb & ->).
  apply set_body_err in Hb. destruct Hb as [_ Hb].
  destruct (Hb eq_refl) as (live & Hrd & Hid & Hn).
  split; [| split; [reflexivity |]].
  - exists o, i, live. split; [reflexivity |].
    split; [apply in_seq in Hi; lia |]. split; [| split; assumption].
    repeat apply reads_later. rewrite reads_app. apply in_or_app. right. exact Hrd.
  - rewrite Forall_forall in Hreg.
    repeat (rewrite ?requests_call, ?requests_log).
    repeat split; intros Hin; simpl in Hin;
      repeat (destruct Hin as [Hin | Hin]; [discriminate |]);
      apply (Hreg _ Hin).
Qed.

End SetMore.

(** ** The patches of a run *)

Lemma loop_events_patches stm32 img obs : forall a,
  writes (loop_events stm32 img a obs)
  = flat_map (fun p : nat * Z =>
                if needsPatch (snd p) (compareMask_ img (fst p))
                              (reference_ img (fst p)) (writeMask_ img (fst p))
                then match STM32WB55.option_bytes_id_to_address stm32 (fst p) with
                     | Some r => [(r, newValue (snd p) (reference_ img (fst p))
                                               (writeMask_ img (fst p)))]
                     | None => []
                     end
                else [])
             (combine (seq a (List.length obs)) (map fst obs)).
Proof.
  induction obs as [| [live wr] obs IH]; intros a; [reflexivity |].
  rewrite loop_events_cons, writes_app, IH. cbn [List.length seq map combine flat_map fst snd].
  f_equal. unfold iteration_events. cbn [writes flat_map app].
  destruct (needsPatch _ _ _ _); [| reflexivity].
  destruct (STM32WB55.option_bytes_id_to_address stm32 a); reflexivity.
Qed.

(** With every patched dword mapped, there are as many patches as dwords
    that need one. *)
Lemma patches_count stm32 img lives : forall a,
  patches_mapped stm32 img a lives ->
  List.length
    (flat_map (fun p : nat * Z =>
                 if needsPatch (snd p) (compareMask_ img (fst p))
                               (reference_ img (fst p)) (writeMask_ img (fst p))
                 then match STM32WB55.option_bytes_id_to_address stm32 (fst p) with
                      | Some r => [(r, newValue (snd p) (reference_ img (fst p))
                                                (writeMask_ img (fst p)))]
                      | None => []
                      end
                 else [])
              (combine (seq a (List.length lives)) lives))
  = List.length
      (filter (fun p : nat * Z =>
                 needsPatch (snd p) (compareMask_ img (fst p))
                            (reference_ img (fst p)) (writeMask_ img (fst p)))
              (combine (seq a (List.length lives)) lives)).
Proof.
  induction lives as [| live lives IH]; intros a Hpm; [reflexivity |].
  unfold patches_mapped in Hpm.
  cbn [List.length seq combine] in Hpm |- *.
  apply Forall_cons_iff in Hpm. destruct Hpm as [Hm Hpm].
  cbn [flat_map filter fst snd] in Hm |- *. rewrite length_app, (IH (S a) Hpm).
  destruct (needsPatch _ _ _ _); [| reflexivity].
  destruct (STM32WB55.option_bytes_id_to_address stm32 a);
    [reflexivity | exfalso; apply Hm; reflexivity].
Qed.

Lemma nth_error_indexed {A B} (f : nat * A -> B) (l : list A) : forall a i,
  nth_error (map f (combine (seq a (List.length l)) l)) i
  = option_map (fun x => f ((a + i)%nat, x)) (nth_error l i).
Proof.
  induction l as [| x l IH]; intros a i.
  - destruct i; reflexivity.
  - destruct i as [| i]; cbn [List.length seq combine map nth_error option_map].
    + rewrite Nat.add_0_r. reflexivity.
    + rewrite IH. replace (S a + i)%nat with (a + S i)%nat by lia. reflexivity.
Qed.

(** With the write mask inside the compare mask, a dword needs a patch
    exactly when the merge changes it. *)
Ltac bits_in H n Hn :=
  apply (f_equal (fun z => Z.testbit z n)) in H; cbv beta in H;
  repeat (rewrite ?Z.land_spec, ?Z.lor_spec, ?Z.lxor_spec, ?Z.bits_0 in H;
          try rewrite !Z.lnot_spec in H by exact Hn).

Lemma needsPatch_changes live cm ref wm :
  Z.land wm (Z.lnot cm) = 0 ->
  needsPatch live cm ref wm = false <-> newValue live ref wm = live.
Proof.
  intros Hm. unfold needsPatch, newValue.
  rewrite negb_false_iff, Z.eqb_eq.
  split; intros H; bitwise; bits_in H n Hn; bits_in Hm n Hn;
    destruct (Z.testbit wm n), (Z.testbit live n), (Z.testbit ref n),
      (Z.testbit cm n); simpl in *; congruence.
Qed.

(** With the compare mask inside the write mask and the reference inside
    the compare mask, the merge shows the reference under the compare
    mask. *)
Lemma newValue_compares live cm ref wm :
  Z.land cm (Z.lnot wm) = 0 ->
  Z.land ref (Z.lnot cm) = 0 ->
  Z.land (newValue live ref wm) cm = ref.
Proof.
  intros Hc Hr. unfold newValue. bitwise. bits_in Hc n Hn. bits_in Hr n Hn.
  destruct (Z.testbit wm n), (Z.testbit live n), (Z.testbit ref n),
    (Z.testbit cm n); simpl in *; congruence.
Qed.

(** A word unpacked beyond the end of a buffer is zero. *)
Lemma _unpack_u32_beyond data offset :
  (List.length data <= offset)%nat -> _unpack_u32 data offset = 0.
Proof.
  intros H. unfold _unpack_u32, slice. rewrite skipn_all2 by exact H.
  rewrite firstn_nil. reflexivity.
Qed.

Lemma needsPatch_mask_nonzero live cm ref wm :
  needsPatch live cm ref wm = true -> wm <> 0.
Proof.
  unfold needsPatch. intros H -> . rewrite Z.land_0_r in H. discriminate.
Qed.

Section SetPatches.

Variable openocd : probe.
Variable stm32 : STM32WB55.t.
Variable OptionBytesData : string -> option OptionBytesValues.

Let base := STM32WB55.OPTION_BYTE_BASE stm32.

(** X13.  The writes of a run of [option_bytes_set] that returns are, in
    dword order, one patch per dword that needed one, each the merge of the
    value read for that dword, sent to its register: the list computed from
    the image and the values read.  There are as many writes as dwords
    whose value needed a patch. *)
Theorem set_patch_list file_path h d b img :
  OptionBytesData file_path = Some img ->
  option_bytes_set openocd stm32 OptionBytesData file_path h = (d, Ok b) ->
  let lives := map snd (reads d) in
  List.length lives = (List.length (reference img) / 8)%nat
  /\ writes d = patch_list stm32 img lives
  /\ List.length (writes d)
     = List.length
         (filter (fun p : nat * Z =>
                    needsPatch (snd p) (compareMask_ img (fst p))
                               (reference_ img (fst p)) (writeMask_ img (fst p)))
                 (combine (seq 0 (List.length lives)) lives)).
Proof.
  intros Himg H. apply set_ok in H.
  destruct H as (img' & obs & pre & post & Himg' & Hlen & Hb & Hpre & Hpm & -> & Hpost).
  rewrite Himg in Himg'. injection Himg' as <-.
  assert (Hps : forallb still_event post = true).
  { destruct (any_patch img 0 (map fst obs)).
    - apply commit_still. exact Hpost.
    - destruct Hpost as (fin & -> & Hfin). simpl. apply epilogue_still. exact Hfin. }
  pose proof (prologue_still pre Hpre) as Hprs.
  change (Log LInfo "Setting Option Bytes" :: pre ++ loop_events stm32 img 0 obs ++ post)
    with ((Log LInfo "Setting Option Bytes" :: pre) ++ loop_events stm32 img 0 obs ++ post).
  cbv zeta.
  rewrite !reads_app, !writes_app, (still_reads post Hps), (still_writes post Hps).
  rewrite (still_reads (Log LInfo "Setting Option Bytes" :: pre)) by exact Hprs.
  rewrite (still_writes (Log LInfo "Setting Option Bytes" :: pre)) by exact Hprs.
  rewrite !app_nil_r. cbn [app].
  rewrite loop_events_reads, loop_events_patches.
  assert (Hl : map snd
                 (map (fun p : nat * Z =>
                         (STM32WB55.OPTION_BYTE_BASE stm32 + Z.of_nat (fst p) * 8, snd p))
                      (combine (seq 0 (List.length obs)) (map fst obs)))
               = map fst obs).
  { rewrite map_map. cbn [snd].
    rewrite <- (length_map fst obs). generalize (map fst obs) as l. generalize 0%nat.
    intros a l. revert a. induction l as [| x l IH]; intros a; [reflexivity |].
    cbn [List.length seq combine map snd]. f_equal. apply IH. }
  rewrite Hl, length_map. split; [exact Hlen |].
  unfold patch_list. rewrite length_map. split; [reflexivity |].
  rewrite <- (length_map fst obs). apply patches_count. exact Hpm.
Qed.

(** X14.  With an image whose write masks lie inside its compare masks, a
    run of [option_bytes_set] that returns patches a dword exactly when the
    patch changes it: a dword is left unwritten iff the merge of the value
    read equals that value, and a value written always differs from the one
    read. *)
Theorem set_patch_iff_changes file_path h d b img :
  OptionBytesData file_path = Some img ->
  (forall i, Z.land (writeMask_ img i) (Z.lnot (compareMask_ img i)) = 0) ->
  option_bytes_set openocd stm32 OptionBytesData file_path h = (d, Ok b) ->
  (forall i addr live patched,
     nth_error (decisions d) i = Some (addr, live, patched) ->
     addr = STM32WB55.OPTION_BYTE_BASE stm32 + Z.of_nat i * 8
     /\ (patched = false
         <-> newValue live (reference_ img i) (writeMask_ img i) = live))
  /\ (forall a v, In (a, v) (writes d) ->
        exists i live,
          In (STM32WB55.OPTION_BYTE_BASE stm32 + Z.of_nat i * 8, live) (reads d)
          /\ STM32WB55.option_bytes_id_to_address stm32 i = Some a
          /\ v = newValue live (reference_ img i) (writeMask_ img i)
          /\ v <> live).
Proof.
  intros Himg Hmask H. split.
  - apply set_ok_view in H.
    destruct H as (img' & lives & Himg' & Hlen & _ & _ & Hdec & _).
    rewrite Himg in Himg'. injection Himg' as <-.
    intros i addr live patched Hn. rewrite Hdec, nth_error_indexed in Hn.
    destruct (nth_error lives i) as [x |]; [| discriminate].
    cbn [option_map fst snd Nat.add] in Hn. injection Hn as <- <- <-.
    split; [reflexivity |]. apply needsPatch_changes, Hmask.
  - intros a v Hin. destruct (set_writes _ _ _ _ _ _ _ _ _ H Hin)
      as (img' & i & live & Himg' & _ & Hrd & Hid & Hn & ->).
    rewrite Himg in Himg'. injection Himg' as <-.
    exists i, live. repeat split; try assumption.
    intros Heq. apply (needsPatch_changes _ _ _ _ (Hmask i)) in Heq.
    rewrite Heq in Hn. discriminate.
Qed.

(** X15.  With an image whose compare masks lie inside its write masks and
    whose reference lies inside its compare masks, every value that
    [option_bytes_set] writes, however the run ends, shows the dword's
    reference under its compare mask, which is what
    [option_bytes_validate] compares, and would need no further patch. *)
Theorem set_patched_word_matches file_path h d r img a v :
  OptionBytesData file_path = Some img ->
  (forall i, Z.land (compareMask_ img i) (Z.lnot (writeMask_ img i)) = 0) ->
  (forall i, Z.land (reference_ img i) (Z.lnot (compareMask_ img i)) = 0) ->
  option_bytes_set openocd stm32 OptionBytesData file_path h = (d, r) ->
  In (a, v) (writes d) ->
  exists i,
    STM32WB55.option_bytes_id_to_address stm32 i = Some a
    /\ Z.land v (compareMask_ img i) = reference_ img i
    /\ needsPatch v (compareMask_ img i) (reference_ img i) (writeMask_ img i)
       = false.
Proof.
  intros Himg Hcm Href H Hin.
  destruct (set_writes _ _ _ _ _ _ _ _ _ H Hin)
    as (img' & i & live & Himg' & _ & _ & Hid & _ & ->).
  rewrite Himg in Himg'. injection Himg' as <-.
  exists i. split; [exact Hid |].
  pose proof (newValue_compares live _ _ _ (Hcm i) (Href i)) as Hc.
  split; [exact Hc |].
  unfold needsPatch. rewrite Hc, Z.lxor_nilpotent. reflexivity.
Qed.

(** With a probe that answers and every dword mapped, a round of the
    patch loop completes. *)
Lemma set_loop_total (Hans : answering openocd) img l :
  (forall i, In i l -> STM32WB55.option_bytes_id_to_address stm32 i <> None) ->
  forall need h d r,
    for_each l (option_bytes_set_body openocd stm32 img) need h = (d, r) ->
    exists need', r = Ok need'.
Proof.
  induction l as [| i l IH]; intros Hmap need h d r H; cbn [for_each] in H.
  - step H. eauto.
  - apply bind_inv in H.
    destruct H as [(e & Hb & ->) | (d1 & s' & d2 & Hb & Hl & ->)].
    + exfalso. unfold option_bytes_set_body in Hb.
      pose proof (Hans h (RqRead32 (STM32WB55.OPTION_BYTE_BASE stm32 + Z.of_nat i * 8)))
        as Ha.
      step Hb.
      * rewrite Ho in Ha. exact Ha.
      * rewrite Ho in Ha. destruct Ha as (w & -> & _). discriminate.
      * cbv zeta in Hb. destruct (negb _) in Hb; [| step Hb].
        step Hb. unfold option_bytes_id_to_address in Hb.
        destruct (STM32WB55.option_bytes_id_to_address stm32 i) as [reg |] eqn:Hreg;
          [| apply (Hmap i); [left; reflexivity | exact Hreg]].
        step Hb. step Hb.
        match type of Hb with
        | bind (write_32 _ ?a ?x) _ ?h' = _ =>
            pose proof (Hans h' (RqWrite32 a x)) as Hw
        end.
        steps Hb.
        match goal with
        | Hr : openocd _ (RqWrite32 _ _) = Raises |- _ => rewrite Hr in Hw; exact Hw
        end.
    + apply (IH (fun j Hj => Hmap j (or_intror Hj)) _ _ _ _ Hl).
Qed.

(** X16.  Masks shorter than the reference raise nothing and patch
    nothing beyond their end.  With a probe that answers and a register
    for every dword, [option_bytes_set] returns True whatever the lengths
    of the compare mask and of the write mask; it reads every dword of the
    reference; a dword that starts at or beyond the end of the write mask
    is read and left unwritten; and every write goes to the register of a
    dword that lies inside the reference and starts inside the write
    mask. *)
Theorem set_short_write_mask file_path img h d r :
  answering openocd ->
  OptionBytesData file_path = Some img ->
  (forall i, (i < List.length (reference img) / 8)%nat ->
     STM32WB55.option_bytes_id_to_address stm32 i <> None) ->
  option_bytes_set openocd stm32 OptionBytesData file_path h = (d, r) ->
  r = Ok true
  /\ map fst (reads d)
     = map (fun i => STM32WB55.OPTION_BYTE_BASE stm32 + Z.of_nat i * 8)
           (seq 0 (List.length (reference img) / 8))
  /\ (forall i, (i < List.length (reference img) / 8)%nat ->
        (List.length (write_mask img) <= i * 8)%nat ->
        exists live,
          nth_error (decisions d) i
          = Some (STM32WB55.OPTION_BYTE_BASE stm32 + Z.of_nat i * 8, live, false))
  /\ (forall a v, In (a, v) (writes d) ->
        exists i,
          STM32WB55.option_bytes_id_to_address stm32 i = Some a
          /\ (i * 8 + 8 <= List.length (reference img))%nat
          /\ (i * 8 < List.length (write_mask img))%nat).
Proof.
  intros Hans Himg Hmap H.
  assert (Hret : r = Ok true).
  { revert H. unfold option_bytes_set. intros H. run H.
    all: try match goal with
             | Ho : openocd ?h' ?rq = Raises |- _ =>
                 exfalso; pose proof (Hans h' rq) as Ha; rewrite Ho in Ha; exact Ha
             end.
    all: try congruence.
    all: try reflexivity.
    all: assert (o = img) as -> by congruence.
    all: exfalso.
    all: eapply set_loop_total in Hloop; [destruct Hloop as [? Hl]; discriminate
                                         | exact Hans
                                         | intros i Hi; apply in_seq in Hi;
                                           apply Hmap; lia]. }
  subst r. split; [reflexivity |].
  pose proof (set_ok_view _ _ _ _ _ _ _ H)
    as (img' & lives & Himg' & Hll & _ & Hrd & Hdec & _).
  rewrite Himg in Himg'. injection Himg' as <-.
  split; [| split].
  - rewrite Hrd, <- Hll.
    apply (map_fst_indexed
             (fun i => STM32WB55.OPTION_BYTE_BASE stm32 + Z.of_nat i * 8)).
  - intros i Hi Hshort. rewrite Hdec, nth_error_indexed.
    destruct (nth_error lives i) as [live |] eqn:Hn.
    + exists live. cbn [option_map fst snd Nat.add]. do 3 f_equal.
      unfold writeMask_. rewrite _unpack_u32_beyond by exact Hshort.
      apply needsPatch_zero_mask.
    + apply nth_error_None in Hn. lia.
  - intros a v Hin.
    destruct (set_writes _ _ _ _ _ _ _ _ _ H Hin)
      as (img' & i & live & Himg' & Hi & _ & Hid & Hn & _).
    rewrite Himg in Himg'. injection Himg' as <-.
    exists i. split; [exact Hid |]. split.
    + pose proof (Nat.div_mod_eq (List.length (reference img)) 8).
      pose proof (Nat.mod_upper_bound (List.length (reference img)) 8). lia.
    + apply needsPatch_mask_nonzero in Hn.
      destruct (Nat.lt_ge_cases (i * 8) (List.length (write_mask img))) as [Hlt | Hge];
        [exact Hlt | exfalso; apply Hn, _unpack_u32_beyond; exact Hge].
Qed.

End SetPatches.

(** ** What [option_bytes_set] reads of an image, and how it follows a
    validation *)

Lemma bind_ext {A B} (m1 m2 : M A) (k1 k2 : A -> M B) h :
  m1 h = m2 h ->
  (forall a d, m1 h = (d, Ok a) -> k1 a (h ++ d) = k2 a (h ++ d)) ->
  bind m1 k1 h = bind m2 k2 h.
Proof.
  intros Hm Hk. unfold bind. rewrite <- Hm.
  destruct (m1 h) as [d [a | e]] eqn:E; [| reflexivity].
  rewrite (Hk a d eq_refl). reflexivity.
Qed.

Lemma bind_ret_ext {A B} (a1 a2 : A) (k1 k2 : A -> M B) h :
  k1 a1 (h ++ []) = k2 a2 (h ++ []) ->
  bind (ret a1) k1 h = bind (ret a2) k2 h.
Proof. intros Hk. unfold bind, ret. rewrite Hk. reflexivity. Qed.

Lemma for_each_ext {S} (l : list nat) (body1 body2 : nat -> S -> M S) :
  (forall i s h, In i l -> body1 i s h = body2 i s h) ->
  forall s h, for_each l body1 s h = for_each l body2 s h.
Proof.
  induction l as [| i l IH]; intros Hb s h; [reflexivity |].
  cbn [for_each]. apply bind_ext.
  - apply Hb. left. reflexivity.
  - intros a d _. apply IH. intros j s' h' Hj. apply Hb. right. exact Hj.
Qed.

(** X17.  [option_bytes_set] looks at the first word of every dword of the
    image only: two images with as many dwords whose three buffers agree on
    those words give the same run, events and outcome, on every probe and
    from every history, whatever bytes 4 to 7 of their dwords and their
    bytes beyond the last whole dword are. *)
Theorem set_ignores_second_words openocd stm32 data1 data2 file_path img1 img2 h :
  data1 file_path = Some img1 ->
  data2 file_path = Some img2 ->
  same_first_words img1 img2 ->
  option_bytes_set openocd stm32 data1 file_path h
  = option_bytes_set openocd stm32 data2 file_path h.
Proof.
  intros H1 H2 [Hlen Hw]. unfold option_bytes_set.
  do 3 (apply bind_ext; [reflexivity | intros ? ? _]).
  unfold gen_values_export. rewrite H1, H2.
  apply bind_ret_ext. cbv zeta. rewrite Hlen.
  do 3 (apply bind_ext; [reflexivity | intros ? ? _]).
  apply bind_ext; [| reflexivity].
  apply for_each_ext. intros i s h' Hi. apply in_seq in Hi.
  rewrite <- Hlen in Hi.
  destruct (Hw i ltac:(lia)) as (Ew & Ec & Er).
  unfold writeMask_, compareMask_, reference_ in Ew, Ec, Er.
  unfold option_bytes_set_body. cbv zeta. rewrite Ew, Ec, Er. reflexivity.
Qed.

Lemma slice_cons {A} (l : list A) a n x :
  nth_error l a = Some x ->
  slice l a (a + S n) = x :: slice l (S a) (S a + n).
Proof.
  intros H. unfold slice.
  replace (a + S n - a)%nat with (S n) by lia.
  replace (S a + n - S a)%nat with n by lia.
  rewrite (skipn_nth _ _ _ H). reflexivity.
Qed.

Lemma testbit_byte_cons x X n :
  0 <= x < 256 -> 0 <= n ->
  Z.testbit (x + 256 * X) n
  = if n <? 8 then Z.testbit x n else Z.testbit X (n - 8).
Proof.
  intros Hx Hn.
  assert (Hm : (x + 256 * X) mod 2 ^ 8 = x)
    by (change (2 ^ 8) with 256; Z.to_euclidean_division_equations; lia).
  assert (Hd : (x + 256 * X) / 2 ^ 8 = X)
    by (change (2 ^ 8) with 256; Z.to_euclidean_division_equations; lia).
  destruct (n <? 8) eqn:E.
  - apply Z.ltb_lt in E.
    rewrite <- (Z.mod_pow2_bits_low (x + 256 * X) 8 n) by lia.
    rewrite Hm. reflexivity.
  - apply Z.ltb_ge in E.
    replace n with (n - 8 + 8) at 1 by lia.
    rewrite <- Z.div_pow2_bits by lia. rewrite Hd. reflexivity.
Qed.

Lemma land_byte_cons x X m M' :
  Z.land (byte_to_Z x + 256 * X) (byte_to_Z m + 256 * M')
  = byte_to_Z (byte_and x m) + 256 * Z.land X M'.
Proof.
  apply Z.bits_inj'. intros n Hn.
  rewrite Z.land_spec, !testbit_byte_cons by (auto using byte_to_Z_range).
  rewrite byte_and_Z. destruct (n <? 8); rewrite Z.land_spec; reflexivity.
Qed.

(** A word of a masked buffer is the word of the buffer under the word of
    the mask. *)
Lemma masked_word (R X M' : bytes) n : forall a,
  (forall k, (k < n)%nat ->
     exists x m, nth_error X (a + k) = Some x
                 /\ nth_error M' (a + k) = Some m
                 /\ nth_error R (a + k) = Some (byte_and x m)) ->
  from_bytes_little (slice R a (a + n))
  = Z.land (from_bytes_little (slice X a (a + n)))
           (from_bytes_little (slice M' a (a + n))).
Proof.
  induction n as [| n IH]; intros a H.
  - unfold slice. rewrite Nat.add_0_r, Nat.sub_diag. reflexivity.
  - destruct (H 0%nat ltac:(lia)) as (x & m & Hx & Hm & Hr).
    rewrite Nat.add_0_r in Hx, Hm, Hr.
    rewrite (slice_cons _ _ _ _ Hx), (slice_cons _ _ _ _ Hm), (slice_cons _ _ _ _ Hr).
    cbn [from_bytes_little]. rewrite land_byte_cons. f_equal. f_equal.
    apply IH. intros k Hk. destruct (H (S k) ltac:(lia)) as (x' & m' & Hx' & Hm' & Hr').
    replace (S a + k)%nat with (a + S k)%nat by lia. eauto.
Qed.

(** The word at index [j] of the bytes of a list of 32-bit words. *)
Lemma word_of_digits ws j w :
  nth_error ws j = Some w -> 0 <= w < 2 ^ 32 ->
  _unpack_u32 (flat_map (little_digits 4) ws) (4 * j) = w.
Proof.
  intros Hj Hw. unfold _unpack_u32.
  pose proof (firstn_skipn j ws) as Hs. rewrite (skipn_nth _ _ _ Hj) in Hs.
  rewrite <- Hs, flat_map_app. cbn [flat_map].
  assert (Hl : List.length (flat_map (little_digits 4) (firstn j ws)) = (4 * j)%nat).
  { rewrite words_length, length_firstn.
    assert (j < List.length ws)%nat by (apply nth_error_Some; rewrite Hj; discriminate).
    lia. }
  replace (4 * j + 4)%nat
    with (List.length (flat_map (little_digits 4) (firstn j ws))
          + List.length (little_digits 4 w))%nat
    by (rewrite Hl, little_digits_length; reflexivity).
  rewrite <- Hl at 1.
  rewrite slice_middle. apply little_digits_roundtrip. exact Hw.
Qed.

Section Composition.

Variable stm32 : STM32WB55.t.
Variable OptionBytesData : string -> option OptionBytesValues.

Let base := STM32WB55.OPTION_BYTE_BASE stm32.

(** X18.  Validation and patching agree: when [option_bytes_validate]
    returns False for an image, a run of [option_bytes_set] with that
    image in which every register read shows what the validation read
    there finds no dword to patch: it writes nothing, does not commit, and
    logs that the option bytes are already correct. *)
Theorem validate_then_set openocd1 openocd2 file_path h1 dv h2 ds b :
  option_bytes_validate openocd1 stm32 OptionBytesData file_path h1
  = (dv, Ok false) ->
  option_bytes_set openocd2 stm32 OptionBytesData file_path h2 = (ds, Ok b) ->
  (forall a v, In (a, v) (reads ds) -> In (a, v) (reads dv)) ->
  writes ds = []
  /\ ~ In RqOptionBytesApply (requests ds)
  /\ In (Log LInfo msg_already_correct) ds.
Proof.
  intros Hv Hs Hsame.
  apply validate_ok in Hv.
  destruct Hv as (img & ws & ob_compare & Himg & Hwl & Hrv & Hws & Hmask & Hb).
  apply set_ok_view in Hs.
  destruct Hs as (img' & lives & Himg' & Hll & _ & Hrs & _ & (middle & Hmid & Hrq) & Hno).
  rewrite Himg in Himg'. injection Himg' as <-.
  symmetry in Hb. apply negb_false_iff, bytes_eqb_eq in Hb. subst ob_compare.
  apply mask_ok in Hmask. destruct Hmask as (tail & Eref & Htl & Hk).
  cbn [app] in Eref. subst tail.
  assert (Hany : any_patch img 0 lives = false).
  { apply any_patch_none. intros i live Hi.
    assert (Hil : (i < List.length (reference img) / 8)%nat).
    { rewrite <- Hll. apply nth_error_Some. rewrite Hi. discriminate. }
    assert (Hin : In (STM32WB55.OPTION_BYTE_BASE stm32 + Z.of_nat i * 8, live) (reads ds)).
    { rewrite Hrs. apply (nth_error_In _ i).
      rewrite nth_error_indexed, Hi. reflexivity. }
    apply Hsame in Hin. rewrite Hrv in Hin.
    apply In_nth_error in Hin. destruct Hin as (j & Hj).
    rewrite nth_error_indexed in Hj.
    destruct (nth_error ws j) as [w |] eqn:Hwj; [| discriminate].
    cbn [option_map fst snd Nat.add] in Hj. injection Hj as Hj ->.
    assert (j = 2 * i)%nat by lia. subst j.
    assert (Hw : 0 <= live < 2 ^ 32).
    { rewrite Forall_forall in Hws. apply Hws. eapply nth_error_In. exact Hwj. }
    pose proof (Nat.div_mod_eq (List.length (reference img)) 8) as Hd.
    pose proof (Nat.mod_upper_bound (List.length (reference img)) 8) as Hm.
    assert (Href : reference_ img i = Z.land live (compareMask_ img i)).
    { unfold reference_, compareMask_, _unpack_u32.
      rewrite (masked_word _ (flat_map (little_digits 4) ws) (compare_mask img)).
      - f_equal. replace (i * 8)%nat with (4 * (2 * i))%nat by lia.
        apply (word_of_digits _ _ _ Hwj Hw).
      - intros k Hk4. replace (i * 8 + k)%nat with (0 + (i * 8 + k))%nat by lia.
        apply Hk. lia. }
    unfold needsPatch. rewrite Href, Z.lxor_nilpotent. reflexivity. }
  destruct (Hno Hany) as [Hwr Hlog].
  split; [exact Hwr |]. split; [| exact Hlog].
  rewrite Hrq. intros Hin. apply (requests_apply_iff _ _ Hmid) in Hin.
  rewrite Hany in Hin. discriminate.
Qed.

End Composition.

(** ** The configuration built by [__init__] *)

(** X19.  The configuration handed to OpenOCD: the interface and the fixed
    target are always there, the port base exactly when one is given, and
    a serial number is passed on only for the CMSIS-DAP interface or an
    interface whose name contains "stlink", under the adapter's own
    command; for any other interface a given serial number is dropped
    without an error.  The keys are laid down once, in the order of the
    assignments. *)
Theorem init_config interface port_base serial :
  let config := __init__ interface port_base serial in
  let cmsis := String.eqb interface "interface/cmsis-dap.cfg" in
  let stlink := contains "stlink" interface in
  dict_get config "interface" = Some (PyStr interface)
  /\ dict_get config "target" = Some (PyStr "target/stm32wbx.cfg")
  /\ dict_get config "port_base" = option_map PyInt port_base
  /\ (dict_get config "serial" = None
      <-> serial = None \/ (cmsis = false /\ stlink = false))
  /\ (forall s, serial = Some s ->
        (cmsis = true ->
         dict_get config "serial" = Some (PyStr ("cmsis_dap_serial " ++ s)))
        /\ (cmsis = false -> stlink = true ->
            dict_get config "serial" = Some (PyStr ("stlink_serial " ++ s))))
  /\ map fst config
     = ["interface"; "target"]
       ++ match serial with
          | Some _ => if (cmsis || stlink)%bool then ["serial"] else []
          | None => []
          end
       ++ match port_base with Some _ => ["port_base"] | None => [] end.
Proof.
  cbv zeta. unfold __init__.
  destruct serial as [s |], port_base as [p |];
    destruct (String.eqb interface "interface/cmsis-dap.cfg") eqn:Ec;
    destruct (contains "stlink" interface) eqn:Es;
    cbn; repeat split; try reflexivity; try discriminate;
    try (intros [? | [? ?]]; discriminate);
    try (intros; left; reflexivity);
    try (intros; right; split; reflexivity);
    try (intros ? E; injection E as <-; reflexivity);
    try (intros ? E; discriminate E);
    intros; congruence.
Qed.

(** ** The properties above on concrete runs *)

Lemma otp_write_script_witness :
  otp_write chatty 0x1FFF7000 [] [] = (otp_trace, Ok true)
  /\ follows no_request (otp_script 0x1FFF7000) (requests otp_trace)
  /\ (forall b, Ok true = Ok b ->
        b = true
        /\ requests otp_trace = otp_script 0x1FFF7000
        /\ logs otp_trace = map (fun s => (LInfo, strip s)) (tcl_replies otp_trace)
        /\ List.length (logs otp_trace) = 4%nat)
  /\ (forall e, Ok true = Err e -> e = ProbeError \/ e = AttributeError).
Proof.
  split; [vm_compute; reflexivity |].
  apply (otp_write_script chatty 0x1FFF7000 [] [] otp_trace (Ok true)).
  vm_compute. reflexivity.
Defined.

Lemma unpack_u32_roundtrip_witness :
  to_bytes_little 0x12345678 4 = Ok [x78; x56; x34; x12]
  /\ _unpack_u32 ([x01; x02] ++ [x78; x56; x34; x12] ++ [xff])
                 (List.length [x01; x02])
     = 0x12345678.
Proof.
  split; [vm_compute; reflexivity |].
  apply (unpack_u32_roundtrip [x01; x02] [xff] 0x12345678 [x78; x56; x34; x12]).
  vm_compute. reflexivity.
Defined.

Lemma validate_read_only_witness :
  option_bytes_validate quiet wb55 (only image_zero) "ob.data" []
  = (zero_validation, Ok false)
  /\ follows validate_request [RqStart; RqReset STM32WB55.Init]
             (requests zero_validation)
  /\ writes zero_validation = []
  /\ map fst (reads zero_validation)
     = map (fun j => STM32WB55.OPTION_BYTE_BASE wb55 + Z.of_nat j * 4)
           (seq 0 (List.length (reads zero_validation))).
Proof.
  split; [vm_compute; reflexivity |].
  apply (validate_read_only quiet wb55 (only image_zero) "ob.data" []
           zero_validation (Ok false)).
  vm_compute. reflexivity.
Defined.

Lemma validate_logs_witness :
  option_bytes_validate quiet wb55 (only image_nibble) "ob.data" []
  = (nibble_validation, Ok true)
  /\ exists img,
       only image_nibble "ob.data" = Some img
       /\ exists device,
            List.length device = List.length (reference img)
            /\ (forall k, (k < List.length (reference img))%nat ->
                  exists x m c,
                    nth_error (flat_map (little_digits 4)
                                        (map snd (reads nibble_validation))) k
                    = Some x
                    /\ nth_error (compare_mask img) k = Some m
                    /\ nth_error device k = Some c
                    /\ byte_to_Z c = Z.land (byte_to_Z x) (byte_to_Z m))
            /\ device <> reference img
            /\ logs nibble_validation
               = (LError, "Option Bytes are invalid")
                   :: (LError, table_header)
                   :: map (fun i => (LError, table_row (reference img) device i))
                          (range_step 0 (List.length (reference img)) 8).
Proof.
  split; [vm_compute; reflexivity |].
  apply (validate_logs quiet wb55 (only image_nibble) "ob.data" []
           nibble_validation true).
  vm_compute. reflexivity.
Defined.

Lemma validate_malformed_image_witness :
  answering quiet
  /\ only image_short_mask "ob.data" = Some image_short_mask
  /\ (List.length (compare_mask image_short_mask)
      < List.length (reference image_short_mask))%nat
  /\ option_bytes_validate quiet wb55 (only image_short_mask) "ob.data" []
     = (short_mask_validation, Err IndexError)
  /\ (Err IndexError : result bool) = Err IndexError
  /\ List.length (reads short_mask_validation)
     = (List.length (reference image_short_mask) / 4)%nat
  /\ logs short_mask_validation = []
  /\ ~ stop_completed short_mask_validation.
Proof.
  split; [exact quiet_answering |]. split; [reflexivity |].
  split; [simpl; lia |]. split; [vm_compute; reflexivity |].
  apply (validate_malformed_image quiet wb55 (only image_short_mask) "ob.data"
           image_short_mask [] short_mask_validation (Err IndexError)).
  - exact quiet_answering.
  - reflexivity.
  - left. simpl. lia.
  - vm_compute. reflexivity.
Defined.

Lemma validate_errors_witness :
  option_bytes_validate mute wb55 (only image_zero) "ob.data" []
  = (mute_validation, Err AttributeError)
  /\ (AttributeError = ProbeError \/ AttributeError = DataError
      \/ AttributeError = AttributeError \/ AttributeError = OverflowError
      \/ AttributeError = IndexError)
  /\ (AttributeError = DataError -> only image_zero "ob.data" = None)
  /\ (AttributeError = AttributeError ->
      exists pre addr v,
        mute_validation = pre ++ [Call (RqRead32 addr) (Returns v)]
        /\ forall z, v <> PyInt z)
  /\ (AttributeError = OverflowError ->
      exists pre addr z,
        mute_validation = pre ++ [Call (RqRead32 addr) (Returns (PyInt z))]
        /\ ~ 0 <= z < 2 ^ 32)
  /\ (AttributeError = IndexError ->
      exists img,
        only image_zero "ob.data" = Some img
        /\ (List.length (compare_mask img) < List.length (reference img)
            \/ List.length (reference img) mod 4 <> 0)%nat).
Proof.
  split; [vm_compute; reflexivity |].
  apply (validate_errors mute wb55 (only image_zero) "ob.data" []
           mute_validation AttributeError).
  vm_compute. reflexivity.
Defined.

Lemma set_outcomes_witness :
  option_bytes_set (latching 0x5A) wb55 (only image_nibble) "ob.data" []
  = (nibble_trace, Ok true)
  /\ (forall b, Ok true = Ok b -> b = true)
  /\ (forall e, Ok true = Err e ->
        e = ProbeError \/ e = DataError \/ e = TypeError \/ e = UnmappedRegister).
Proof.
  split; [vm_compute; reflexivity |].
  apply (set_outcomes (latching 0x5A) wb55 (only image_nibble) "ob.data" []
           nibble_trace (Ok true)).
  vm_compute. reflexivity.
Defined.

Lemma set_unmapped_register_witness :
  option_bytes_set (latching 0x5A) unmapped (only image_nibble) "ob.data" []
  = (unmapped_trace, Err UnmappedRegister)
  /\ (exists img i live,
        only image_nibble "ob.data" = Some img
        /\ (i < List.length (reference img) / 8)%nat
        /\ In (STM32WB55.OPTION_BYTE_BASE unmapped + Z.of_nat i * 8, live)
              (reads unmapped_trace)
        /\ STM32WB55.option_bytes_id_to_address unmapped i = None
        /\ needsPatch live (compareMask_ img i) (reference_ img i)
                      (writeMask_ img i) = true)
  /\ firstn 5 (requests unmapped_trace) = set_prologue
  /\ ~ In RqOptionBytesApply (requests unmapped_trace)
  /\ ~ In RqOptionBytesLoad (requests unmapped_trace)
  /\ ~ In RqStop (requests unmapped_trace).
Proof.
  split; [vm_compute; reflexivity |].
  apply (set_unmapped_register (latching 0x5A) unmapped (only image_nibble)
           "ob.data" [] unmapped_trace).
  vm_compute. reflexivity.
Defined.

Lemma set_patch_list_witness :
  only image_nibble "ob.data" = Some image_nibble
  /\ option_bytes_set (latching 0x5A) wb55 (only image_nibble) "ob.data" []
     = (nibble_trace, Ok true)
  /\ List.length (map snd (reads nibble_trace))
     = (List.length (reference image_nibble) / 8)%nat
  /\ writes nibble_trace
     = patch_list wb55 image_nibble (map snd (reads nibble_trace))
  /\ List.length (writes nibble_trace)
     = List.length
         (filter (fun p : nat * Z =>
                    needsPatch (snd p) (compareMask_ image_nibble (fst p))
                               (reference_ image_nibble (fst p))
                               (writeMask_ image_nibble (fst p)))
                 (combine (seq 0 (List.length (map snd (reads nibble_trace))))
                          (map snd (reads nibble_trace)))).
Proof.
  split; [reflexivity |]. split; [vm_compute; reflexivity |].
  apply (set_patch_list (latching 0x5A) wb55 (only image_nibble) "ob.data" []
           nibble_trace true image_nibble).
  - reflexivity.
  - vm_compute. reflexivity.
Defined.

Lemma set_patch_iff_changes_witness :
  only image_nibble "ob.data" = Some image_nibble
  /\ (forall i, Z.land (writeMask_ image_nibble i)
                       (Z.lnot (compareMask_ image_nibble i)) = 0)
  /\ option_bytes_set (latching 0x5A) wb55 (only image_nibble) "ob.data" []
     = (nibble_trace, Ok true)
  /\ (forall i addr live patched,
        nth_error (decisions nibble_trace) i = Some (addr, live, patched) ->
        addr = STM32WB55.OPTION_BYTE_BASE wb55 + Z.of_nat i * 8
        /\ (patched = false
            <-> newValue live (reference_ image_nibble i)
                         (writeMask_ image_nibble i) = live))
  /\ (forall a v, In (a, v) (writes nibble_trace) ->
        exists i live,
          In (STM32WB55.OPTION_BYTE_BASE wb55 + Z.of_nat i * 8, live)
             (reads nibble_trace)
          /\ STM32WB55.option_bytes_id_to_address wb55 i = Some a
          /\ v = newValue live (reference_ image_nibble i)
                          (writeMask_ image_nibble i)
          /\ v <> live).
Proof.
  assert (Hmask : forall i, Z.land (writeMask_ image_nibble i)
                                   (Z.lnot (compareMask_ image_nibble i)) = 0).
  { intros [| i]; [vm_compute; reflexivity |].
    unfold writeMask_. rewrite _unpack_u32_beyond by (simpl; lia). reflexivity. }
  split; [reflexivity |]. split; [exact Hmask |].
  split; [vm_compute; reflexivity |].
  apply (set_patch_iff_changes (latching 0x5A) wb55 (only image_nibble) "ob.data"
           [] nibble_trace true image_nibble).
  - reflexivity.
  - exact Hmask.
  - vm_compute. reflexivity.
Defined.

Lemma set_patched_word_matches_witness :
  only image_masked "ob.data" = Some image_masked
  /\ (forall i, Z.land (compareMask_ image_masked i)
                       (Z.lnot (writeMask_ image_masked i)) = 0)
  /\ (forall i, Z.land (reference_ image_masked i)
                       (Z.lnot (compareMask_ image_masked i)) = 0)
  /\ option_bytes_set (latching 0x5A) wb55 (only image_masked) "ob.data" []
     = (masked_first, Ok true)
  /\ In (0x58004020, 0xAA) (writes masked_first)
  /\ exists i,
       STM32WB55.option_bytes_id_to_address wb55 i = Some 0x58004020
       /\ Z.land 0xAA (compareMask_ image_masked i) = reference_ image_masked i
       /\ needsPatch 0xAA (compareMask_ image_masked i) (reference_ image_masked i)
                     (writeMask_ image_masked i) = false.
Proof.
  assert (Hcm : forall i, Z.land (compareMask_ image_masked i)
                                 (Z.lnot (writeMask_ image_masked i)) = 0).
  { intros [| i]; [vm_compute; reflexivity |].
    unfold compareMask_. rewrite _unpack_u32_beyond by (simpl; lia). reflexivity. }
  assert (Href : forall i, Z.land (reference_ image_masked i)
                                  (Z.lnot (compareMask_ image_masked i)) = 0).
  { intros [| i]; [vm_compute; reflexivity |].
    unfold reference_. rewrite _unpack_u32_beyond by (simpl; lia). reflexivity. }
  split; [reflexivity |]. split; [exact Hcm |]. split; [exact Href |].
  split; [vm_compute; reflexivity |].
  split; [vm_compute; left; reflexivity |].
  apply (set_patched_word_matches (latching 0x5A) wb55 (only image_masked)
           "ob.data" [] masked_first (Ok true) image_masked 0x58004020 0xAA).
  - reflexivity.
  - exact Hcm.
  - exact Href.
  - vm_compute. reflexivity.
  - vm_compute. left. reflexivity.
Defined.

Lemma set_short_write_mask_witness :
  answering quiet
  /\ only image_two_dwords "ob.data" = Some image_two_dwords
  /\ (forall i, (i < List.length (reference image_two_dwords) / 8)%nat ->
        STM32WB55.option_bytes_id_to_address wb55 i <> None)
  /\ option_bytes_set quiet wb55 (only image_two_dwords) "ob.data" []
     = (two_dwords_set, Ok true)
  /\ (List.length (write_mask image_two_dwords) <= 1 * 8)%nat
  /\ (Ok true : result bool) = Ok true
  /\ map fst (reads two_dwords_set)
     = map (fun i => STM32WB55.OPTION_BYTE_BASE wb55 + Z.of_nat i * 8)
           (seq 0 (List.length (reference image_two_dwords) / 8))
  /\ (forall i, (i < List.length (reference image_two_dwords) / 8)%nat ->
        (List.length (write_mask image_two_dwords) <= i * 8)%nat ->
        exists live,
          nth_error (decisions two_dwords_set) i
          = Some (STM32WB55.OPTION_BYTE_BASE wb55 + Z.of_nat i * 8, live, false))
  /\ (forall a v, In (a, v) (writes two_dwords_set) ->
        exists i,
          STM32WB55.option_bytes_id_to_address wb55 i = Some a
          /\ (i * 8 + 8 <= List.length (reference image_two_dwords))%nat
          /\ (i * 8 < List.length (write_mask image_two_dwords))%nat).
Proof.
  assert (Hmap : forall i, (i < List.length (reference image_two_dwords) / 8)%nat ->
                   STM32WB55.option_bytes_id_to_address wb55 i <> None)
    by (intros i _; discriminate).
  split; [exact quiet_answering |]. split; [reflexivity |].
  split; [exact Hmap |]. split; [vm_compute; reflexivity |].
  split; [simpl; lia |].
  apply (set_short_write_mask quiet wb55 (only image_two_dwords) "ob.data"
           image_two_dwords [] two_dwords_set (Ok true)).
  - exact quiet_answering.
  - reflexivity.
  - exact Hmap.
  - vm_compute. reflexivity.
Defined.

Lemma set_ignores_second_words_witness :
  only image_nibble "ob.data" = Some image_nibble
  /\ only image_nibble_tail "ob.data" = Some image_nibble_tail
  /\ same_first_words image_nibble image_nibble_tail
  /\ option_bytes_set (latching 0x5A) wb55 (only image_nibble) "ob.data" []
     = option_bytes_set (latching 0x5A) wb55 (only image_nibble_tail) "ob.data" [].
Proof.
  assert (Hs : same_first_words image_nibble image_nibble_tail).
  { split; [reflexivity |]. intros i Hi. change (i < 1)%nat in Hi.
    assert (i = 0)%nat as -> by lia. repeat split; vm_compute; reflexivity. }
  split; [reflexivity |]. split; [reflexivity |]. split; [exact Hs |].
  apply (set_ignores_second_words (latching 0x5A) wb55 (only image_nibble)
           (only image_nibble_tail) "ob.data" image_nibble image_nibble_tail []).
  - reflexivity.
  - reflexivity.
  - exact Hs.
Defined.

Lemma validate_then_set_witness :
  option_bytes_validate quiet wb55 (only image_zero) "ob.data" []
  = (zero_validation, Ok false)
  /\ option_bytes_set quiet wb55 (only image_zero) "ob.data" []
     = (zero_set, Ok true)
  /\ (forall a v, In (a, v) (reads zero_set) -> In (a, v) (reads zero_validation))
  /\ writes zero_set = []
  /\ ~ In RqOptionBytesApply (requests zero_set)
  /\ In (Log LInfo msg_already_correct) zero_set.
Proof.
  assert (Hsame : forall a v, In (a, v) (reads zero_set) ->
                              In (a, v) (reads zero_validation)).
  { intros a v H. vm_compute in H. destruct H as [H | []].
    vm_compute. left. exact H. }
  split; [vm_compute; reflexivity |]. split; [vm_compute; reflexivity |].
  split; [exact Hsame |].
  apply (validate_then_set wb55 (only image_zero) quiet quiet "ob.data" []
           zero_validation [] zero_set true).
  - vm_compute. reflexivity.
  - vm_compute. reflexivity.
  - exact Hsame.
Defined.
